(** * Gaggle: Anki plain-text export reader and writer

    A shallow embedding of [src/gaggle/gaggle.py] and
    [src/gaggle/exceptions.py]: the header codec
    ([read_header_settings], [reformat_header_settings], [write_header]),
    the field-name resolver ([_generate_unique_field_names]), the card
    ([AnkiCard]) and the deck parser ([create_cards_from_tsv],
    [_parse_anki_export]).

    Conventions.
    - A Python [str] is a [string]; every character is read as a code point
      below 256.
    - A Python [int] is a [Z]; the interpreter's configurable limit on the
      number of digits of an int/str conversion is not modelled.
    - A [dict] keyed by strings is a [gmap string _], a [set] of strings is
      a [gset string].
    - [warnings.warn] appends to a list of diagnostics; exceptions are
      values of [exn]. *)

From Stdlib Require Import ZArith Ascii String List Lia.
From Stdlib Require Import Decimal DecimalString DecimalZ DecimalN DecimalPos.
From stdpp Require Import base option list gmap strings fin_maps.

Local Open Scope string_scope.
Local Open Scope Z_scope.

(** ** Exceptions and warnings *)

Inductive exn : Type :=
| ValueError (message : string)
| TypeError (message : string)
| KeyError (key : string)
| AttributeError (message : string).

(** The warning classes of [exceptions.py], and [UserWarning], which is
    what [warnings.warn] builds from a message that is not a [Warning]
    instance.  [gaggle.py] names a third class,
    [exceptions.HeaderFieldNameMismatchWarning]; [exceptions.py] declares
    no such class, so there is no warning of that kind: looking the name up
    raises [AttributeError]. *)
Inductive warning : Type :=
| DuplicateWarning (context_message duplicate_value replacement_value : string)
| LeftoverArgumentWarning (context_message leftovers leftover_name : string)
| UserWarning (message : option string).

Inductive outcome (A : Type) : Type :=
| Return (a : A)
| Raise (e : exn).
Arguments Return {A} a.
Arguments Raise {A} e.

(** ** Integers and strings *)

Module PyStr.

(** [str(n)] for an [int]. *)
Definition str (z : Z) : string := NilZero.string_of_int (Z.to_int z).

Definition is_digit (c : ascii) : bool :=
  let n := nat_of_ascii c in (48 <=? n)%nat && (n <=? 57)%nat.

(** [Py_ISSPACE] after the transformation [int()] applies to a [str]:
    tab, line feed, vertical tab, form feed, carriage return, space and,
    outside ASCII, the Unicode spaces (below 256: U+0085, U+00A0). *)
Definition int_space (c : ascii) : bool :=
  let n := nat_of_ascii c in
  ((9 <=? n)%nat && (n <=? 13)%nat) || (n =? 32)%nat
  || (n =? 133)%nat || (n =? 160)%nat.

(** [str.isspace] on one character, the set [str.rstrip()] removes. *)
Definition isspace (c : ascii) : bool :=
  let n := nat_of_ascii c in
  ((9 <=? n)%nat && (n <=? 13)%nat) || ((28 <=? n)%nat && (n <=? 32)%nat)
  || (n =? 133)%nat || (n =? 160)%nat.

Fixpoint lstrip_by (p : ascii -> bool) (s : string) : string :=
  match s with
  | String c s' => if p c then lstrip_by p s' else s
  | EmptyString => EmptyString
  end.

Fixpoint rstrip_by (p : ascii -> bool) (s : string) : string :=
  match s with
  | String c s' =>
      match rstrip_by p s' with
      | EmptyString => if p c then EmptyString else String c EmptyString
      | r => String c r
      end
  | EmptyString => EmptyString
  end.

(** [s.rstrip()] *)
Definition rstrip (s : string) : string := rstrip_by isspace s.

Definition digit_of (c : ascii) : option (uint -> uint) :=
  match c with
  | "0"%char => Some D0 | "1"%char => Some D1 | "2"%char => Some D2
  | "3"%char => Some D3 | "4"%char => Some D4 | "5"%char => Some D5
  | "6"%char => Some D6 | "7"%char => Some D7 | "8"%char => Some D8
  | "9"%char => Some D9 | _ => None
  end.

(** The digits of an integer literal accepted by [int(s)] in base 10:
    at least one digit, single underscores only between digits.
    [after_digit] tells whether the previous character was a digit. *)
Fixpoint digits (after_digit : bool) (s : string) : option uint :=
  match s with
  | EmptyString => if after_digit then Some Nil else None
  | String c s' =>
      match digit_of c with
      | Some d => d <$> digits true s'
      | None =>
          if (Ascii.eqb c "_" && after_digit)%bool
          then match s' with
               | String c' _ => if is_digit c' then digits false s' else None
               | EmptyString => None
               end
          else None
      end
  end.

(** [int(s)] for a [str]; [None] stands for [ValueError]. *)
Definition int (s : string) : option Z :=
  let body := rstrip_by int_space (lstrip_by int_space s) in
  match body with
  | String "-" r => (fun d => Z.opp (Z.of_uint d)) <$> digits false r
  | String "+" r => Z.of_uint <$> digits false r
  | _ => Z.of_uint <$> digits false body
  end.

(** [s.split(sep)] for a one-character separator. *)
Fixpoint split (sep : ascii) (s : string) : list string :=
  match s with
  | EmptyString => [EmptyString]
  | String c s' =>
      if Ascii.eqb c sep then EmptyString :: split sep s'
      else match split sep s' with
           | p :: ps => String c p :: ps
           | [] => [String c EmptyString]
           end
  end.

(** [delimiter.join(parts)] *)
Fixpoint join (delimiter : string) (parts : list string) : string :=
  match parts with
  | [] => EmptyString
  | [p] => p
  | p :: ps => p ++ delimiter ++ join delimiter ps
  end.

Fixpoint contains (c : ascii) (s : string) : bool :=
  match s with
  | EmptyString => false
  | String c' s' => Ascii.eqb c c' || contains c s'
  end.

Fixpoint all_chars (p : ascii -> bool) (s : string) : bool :=
  match s with
  | EmptyString => true
  | String c s' => p c && all_chars p s'
  end.

(** The characters [str] writes: digits and the minus sign. *)
Definition int_char (c : ascii) : bool :=
  is_digit c || Ascii.eqb c "-".

End PyStr.

(** ** exceptions.py *)

Module Exceptions.

(** [LeftoverArgumentWarning.from_iterable]: the values are cast to [str]
    (the identity on the strings passed here) and joined. *)
Definition from_iterable (context_message : string) (iterable : list string)
    (leftover_name : string) (delimiter : string) : warning :=
  let delimited_leftovers := PyStr.join delimiter iterable in
  LeftoverArgumentWarning context_message delimited_leftovers leftover_name.

(** [LeftoverArgumentWarning.from_iterator]: exhausts the iterator. *)
Definition from_iterator (iterator : list string) (context_message : string)
    (leftover_name : string) (delimiter : string) : warning :=
  from_iterable context_message iterator leftover_name delimiter.

(** An argument of a call to [from_values]. *)
Inductive arg : Type :=
| AStr (s : string)
| AList (l : list string)
| AIter (remaining : list string).

Definition from_values_parameters : list string :=
  ["context_message"; "leftover_name"; "delimiter"].

Definition mem (k : string) (l : list string) : bool :=
  existsb (String.eqb k) l.

(** Binding of the keyword arguments of a call, in call order, against
    the parameters already bound positionally. *)
Fixpoint bind_keywords (bound : list string) (kwargs : list (string * arg))
    : outcome (list string) :=
  match kwargs with
  | [] => Return bound
  | (k, _) :: kwargs' =>
      if negb (mem k from_values_parameters)
      then Raise (TypeError
             ("LeftoverArgumentWarning.from_values() got an unexpected keyword argument '"
              ++ k ++ "'"))
      else if mem k bound
      then Raise (TypeError
             ("LeftoverArgumentWarning.from_values() got multiple values for argument '"
              ++ k ++ "'"))
      else bind_keywords (k :: bound) kwargs'
  end.

(** [LeftoverArgumentWarning.from_values]:
    [def from_values(cls, context_message, *values, leftover_name,
    delimiter=' '): pass].  The first positional argument binds
    [context_message], the others are collected in [values]; the body is
    [pass], so a call that binds returns [None]. *)
Definition from_values (args : list arg) (kwargs : list (string * arg))
    : outcome (option warning) :=
  let positional := match args with [] => [] | _ :: _ => ["context_message"] end in
  match bind_keywords positional kwargs with
  | Raise e => Raise e
  | Return bound =>
      if negb (mem "context_message" bound)
      then Raise (TypeError
             "LeftoverArgumentWarning.from_values() missing 1 required positional argument: 'context_message'")
      else if negb (mem "leftover_name" bound)
      then Raise (TypeError
             "LeftoverArgumentWarning.from_values() missing 1 required keyword-only argument: 'leftover_name'")
      else Return None
  end.

End Exceptions.

(** [warnings.warn(message)]: the warning that is recorded. *)
Definition warn (message : option warning) : warning :=
  match message with
  | Some w => w
  | None => UserWarning None
  end.

(** ** The field-name resolver *)

(** What a generator of names does, in order: the warnings emitted before
    each [yield], the yielded name, and how it ends ([return], or an
    exception). *)
Inductive generated : Type :=
| Stop (ws : list warning)
| Fail (ws : list warning) (e : exn)
| Yield (ws : list warning) (name : string) (rest : generated).

Fixpoint names_of (g : generated) : list string :=
  match g with
  | Stop _ | Fail _ _ => []
  | Yield _ n rest => n :: names_of rest
  end.

Fixpoint warnings_of (g : generated) : list warning :=
  match g with
  | Stop ws | Fail ws _ => ws
  | Yield ws _ rest => ws ++ warnings_of rest
  end.

Fixpoint raised (g : generated) : option exn :=
  match g with
  | Stop _ => None
  | Fail _ e => Some e
  | Yield _ _ rest => raised rest
  end.

(** The warnings emitted at slot [i], up to and including its [yield]. *)
Fixpoint slot (i : nat) (g : generated) : option (list warning * string) :=
  match g, i with
  | Yield ws n _, O => Some (ws, n)
  | Yield _ _ rest, S i' => slot i' rest
  | _, _ => None
  end.

(** [bool(name)] for [name : str | None]. *)
Definition truthy (name : option string) : bool :=
  match name with
  | Some (String _ _) => true
  | _ => false
  end.

(** [name in seen_names] for [name : str | None]. *)
Definition in_seen (name : option string) (seen_names : gset string) : bool :=
  match name with
  | Some n => bool_decide (n ∈ seen_names)
  | None => false
  end.

(** [f'Field{count}'] *)
Definition default_name (count : nat) : string :=
  "Field" ++ PyStr.str (Z.of_nat count).

(** [exceptions.HeaderFieldNameMismatchWarning]: the module has no such
    attribute. *)
Definition mismatch_attribute_error : exn :=
  AttributeError
    "module 'gaggle.exceptions' has no attribute 'HeaderFieldNameMismatchWarning'".

(** The loop of [_generate_unique_field_names] from iteration [count] on;
    [field_names] and [fields] are what the two iterators still hold.
    [None] from [next(fields, None)] is the end of [fields]: a field is a
    [str].  At a reserved slot whose candidate is non-empty and differs
    from the reserved name, the argument of [warnings.warn] is evaluated
    first, and raises: neither the warning nor the [yield] is reached. *)
Fixpoint generate_from (count : nat) (field_names fields : list string)
    (indexes_reserved_names : gmap Z string) (seen_names : gset string)
    : generated :=
  let name := head field_names in
  let field_names := tail field_names in
  match fields with
  | [] =>
      match name with
      | Some n =>
          match Exceptions.from_values
                  [Exceptions.AList [n]; Exceptions.AIter field_names]
                  [("context_message", Exceptions.AStr "More field names than fields");
                   ("leftover_name", Exceptions.AStr "field names")] with
          | Raise e => Fail [] e
          | Return message => Stop [warn message]
          end
      | None => Stop []
      end
  | _ :: fields =>
      match indexes_reserved_names !! Z.of_nat count with
      | Some reserved_name =>
          if truthy name && negb (bool_decide (name = Some reserved_name))
          then Fail [] mismatch_attribute_error
          else Yield [] reserved_name
                 (generate_from (S count) field_names fields
                    indexes_reserved_names seen_names)
      | None =>
          let duplicate := in_seen name seen_names in
          let ws :=
            if duplicate
            then [DuplicateWarning "field name" (default "" name) (default_name count)]
            else [] in
          let name := if duplicate then None else name in
          match name with
          | Some (String _ _ as name) =>
              Yield ws name
                (generate_from (S count) field_names fields
                   indexes_reserved_names ({[name]} ∪ seen_names))
          | _ =>
              let name := default_name count in
              if bool_decide (name ∈ seen_names)
              then Fail ws (ValueError
                     ("Index-associated generic name duplicated. Duplicated value: "
                      ++ name))
              else Yield ws name
                     (generate_from (S count) field_names fields
                        indexes_reserved_names ({[name]} ∪ seen_names))
          end
      end
  end.

(** [propagate_warnings_from_generator]: the warnings of the wrapped
    generator are recorded while it runs and emitted again once it has
    returned; when it raises, the [with] block is left by the exception and
    the recorded warnings are never emitted. *)
Fixpoint capture_and_raise_warnings (recorded : list warning) (g : generated)
    : generated :=
  match g with
  | Stop ws => Stop (recorded ++ ws)
  | Fail _ e => Fail [] e
  | Yield ws n rest => Yield [] n (capture_and_raise_warnings (recorded ++ ws) rest)
  end.

(** [_generate_unique_field_names], as decorated. *)
Definition _generate_unique_field_names (field_names fields : list string)
    (indexes_reserved_names : gmap Z string) (seen_names : gset string)
    : generated :=
  capture_and_raise_warnings []
    (generate_from 0 field_names fields indexes_reserved_names seen_names).

Definition reserved_names : list string := ["Tags"; "Deck"; "Note Type"; "GUID"].

Definition reserved_name_set : gset string := list_to_set reserved_names.

(** ** Computations that warn and may raise *)

Definition M (A : Type) : Type := (list warning * outcome A)%type.

Definition ret {A} (a : A) : M A := ([], Return a).
Definition raise {A} (e : exn) : M A := ([], Raise e).
Definition lift {A} (o : outcome A) : M A := ([], o).

Definition bind {A B} (m : M A) (k : A -> M B) : M B :=
  match m with
  | (ws, Return a) => let '(ws', r) := k a in ((ws ++ ws')%list, r)
  | (ws, Raise e) => (ws, Raise e)
  end.

Notation "x <- m ;; k" := (bind m (fun x => k))
  (at level 100, m at next level, right associativity).

(** ** AnkiCard *)

(** A value of a header setting: [str | int], or [None]. *)
Inductive value : Type :=
| VStr (s : string)
| VInt (z : Z)
| VNone.

#[global] Instance value_eq_dec : EqDecision value.
Proof. solve_decision. Defined.

(** [f'{v}'] *)
Definition format (v : value) : string :=
  match v with
  | VStr s => s
  | VInt z => PyStr.str z
  | VNone => "None"
  end.

(** [collections.OrderedDict]: keys in insertion order, one entry a key. *)
Definition OrderedDict : Type := list (string * string).

Fixpoint od_set (k v : string) (d : OrderedDict) : OrderedDict :=
  match d with
  | [] => [(k, v)]
  | (k', v') :: d' =>
      if String.eqb k k' then (k', v) :: d' else (k', v') :: od_set k v d'
  end.

(** [OrderedDict(pairs)] *)
Definition od_of_pairs (pairs : list (string * string)) : OrderedDict :=
  fold_left (fun d kv => od_set kv.1 kv.2 d) pairs [].

(** [d[k]] *)
Fixpoint od_get (k : string) (d : OrderedDict) : outcome string :=
  match d with
  | [] => Raise (KeyError k)
  | (k', v) :: d' => if String.eqb k k' then Return v else od_get k d'
  end.

(** [zip(names, fields, strict=True)], consumed to the end: the generator
    is advanced first, then the iterator over [fields]. *)
Fixpoint zip_strict (g : generated) (fields : list string)
    : M (list (string * string)) :=
  match g, fields with
  | Yield ws n rest, f :: fields' =>
      let '(ws', r) := zip_strict rest fields' in
      ((ws ++ ws')%list,
       match r with
       | Return pairs => Return ((n, f) :: pairs)
       | Raise e => Raise e
       end)
  | Yield ws _ _, [] =>
      (ws, Raise (ValueError "zip() argument 2 is shorter than argument 1"))
  | Stop ws, [] => (ws, Return [])
  | Stop ws, _ :: _ =>
      (ws, Raise (ValueError "zip() argument 2 is longer than argument 1"))
  | Fail ws e, _ => (ws, Raise e)
  end.

(** [_generate_field_dict]: [fields] is a list, so the resolver and [zip]
    iterate over it independently. *)
Definition _generate_field_dict (field_names fields : list string)
    (indexes_reserved_names : gmap Z string) (seen_names : gset string)
    : M OrderedDict :=
  let field_names :=
    _generate_unique_field_names field_names fields
      indexes_reserved_names seen_names in
  name_field_tuples <- zip_strict field_names fields ;;
  ret (od_of_pairs name_field_tuples).

(** [_parse_anki_header_bool]: [HeaderBoolean] is a [StrEnum]; its members
    compare equal to the strings ['true'] and ['false'] only. *)
Definition _parse_anki_header_bool (bool_as_str : value) : outcome bool :=
  if bool_decide (bool_as_str = VStr "true") then Return true
  else if bool_decide (bool_as_str = VStr "false") then Return false
  else Raise (ValueError
         ("Expected true or false but instead got " ++ format bool_as_str)).

Record AnkiCard : Type := {
  has_html : bool;
  fields : OrderedDict
}.

(** The dict comprehension of [AnkiCard.__init__]: later pairs replace
    earlier ones on the same index, [None] indexes are skipped.  The
    resolver looks the mapping up with an [int] only, so an index that is a
    [str] (a header value that is not integer-like) is a key that is never
    found; it is left out of the map. *)
Definition reserved_mapping (property_indexes : list value) (names : list string)
    : gmap Z string :=
  fold_left
    (fun m '(index, name) =>
       match index with
       | VInt z => <[z := name]> m
       | _ => m
       end)
    (zip property_indexes names) ∅.

(** [AnkiCard.__init__] *)
Definition AnkiCard_init (fields : list string) (field_names : option (list string))
    (has_html tags_idx note_type_idx deck_idx guid_idx : value) : M AnkiCard :=
  let field_names := default [] field_names in
  has_html <- lift (_parse_anki_header_bool has_html) ;;
  let property_indexes := [tags_idx; deck_idx; note_type_idx; guid_idx] in
  let reserved := reserved_mapping property_indexes reserved_names in
  fields <- _generate_field_dict field_names fields reserved reserved_name_set ;;
  ret {| has_html := has_html; fields := fields |}.

Definition AnkiCard_keywords : list string :=
  ["has_html"; "tags_idx"; "note_type_idx"; "deck_idx"; "guid_idx"].

(** The [TypeError] of the call for a key of [header] that cannot be bound:
    [field_names] is given twice as a keyword, which the call itself
    refuses; [self] and [fields] are bound by position already; any other
    key names no parameter. *)
Definition AnkiCard_keyword_error (k : string) : exn :=
  TypeError
    (if String.eqb k "field_names"
     then "gaggle.gaggle.AnkiCard() got multiple values for keyword argument 'field_names'"
     else if bool_decide (k ∈ ["self"; "fields"])
     then "AnkiCard.__init__() got multiple values for argument '" ++ k ++ "'"
     else "AnkiCard.__init__() got an unexpected keyword argument '" ++ k ++ "'").

(** [AnkiCard(card, field_names=field_names, **header)]: every key of
    [header] has to name a parameter that is not bound yet.  A key
    [field_names] is refused before the constructor is entered; of the
    other keys that cannot be bound the code reports the first in the
    insertion order of [header], which the map does not record: the first
    in the order of the map stands for it. *)
Definition AnkiCard_call (card : list string) (field_names : option (list string))
    (header : gmap string value) : M AnkiCard :=
  if bool_decide ("field_names" ∈ dom header)
  then raise (AnkiCard_keyword_error "field_names")
  else
  match filter (fun k => ¬ k ∈ AnkiCard_keywords) (elements (dom header)) with
  | k :: _ => raise (AnkiCard_keyword_error k)
  | [] =>
      AnkiCard_init card field_names
        (default (VStr "false") (header !! "has_html"))
        (default VNone (header !! "tags_idx"))
        (default VNone (header !! "note_type_idx"))
        (default VNone (header !! "deck_idx"))
        (default VNone (header !! "guid_idx"))
  end.

(** [AnkiCard.get_field] and [AnkiCard.as_str_list] *)
Definition get_field (card : AnkiCard) (field_name : string) : outcome string :=
  od_get field_name (fields card).

Definition as_str_list (card : AnkiCard) : list string :=
  map snd (fields card).

Definition field_names_of (card : AnkiCard) : list string :=
  map fst (fields card).

(** ** The header codec *)

Definition LF : ascii := "010"%char.
Definition CR : ascii := "013"%char.
Definition TAB : ascii := "009"%char.
Definition QUOTE : ascii := "034"%char.

Definition _ANKI_EXPORT_HEADER_LINE_SYMBOL : ascii := "#"%char.
Definition _ANKI_EXPORT_HEADER_DELIMITER_SYMBOL : ascii := ":"%char.
Definition _ANKI_EXPORT_HEADER_SETTING_SEPARATOR_NAME : string := "separator".
Definition _ANKI_EXPORT_HEADER_SETTING_SEPARATOR_TSV_STRING : string := "tab".

Definition _ANKI_EXPORT_HEADER_MAPPING_items : list (string * string) :=
  [("html", "has_html");
   ("tags column", "tags_idx");
   ("notetype column", "note_type_idx");
   ("deck column", "deck_idx");
   ("guid column", "guid_idx");
   (_ANKI_EXPORT_HEADER_SETTING_SEPARATOR_NAME, "separator")].

Definition _ANKI_EXPORT_HEADER_MAPPING : gmap string string :=
  list_to_map _ANKI_EXPORT_HEADER_MAPPING_items.

Definition _ANKI_EXPORT_HEADER_MAPPING_REVERSE : gmap string string :=
  list_to_map (map (fun kv => (kv.2, kv.1)) _ANKI_EXPORT_HEADER_MAPPING_items).

Definition _ANKI_ORDERED_HEADER : list string :=
  ["separator"; "html"; "guid column"; "notetype column"; "deck column";
   "tags column"].

Inductive ReformatDirection : Type :=
| ANKI_TO_GAGGLE
| GAGGLE_TO_ANKI.

Definition _DIRECTION_TRANSLATION_VALUE (direction : ReformatDirection) : Z :=
  match direction with
  | ANKI_TO_GAGGLE => -1
  | GAGGLE_TO_ANKI => 1
  end.

Definition _DIRECTION_MAPPING (direction : ReformatDirection) : gmap string string :=
  match direction with
  | ANKI_TO_GAGGLE => _ANKI_EXPORT_HEADER_MAPPING
  | GAGGLE_TO_ANKI => _ANKI_EXPORT_HEADER_MAPPING_REVERSE
  end.

(** [transform_integer_value]: only [ValueError] is caught; [int(None)] is
    a [TypeError]. *)
Definition transform_integer_value (v : value) (translation scale : Z)
    : outcome value :=
  match v with
  | VInt z => Return (VInt ((z + translation) * scale))
  | VStr s =>
      match PyStr.int s with
      | Some z => Return (VInt ((z + translation) * scale))
      | None => Return v
      end
  | VNone =>
      Raise (TypeError
        "int() argument must be a string, a bytes-like object or a real number, not 'NoneType'")
  end.

(** One iteration of the loop of [reformat_header_settings]. *)
Definition reformat_item (translation : Z) (reformat_mapping : gmap string string)
    (setting : string) (v : value) (reformatted : outcome (gmap string value))
    : outcome (gmap string value) :=
  match reformatted with
  | Raise e => Raise e
  | Return reformatted_header =>
      match reformat_mapping !! setting with
      | None => Raise (KeyError setting)
      | Some new_key =>
          match transform_integer_value v translation 1 with
          | Raise e => Raise e
          | Return new_value => Return (<[new_key := new_value]> reformatted_header)
          end
      end
  end.

(** [reformat_header_settings]; the header that replaces the content of the
    argument is returned.  The code visits the items in the insertion order
    of the header, which the map does not record; they are visited in the
    order of the map here.  The order decides only which exception is
    raised when two or more items are faulty: the properties below are
    about headers with one faulty item at most, or hold for whichever
    faulty item raises. *)
Definition reformat_header_settings (header : gmap string value)
    (direction : ReformatDirection) : outcome (gmap string value) :=
  let translation := _DIRECTION_TRANSLATION_VALUE direction in
  let reformat_mapping := _DIRECTION_MAPPING direction in
  map_fold (reformat_item translation reformat_mapping) (Return ∅) header.

(** [_copy_and_reformat]: the values are immutable, the deep copy is the
    map itself. *)
Definition _copy_and_reformat (original : gmap string value)
    (direction : ReformatDirection) : outcome (gmap string value) :=
  reformat_header_settings original direction.

(** A text stream is the text that has not been read yet; [f.tell()] is
    that text and [f.seek(pos)] puts it back. *)
Definition stream : Type := string.

(** [f.read(1)] *)
Definition read1 (f : stream) : string * stream :=
  match f with
  | String c f' => (String c EmptyString, f')
  | EmptyString => (EmptyString, EmptyString)
  end.

(** [f.readline()] on a stream opened with [newline='']: a line ends after
    a line feed, a carriage return, or a carriage return and a line feed,
    and keeps its ending. *)
Fixpoint readline (f : stream) : string * stream :=
  match f with
  | EmptyString => (EmptyString, EmptyString)
  | String c f' =>
      if Ascii.eqb c LF then (String c EmptyString, f')
      else if Ascii.eqb c CR then
        match f' with
        | String c' f'' =>
            if Ascii.eqb c' LF then (String c (String c' EmptyString), f'')
            else (String c EmptyString, f')
        | EmptyString => (String c EmptyString, f')
        end
      else let '(line, rest) := readline f' in (String c line, rest)
  end.

(** The loop of [read_header_settings].  Every iteration reads at least
    the header symbol, so [fuel] above the length of the stream is never
    used up. *)
Fixpoint read_header_loop (fuel : nat) (header : gmap string value) (f : stream)
    : outcome (gmap string value * stream) :=
  match fuel with
  | O => Return (header, f)
  | S fuel =>
      let reader_pos := f in
      let '(c, f) := read1 f in
      if String.eqb c (String _ANKI_EXPORT_HEADER_LINE_SYMBOL EmptyString) then
        let '(line, f) := readline f in
        match PyStr.split _ANKI_EXPORT_HEADER_DELIMITER_SYMBOL line with
        | [setting; v] =>
            let v := PyStr.rstrip v in
            match transform_integer_value (VStr v) 0 1 with
            | Raise e => Raise e
            | Return v => read_header_loop fuel (<[setting := v]> header) f
            end
        | [_] => Raise (ValueError "not enough values to unpack (expected 2, got 1)")
        | _ => Raise (ValueError "too many values to unpack (expected 2)")
        end
      else Return (header, reader_pos)
  end.

(** [read_header_settings]: the header and the stream, left at the first
    line that does not start with the header symbol. *)
Definition read_header_settings (f : stream) : outcome (gmap string value * stream) :=
  read_header_loop (S (String.length f)) ∅ f.

(** [parse_header_settings] *)
Definition parse_header_settings (f : stream) : outcome (gmap string value * stream) :=
  match read_header_settings f with
  | Raise e => Raise e
  | Return (header, f) =>
      match reformat_header_settings header ANKI_TO_GAGGLE with
      | Raise e => Raise e
      | Return header => Return (header, f)
      end
  end.

(** [AnkiDeck.write_header]: the text written to the stream. *)
Definition write_header (header : gmap string value) : outcome string :=
  match _copy_and_reformat header GAGGLE_TO_ANKI with
  | Raise e => Raise e
  | Return header_copy =>
      Return
        (fold_right
           (fun setting_name written =>
              match header_copy !! setting_name with
              | Some VNone | None => written
              | Some setting_value =>
                  String _ANKI_EXPORT_HEADER_LINE_SYMBOL
                    (setting_name
                     ++ String _ANKI_EXPORT_HEADER_DELIMITER_SYMBOL
                          (format setting_value ++ String LF EmptyString))
                  ++ written
              end)
           EmptyString _ANKI_ORDERED_HEADER)
  end.

(** ** Rows: [csv.reader] with the [excel-tab] dialect

    The reader of the standard library for the dialect the deck uses:
    delimiter tab, quote character the double quote, doubled quotes,
    no escape character, not strict.  The configurable limit on the size of
    a field is not modelled. *)

Module Csv.

Inductive state : Type :=
| START_RECORD
| START_FIELD
| IN_FIELD
| IN_QUOTED_FIELD
| QUOTE_IN_QUOTED_FIELD
| EAT_CRNL.

Record reader : Type := {
  st : state;
  field : string;
  record : list string
}.

Definition reset : reader :=
  {| st := START_RECORD; field := EmptyString; record := [] |}.

Definition add_char (c : ascii) (s : state) (r : reader) : reader :=
  {| st := s; field := field r ++ String c EmptyString; record := record r |}.

Definition save_field (s : state) (r : reader) : reader :=
  {| st := s; field := EmptyString; record := (record r ++ [field r])%list |}.

Definition goto (s : state) (r : reader) : reader :=
  {| st := s; field := field r; record := record r |}.

Definition is_eol (c : ascii) : bool := Ascii.eqb c LF || Ascii.eqb c CR.

(** The end of a line, in the states that treat it like a line break. *)
Definition at_end (r : reader) : reader :=
  match st r with
  | START_RECORD => r
  | START_FIELD | IN_FIELD | QUOTE_IN_QUOTED_FIELD => save_field START_RECORD r
  | IN_QUOTED_FIELD => r
  | EAT_CRNL => goto START_RECORD r
  end.

Definition start_field (c : ascii) (r : reader) : reader :=
  if is_eol c then save_field EAT_CRNL r
  else if Ascii.eqb c QUOTE then goto IN_QUOTED_FIELD r
  else if Ascii.eqb c TAB then save_field START_FIELD r
  else add_char c IN_FIELD r.

(** One character of a line. *)
Definition process_char (c : ascii) (r : reader) : outcome reader :=
  match st r with
  | START_RECORD =>
      if is_eol c then Return (goto EAT_CRNL r)
      else Return (start_field c r)
  | START_FIELD => Return (start_field c r)
  | IN_FIELD =>
      if is_eol c then Return (save_field EAT_CRNL r)
      else if Ascii.eqb c TAB then Return (save_field START_FIELD r)
      else Return (add_char c IN_FIELD r)
  | IN_QUOTED_FIELD =>
      if Ascii.eqb c QUOTE then Return (goto QUOTE_IN_QUOTED_FIELD r)
      else Return (add_char c IN_QUOTED_FIELD r)
  | QUOTE_IN_QUOTED_FIELD =>
      if Ascii.eqb c QUOTE then Return (add_char c IN_QUOTED_FIELD r)
      else if Ascii.eqb c TAB then Return (save_field START_FIELD r)
      else if is_eol c then Return (save_field EAT_CRNL r)
      else Return (add_char c IN_FIELD r)
  | EAT_CRNL =>
      if is_eol c then Return r
      else Raise (ValueError "new-line character seen in unquoted field")
  end.

Fixpoint process_line (line : string) (r : reader) : outcome reader :=
  match line with
  | EmptyString => Return (at_end r)
  | String c line' =>
      match process_char c r with
      | Raise e => Raise e
      | Return r' => process_line line' r'
      end
  end.

(** The rows produced from the lines of the input, and the error that
    stops the reader, if any. *)
Fixpoint rows (r : reader) (lines : list string) : list (list string) * option exn :=
  match lines with
  | [] =>
      match st r, field r with
      | IN_QUOTED_FIELD, _ | _, String _ _ => ([record (save_field START_RECORD r)], None)
      | _, _ => ([], None)
      end
  | line :: lines' =>
      match process_line line r with
      | Raise e => ([], Some e)
      | Return r' =>
          match st r' with
          | START_RECORD =>
              let '(more, e) := rows reset lines' in (record r' :: more, e)
          | _ => rows r' lines'
          end
      end
  end.

(** Iteration over a text stream: its lines, with their endings. *)
Fixpoint lines (f : stream) : list string :=
  match f with
  | EmptyString => []
  | String c f' =>
      if Ascii.eqb c LF then String c EmptyString :: lines f'
      else if Ascii.eqb c CR then
        match f' with
        | String c' f'' =>
            if Ascii.eqb c' LF then String c (String c' EmptyString) :: lines f''
            else String c EmptyString :: lines f'
        | EmptyString => [String c EmptyString]
        end
      else match lines f' with
           | line :: more => String c line :: more
           | [] => [String c EmptyString]
           end
  end.

(** [csv.reader(f, dialect='excel-tab')], consumed to the end. *)
Definition reader_excel_tab (f : stream) : list (list string) * option exn :=
  rows reset (lines f).

End Csv.

(** ** Decks *)

Section Deck.

(** The row decoder, [csv.reader(f, dialect=_ANKI_EXPORT_CONTENT_DIALECT)]
    consumed to the end: the rows it produces and the error that stops
    it, if any. *)
Variable csv_reader : stream -> list (list string) * option exn.

(** The loop of [create_cards_from_tsv] over the decoded rows.
    [field_names] is a sequence (a list, a tuple): every card iterates over
    it from its start. *)
Fixpoint cards_of_rows (rows : list (list string)) (stopped : option exn)
    (field_names : option (list string)) (header : gmap string value)
    : M (list AnkiCard) :=
  match rows with
  | [] =>
      match stopped with
      | Some e => raise e
      | None => ret []
      end
  | card :: rows' =>
      anki_card <- AnkiCard_call card field_names header ;;
      deck <- cards_of_rows rows' stopped field_names header ;;
      ret (anki_card :: deck)
  end.

(** [create_cards_from_tsv] *)
Definition create_cards_from_tsv (f : stream) (field_names : option (list string))
    (header : option (gmap string value)) : M (list AnkiCard) :=
  let header := default ∅ header in
  let '(cards, stopped) := csv_reader f in
  cards_of_rows cards stopped field_names header.

(** [_parse_anki_export], on the text of the exported file. *)
Definition _parse_anki_export (exported_file : stream)
    (field_names : option (list string))
    : M (gmap string value * list AnkiCard) :=
  let seperator_setting_key := _ANKI_EXPORT_HEADER_SETTING_SEPARATOR_NAME in
  let tsv := VStr _ANKI_EXPORT_HEADER_SETTING_SEPARATOR_TSV_STRING in
  parsed <- lift (parse_header_settings exported_file) ;;
  let '(header, f) := parsed in
  match header !! seperator_setting_key with
  | None => raise (KeyError seperator_setting_key)
  | Some separator =>
      if bool_decide (separator = tsv) then
        cards <- create_cards_from_tsv f field_names
                   (Some (delete seperator_setting_key header)) ;;
        ret (<[seperator_setting_key := tsv]> (delete seperator_setting_key header),
             cards)
      else ret (header, [])
  end.

Record AnkiDeck : Type := {
  deck_header : gmap string value;
  cards : list AnkiCard
}.

(** [AnkiDeck.from_file] *)
Definition from_file (file : stream) (field_names : option (list string))
    : M AnkiDeck :=
  parsed <- _parse_anki_export file field_names ;;
  let '(header, cards) := parsed in
  ret {| deck_header := header; cards := cards |}.

End Deck.

(** ** Headers that survive a round trip *)

(** A character that does not end a line. *)
Definition line_char (c : ascii) : bool :=
  negb (Ascii.eqb c LF) && negb (Ascii.eqb c CR).

(** A character that can stand in a header line without ending the line
    or the setting name. *)
Definition header_char (c : ascii) : bool :=
  negb (Ascii.eqb c _ANKI_EXPORT_HEADER_DELIMITER_SYMBOL)
  && negb (Ascii.eqb c LF) && negb (Ascii.eqb c CR).

(** A string value that is read back as it is written: no delimiter and no
    line break in it, no whitespace at its end, and not integer-like. *)
Definition plain_str (s : string) : bool :=
  PyStr.all_chars header_char s
  && String.eqb (PyStr.rstrip s) s
  && match PyStr.int s with Some _ => false | None => true end.

(** A value that is read back as it is written: an integer or a plain
    string. *)
Definition plain (v : value) : bool :=
  match v with
  | VInt _ => true
  | VStr s => plain_str s
  | VNone => false
  end.

(** The header lines of the settings [items], in order. *)
Definition render (items : list (string * value)) : string :=
  fold_right
    (fun '(setting_name, setting_value) written =>
       String _ANKI_EXPORT_HEADER_LINE_SYMBOL
         (setting_name
          ++ String _ANKI_EXPORT_HEADER_DELIMITER_SYMBOL
               (format setting_value ++ String LF EmptyString))
       ++ written)
    EmptyString items.

(** The settings of [header] that [write_header] writes, among [names]. *)
Definition written_items (header : gmap string value) (names : list string)
    : list (string * value) :=
  omap (fun setting_name =>
          match header !! setting_name with
          | Some VNone | None => None
          | Some setting_value => Some (setting_name, setting_value)
          end) names.

Definition internal_keys : list string :=
  ["has_html"; "tags_idx"; "note_type_idx"; "deck_idx"; "guid_idx"; "separator"].

Definition leftover_type_error : exn :=
  TypeError
    "LeftoverArgumentWarning.from_values() got multiple values for argument 'context_message'".

Definition default_name_error (count : nat) : exn :=
  ValueError
    ("Index-associated generic name duplicated. Duplicated value: "
     ++ default_name count).

(** What the loop of [reformat_header_settings] has built after the items
    of [m]: every item of [m] has its reformatted item in the result, and
    the other way round; or an item that cannot be reformatted. *)
Definition reformatted_from (translation : Z) (mapping : gmap string string)
    (m : gmap string value) (r : outcome (gmap string value)) : Prop :=
  match r with
  | Return h' =>
      (forall k v, m !! k = Some v ->
         exists k' v', mapping !! k = Some k'
                       /\ transform_integer_value v translation 1 = Return v'
                       /\ h' !! k' = Some v')
      /\ (forall k' v', h' !! k' = Some v' ->
            exists k v, m !! k = Some v
                        /\ mapping !! k = Some k'
                        /\ transform_integer_value v translation 1 = Return v')
  | Raise e =>
      exists k v, m !! k = Some v
                  /\ (mapping !! k = None
                      \/ transform_integer_value v translation 1 = Raise e)
  end.

(** ** Texts of exported files, for the examples *)

(** The lines, each ended by a line feed. *)
Definition text (lines : list string) : string :=
  fold_right (fun line rest => line ++ String LF rest) EmptyString lines.

(** A row of tab-separated fields. *)
Definition row (fields : list string) : string :=
  PyStr.join (String TAB EmptyString) fields.

(** ** Names by position *)

(** The name of column [i] when no candidate name is given: the reserved
    name of the index, or [Field{i}]. *)
Definition positional_name (reserved : gmap Z string) (i : nat) : string :=
  match reserved !! Z.of_nat i with
  | Some reserved_name => reserved_name
  | None => default_name i
  end.

(** The generator that yields [names] without a warning and returns. *)
Definition yields (names : list string) : generated :=
  fold_right (fun n g => Yield [] n g) (Stop []) names.

(** ** Values that a reformatting leaves alone *)

(** A value [reformat_header_settings] shifts and shifts back: an integer,
    or a string that is not integer-like. *)
Definition castless (v : value) : bool :=
  match v with
  | VInt _ => true
  | VStr s => match PyStr.int s with Some _ => false | None => true end
  | VNone => false
  end.

(** The value of a setting read from the wire: an integer is one lower. *)
Definition to_internal (v : value) : value :=
  match v with
  | VInt z => VInt (z - 1)
  | _ => v
  end.

(** ** File paths *)

Definition GENERIC_EXPORT_FILE_NAME : string := "GaggleFile".
Definition _ANKI_NOTESINPLAINTEXT_EXT : string := ".txt".

(** [path.endswith('/')] *)
Fixpoint ends_with_sep (path : string) : bool :=
  match path with
  | EmptyString => false
  | String c EmptyString => Ascii.eqb c "/"
  | String _ path' => ends_with_sep path'
  end.

(** [os.path.join(a, b)] of [posixpath]. *)
Definition path_join (a b : string) : string :=
  match b with
  | String "/" _ => b
  | _ =>
      match a with
      | EmptyString => b
      | _ => if ends_with_sep a then a ++ b else a ++ String "/" b
      end
  end.

(** The loop of [_generate_unique_file_path]; [isfile] is [os.path.isfile]
    on the file system as it is.  Every iteration but the last finds another
    existing file, so [fuel] above the number of files is never used up. *)
Fixpoint unique_file_path_loop (fuel : nat) (isfile : string -> bool)
    (filename extension destination : string)
    (modified_filename : string) (tag : nat) : string :=
  let complete_filename := modified_filename ++ extension in
  let file_path := path_join destination complete_filename in
  match fuel with
  | O => file_path
  | S fuel =>
      if isfile file_path
      then unique_file_path_loop fuel isfile filename extension destination
             (filename ++ PyStr.str (Z.of_nat tag)) (S tag)
      else file_path
  end.

(** [_generate_unique_file_path], with [files] the paths of the files that
    exist. *)
Definition _generate_unique_file_path (files : gset string)
    (filename : option string) (extension destination : string) : string :=
  let filename :=
    if truthy filename then default "" filename else GENERIC_EXPORT_FILE_NAME in
  let '(modified_filename, tag) :=
    if String.eqb filename GENERIC_EXPORT_FILE_NAME
    then (filename ++ PyStr.str 0, 1%nat)
    else (filename, 0%nat) in
  unique_file_path_loop (S (size files)) (fun p => bool_decide (p ∈ files))
    filename extension destination modified_filename tag.

(** ** Writing: [csv.writer] with the [excel-tab] dialect

    The writer of the standard library for the dialect of the deck:
    minimal quoting, doubled quotes, fields joined by a tab, rows ended by a
    carriage return and a line feed. *)

Module CsvWriter.

(** A character that makes the writer quote its field: the delimiter, the
    quote character, or a character of the line terminator. *)
Definition special (c : ascii) : bool :=
  Ascii.eqb c TAB || Ascii.eqb c QUOTE || Ascii.eqb c CR || Ascii.eqb c LF.

Fixpoint needs_quotes (field : string) : bool :=
  match field with
  | EmptyString => false
  | String c field' => special c || needs_quotes field'
  end.

Fixpoint double_quotes (field : string) : string :=
  match field with
  | EmptyString => EmptyString
  | String c field' =>
      if Ascii.eqb c QUOTE then String c (String c (double_quotes field'))
      else String c (double_quotes field')
  end.

(** A field as it is appended to the record. *)
Definition join_append (field : string) : string :=
  if needs_quotes field
  then String QUOTE (double_quotes field ++ String QUOTE EmptyString)
  else field.

(** [w.writerow(row)]: the text written.  A record that is empty although
    the row has a field (one empty field) is written as a quoted empty
    field. *)
Definition writerow (row : list string) : string :=
  let record := PyStr.join (String TAB EmptyString) (map join_append row) in
  let record :=
    match row, record with
    | _ :: _, EmptyString => String QUOTE (String QUOTE EmptyString)
    | _, _ => record
    end in
  record ++ String CR (String LF EmptyString).

(** The rows, one after the other. *)
Definition writerows (rows : list (list string)) : string :=
  fold_right (fun row written => writerow row ++ written) EmptyString rows.

(** A field that is written as it is. *)
Definition plain_field (field : string) : bool :=
  PyStr.all_chars (fun c => negb (special c)) field.

End CsvWriter.

(** [AnkiCard.write_as_tsv]: the text the writer writes. *)
Definition card_write_as_tsv (card : AnkiCard) : string :=
  let content := as_str_list card in
  CsvWriter.writerow content.

(** [AnkiDeck.write_as_tsv]: the text written to the stream; nothing is
    written when [write_header] raises. *)
Definition write_as_tsv (deck : AnkiDeck) : outcome string :=
  match write_header (deck_header deck) with
  | Raise e => Raise e
  | Return header_text =>
      Return (header_text
              ++ fold_right (fun card written => card_write_as_tsv card ++ written)
                   EmptyString (cards deck))
  end.

(** ** Rows and header lines

    Rows whose text does not start like a header line: the first field of
    the first row does not start with the header symbol. *)
Definition starts_content (rows : list (list string)) : bool :=
  match rows with
  | (String c _ :: _) :: _ => negb (Ascii.eqb c _ANKI_EXPORT_HEADER_LINE_SYMBOL)
  | _ => true
  end.

(** ** Flattened keyword arguments

    [**kwargs] maps a keyword to a sequence of arguments.  [kwargs] and
    [kwargs.values()] are iterated in the same order, the order of
    [kwargs_items]. *)

(** The truth value of an argument. *)
Definition value_truthy (v : value) : bool :=
  match v with
  | VStr (String _ _) => true
  | VStr EmptyString => false
  | VInt z => negb (Z.eqb z 0)
  | VNone => false
  end.

Definition kwargs_items (kwargs : gmap string (list value))
    : list (string * list value) :=
  map_to_list kwargs.

(** [itertools.zip_longest] with the fill value [fillvalue], on sequences:
    as many tuples as the longest sequence has items, none when there is no
    sequence. *)
Definition zip_longest (fillvalue : value) (iterables : list (list value))
    : list (list value) :=
  (fun i => (fun iterable => default fillvalue (iterable !! i)) <$> iterables)
  <$> seq 0 (max_list (length <$> iterables)).

(** [dict(pairs)]: a later pair replaces an earlier one on the same key. *)
Definition dict (pairs : list (string * value)) : gmap string value :=
  fold_left (fun m kv => <[kv.1 := kv.2]> m) pairs ∅.

(** [itertools.compress(data, selectors)], the selectors given by their
    truth values. *)
Fixpoint compress {A : Type} (data : list A) (selectors : list bool) : list A :=
  match data, selectors with
  | d :: data', s :: selectors' =>
      if s then d :: compress data' selectors' else compress data' selectors'
  | _, _ => []
  end.

(** [itertools.compress] on an iterator of selectors that is shared: the
    items kept, and the selectors left in the iterator once the data is
    exhausted.  An item of the data is taken before its selector. *)
Fixpoint compress_from {A : Type} (data : list A) (selectors : list bool)
    : list A * list bool :=
  match data with
  | [] => ([], selectors)
  | d :: data' =>
      match selectors with
      | [] => ([], [])
      | s :: selectors' =>
          let '(kept, rest) := compress_from data' selectors' in
          (if s then d :: kept else kept, rest)
      end
  end.

(** [map(itertools.compress, rows, itertools.repeat(selectors))], each row
    consumed before the next one is started. *)
Fixpoint map_compress_repeat {A : Type} (rows : list (list A))
    (selectors : list bool) : list (list A) :=
  match rows with
  | [] => []
  | row :: rows' =>
      let '(kept, rest) := compress_from row selectors in
      kept :: map_compress_repeat rows' rest
  end.

(** [generate_flattened_kwargs_fill_missing]: the dictionaries it yields. *)
Definition generate_flattened_kwargs_fill_missing (fillvalue : value)
    (kwargs : gmap string (list value)) : list (gmap string value) :=
  let keyword_argument_mappings :=
    zip (kwargs_items kwargs).*1
    <$> zip_longest fillvalue (kwargs_items kwargs).*2 in
  dict <$> keyword_argument_mappings.

(** [generate_flattened_kwargs_remove_falsy] *)
Definition generate_flattened_kwargs_remove_falsy
    (kwargs : gmap string (list value)) : list (gmap string value) :=
  let arguments := zip_longest VNone (kwargs_items kwargs).*2 in
  let falsy_filter := arguments in
  let keyword_argument_pairs := zip (kwargs_items kwargs).*1 <$> arguments in
  let filtered_pairs :=
    zip_with (fun data selectors => compress data (value_truthy <$> selectors))
      keyword_argument_pairs falsy_filter in
  dict <$> filtered_pairs.

(** [generate_flattened_kwargs_remove_sentinel] *)
Definition generate_flattened_kwargs_remove_sentinel (sentinel fillvalue : value)
    (kwargs : gmap string (list value)) : list (gmap string value) :=
  let arguments := zip_longest fillvalue (kwargs_items kwargs).*2 in
  let sentinel_filter := arguments in
  let keyword_argument_pairs := zip (kwargs_items kwargs).*1 <$> arguments in
  let sentinel_filter :=
    (fun argument => bool_decide (argument <> sentinel))
    <$> concat sentinel_filter in
  let filtered_keyword_argument_pairs :=
    map_compress_repeat keyword_argument_pairs sentinel_filter in
  dict <$> filtered_keyword_argument_pairs.

(** ** The collection of decks and the files it writes

    The regular files of the file system, by path, with their text.  Every
    directory of a path is taken to exist and to be writable, and nothing
    but regular files to exist, so that [os.path.isfile] is membership and
    an exclusive [open] fails on an existing file only. *)
Definition file_system : Type := gmap string string.

(** The exceptions of this layer, beside those of the decks. *)
Inductive error : Type :=
| Exn (e : exn)
| IndexError (message : string)
| FileExistsError (path : string)
| DecksNotWrittenException (last_deck_written : option nat).

(** [Gaggle.get_deck]: [self.decks[idx]], a negative index counted from the
    end. *)
Definition get_deck (decks : list AnkiDeck) (idx : Z) : error + AnkiDeck :=
  let i := if (idx <? 0)%Z then (idx + Z.of_nat (length decks))%Z else idx in
  if (i <? 0)%Z then inl (IndexError "list index out of range")
  else match decks !! Z.to_nat i with
       | Some deck => inr deck
       | None => inl (IndexError "list index out of range")
       end.

(** [_generate_unique_file_path] on arguments of any type.  A file name or
    an extension that is no [str] is formatted where it is used, and a file
    name that is no [str] is not the generic one; [os.path.join] raises on a
    destination that is no [str]. *)
Definition unique_file_path (files : gset string)
    (filename extension destination : value) : outcome string :=
  match destination with
  | VStr destination =>
      Return (_generate_unique_file_path files
                (if value_truthy filename then Some (format filename) else None)
                (format extension) destination)
  | VInt _ =>
      Raise (TypeError "expected str, bytes or os.PathLike object, not int")
  | VNone =>
      Raise (TypeError "expected str, bytes or os.PathLike object, not NoneType")
  end.

(** [Gaggle.write_deck_to_file]: the file system it leaves, and the
    exception it raises, if any.  The file is created when it is opened, and
    stays as it is when the body raises. *)
Definition write_deck_to_file (decks : list AnkiDeck) (deck : AnkiDeck + Z)
    (filename file_type destination extension : value) (fs : file_system)
    : file_system * option error :=
  match (match deck with
         | inr idx => get_deck decks idx
         | inl deck => inr deck
         end) with
  | inl e => (fs, Some e)
  | inr deck =>
      match unique_file_path (dom fs) filename extension destination with
      | Raise e => (fs, Some (Exn e))
      | Return file_path =>
          if bool_decide (file_path ∈ dom fs)
          then (fs, Some (FileExistsError file_path))
          else
            if bool_decide (file_type = VStr _ANKI_NOTESINPLAINTEXT_EXT)
            then
              match write_as_tsv deck with
              | Return written => (<[file_path := written]> fs, None)
              | Raise e => (<[file_path := EmptyString]> fs, Some (Exn e))
              end
            else
              (<[file_path := EmptyString]> fs,
               Some (Exn (ValueError
                 ("Failed to write Deck to file. Expected a valid "
                  ++ "file_type but instead got " ++ format file_type))))
      end
  end.

Definition write_deck_to_file_keywords : list string :=
  ["filename"; "file_type"; "destination"; "extension"].

(** [self.write_deck_to_file(deck, **flat_kwargs)]: every key has to name a
    parameter that is not bound yet. *)
Definition write_deck_to_file_call (decks : list AnkiDeck) (deck : AnkiDeck + Z)
    (flat_kwargs : gmap string value) (fs : file_system)
    : file_system * option error :=
  match filter (fun k => ¬ k ∈ write_deck_to_file_keywords)
          (elements (dom flat_kwargs)) with
  | k :: _ =>
      (fs,
       Some (Exn (TypeError
         (if bool_decide (k ∈ ["self"; "deck"])
          then "Gaggle.write_deck_to_file() got multiple values for argument '"
               ++ k ++ "'"
          else "Gaggle.write_deck_to_file() got an unexpected keyword argument '"
               ++ k ++ "'"))))
  | [] =>
      write_deck_to_file decks deck
        (default VNone (flat_kwargs !! "filename"))
        (default (VStr _ANKI_NOTESINPLAINTEXT_EXT) (flat_kwargs !! "file_type"))
        (default (VStr ".") (flat_kwargs !! "destination"))
        (default (VStr "") (flat_kwargs !! "extension"))
        fs
  end.

(** The loop of [write_all_decks_to_file] from the deck at [idx] on:
    [flat_kwargs] is what the generator has still to yield; the result is
    the file system and [last_written_deck_idx], or the exception of the
    write that raised. *)
Fixpoint write_decks_from (decks : list AnkiDeck) (idx : nat)
    (remaining : list AnkiDeck) (flat_kwargs : list (gmap string value))
    (last_written_deck_idx : option nat) (fs : file_system)
    : file_system * (error + option nat) :=
  match remaining with
  | [] => (fs, inr last_written_deck_idx)
  | deck :: remaining' =>
      let '(flat, flat_kwargs') :=
        match flat_kwargs with
        | [] => (∅, [])
        | flat :: flat_kwargs' => (flat, flat_kwargs')
        end in
      match write_deck_to_file_call decks (inl deck) flat fs with
      | (fs', Some e) => (fs', inl e)
      | (fs', None) =>
          write_decks_from decks (S idx) remaining' flat_kwargs' (Some idx) fs'
      end
  end.

(** [Gaggle.write_all_decks_to_file].  [fillvalue] is the keyword of that
    name among the keyword arguments, if there is one: the flattening takes
    it for its parameter; [kwargs] are the other keyword arguments the
    method has received (a keyword [self] does not reach it). *)
Definition write_all_decks_to_file (decks : list AnkiDeck)
    (fillvalue : option value) (kwargs : gmap string (list value))
    (fs : file_system) : file_system * option error :=
  if bool_decide ("sentinel" ∈ dom kwargs)
  then (fs,
        Some (Exn (TypeError
          ("gaggle.gaggle.generate_flattened_kwargs_remove_sentinel() got "
           ++ "multiple values for keyword argument 'sentinel'"))))
  else
    let flat_kwargs :=
      generate_flattened_kwargs_remove_sentinel (VStr "")
        (default VNone fillvalue) kwargs in
    match write_decks_from decks 0 decks flat_kwargs None fs with
    | (fs', inl e) => (fs', Some e)
    | (fs', inr last_written_deck_idx) =>
        if bool_decide
             ((fun i : nat => Z.of_nat i) <$> last_written_deck_idx
              <> Some (Z.of_nat (length decks) - 1)%Z)
        then (fs', Some (DecksNotWrittenException last_written_deck_idx))
        else (fs', None)
    end.

(** The path [_generate_unique_file_path] tries for a modified file name,
    and the file name modified by a tag. *)
Definition path_of (destination extension modified_filename : string) : string :=
  path_join destination (modified_filename ++ extension).

Definition tagged (filename : string) (tag : nat) : string :=
  filename ++ PyStr.str (Z.of_nat tag).

(** A [DuplicateWarning] whose replacement is [replacement]. *)
Definition replaces_by (replacement : string) (w : warning) : bool :=
  match w with
  | DuplicateWarning _ _ replacement_value =>
      String.eqb replacement_value replacement
  | _ => false
  end.

(** * Properties *)

(** ** Integers and strings *)

Section PyStrFacts.

Lemma digit_of_is_digit c d : PyStr.digit_of c = Some d -> PyStr.is_digit c = true.
Proof.
  destruct c as [[] [] [] [] [] [] [] []]; simpl; intros H;
    first [discriminate H | reflexivity].
Qed.

Lemma digits_string_of_uint (d : uint) (after_digit : bool) :
  d <> Nil \/ after_digit = true ->
  PyStr.digits after_digit (NilEmpty.string_of_uint d) = Some d.
Proof.
  revert after_digit.
  induction d; intros b Hb; simpl;
    try (rewrite IHd by (right; reflexivity); reflexivity).
  destruct Hb as [Hb | ->]; [contradiction | reflexivity].
Qed.

Lemma all_chars_app p s t :
  PyStr.all_chars p (s ++ t) = PyStr.all_chars p s && PyStr.all_chars p t.
Proof.
  induction s as [|c s IH]; simpl; [reflexivity|].
  rewrite IH. apply andb_assoc.
Qed.

Lemma all_chars_impl (p q : ascii -> bool) s :
  (forall c, p c = true -> q c = true) ->
  PyStr.all_chars p s = true -> PyStr.all_chars q s = true.
Proof.
  intros Hpq. induction s as [|c s IH]; simpl; [reflexivity|].
  intros [Hc Hs]%andb_prop. rewrite (Hpq _ Hc), (IH Hs). reflexivity.
Qed.

Lemma string_of_uint_chars d :
  PyStr.all_chars PyStr.is_digit (NilEmpty.string_of_uint d) = true.
Proof. induction d; simpl; auto. Qed.

Lemma str_chars z : PyStr.all_chars PyStr.int_char (PyStr.str z) = true.
Proof.
  assert (Hu : forall d, PyStr.all_chars PyStr.int_char (NilZero.string_of_uint d) = true).
  { intros d. destruct d; try reflexivity;
      apply all_chars_impl with (p := PyStr.is_digit);
      try apply (string_of_uint_chars (_ d));
      unfold PyStr.int_char; intros c ->; reflexivity. }
  unfold PyStr.str. destruct (Z.to_int z); simpl; [apply Hu|].
  apply Hu.
Qed.

Lemma lstrip_by_id p s :
  PyStr.all_chars (fun c => negb (p c)) s = true -> PyStr.lstrip_by p s = s.
Proof.
  destruct s as [|c s]; simpl; [reflexivity|].
  intros [Hc _]%andb_prop. apply negb_true_iff in Hc. rewrite Hc. reflexivity.
Qed.

Lemma rstrip_by_id p s :
  PyStr.all_chars (fun c => negb (p c)) s = true -> PyStr.rstrip_by p s = s.
Proof.
  induction s as [|c s IH]; simpl; [reflexivity|].
  intros [Hc Hs]%andb_prop. rewrite (IH Hs).
  apply negb_true_iff in Hc. rewrite Hc. destruct s; reflexivity.
Qed.

Lemma int_char_not_space c : PyStr.int_char c = true -> negb (PyStr.int_space c) = true.
Proof.
  destruct c as [[] [] [] [] [] [] [] []]; simpl; intros H;
    first [discriminate H | reflexivity].
Qed.

Lemma int_char_not_isspace c : PyStr.int_char c = true -> negb (PyStr.isspace c) = true.
Proof.
  destruct c as [[] [] [] [] [] [] [] []]; simpl; intros H;
    first [discriminate H | reflexivity].
Qed.

Lemma int_unsigned (d : uint) :
  d <> Nil ->
  PyStr.int (NilEmpty.string_of_uint d) = Some (Z.of_uint d).
Proof.
  intros Hd. unfold PyStr.int.
  assert (Hs : PyStr.all_chars (fun c => negb (PyStr.int_space c))
                 (NilEmpty.string_of_uint d) = true).
  { apply all_chars_impl with (p := PyStr.is_digit);
      [|apply string_of_uint_chars].
    intros c Hc. apply int_char_not_space. unfold PyStr.int_char. rewrite Hc.
    reflexivity. }
  rewrite (lstrip_by_id _ _ Hs), (rstrip_by_id _ _ Hs).
  pose proof (digits_string_of_uint d false (or_introl Hd)) as Hdig.
  destruct d; try contradiction; simpl in *; rewrite Hdig; reflexivity.
Qed.

(** [int(str(z)) == z] *)
Theorem int_str (z : Z) : PyStr.int (PyStr.str z) = Some z.
Proof.
  destruct z as [|p|p]; [reflexivity| |].
  - unfold PyStr.str. simpl Z.to_int. cbn [NilZero.string_of_int].
    pose proof (Unsigned.to_uint_nonnil p) as Hn.
    assert (Heq : NilZero.string_of_uint (Pos.to_uint p)
                  = NilEmpty.string_of_uint (Pos.to_uint p)).
    { destruct (Pos.to_uint p); [contradiction | reflexivity ..]. }
    rewrite Heq, int_unsigned by assumption.
    unfold Z.of_uint. rewrite Unsigned.of_to. reflexivity.
  - unfold PyStr.str. simpl Z.to_int. cbn [NilZero.string_of_int].
    pose proof (Unsigned.to_uint_nonnil p) as Hn.
    assert (Heq : NilZero.string_of_uint (Pos.to_uint p)
                  = NilEmpty.string_of_uint (Pos.to_uint p)).
    { destruct (Pos.to_uint p); [contradiction | reflexivity ..]. }
    rewrite Heq. unfold PyStr.int.
    assert (Hs : PyStr.all_chars (fun c => negb (PyStr.int_space c))
                   (String "-" (NilEmpty.string_of_uint (Pos.to_uint p))) = true).
    { simpl. apply all_chars_impl with (p := PyStr.is_digit);
        [|apply string_of_uint_chars].
      intros c Hc. apply int_char_not_space. unfold PyStr.int_char. rewrite Hc.
      reflexivity. }
    rewrite (lstrip_by_id _ _ Hs), (rstrip_by_id _ _ Hs).
    rewrite (digits_string_of_uint _ false (or_introl Hn)). simpl.
    unfold Z.of_uint. rewrite Unsigned.of_to. reflexivity.
Qed.

Lemma str_inj (a b : Z) : PyStr.str a = PyStr.str b -> a = b.
Proof.
  intros H. pose proof (int_str a) as Ha. rewrite H, int_str in Ha.
  congruence.
Qed.

Lemma default_name_inj (i j : nat) : default_name i = default_name j -> i = j.
Proof.
  unfold default_name. intros H. simpl in H.
  injection H as H. apply str_inj in H. lia.
Qed.

Lemma default_name_not_reserved (i : nat) : default_name i ∉ reserved_name_set.
Proof.
  unfold reserved_name_set, reserved_names, default_name.
  rewrite elem_of_list_to_set. rewrite !elem_of_cons, elem_of_nil.
  simpl. intros [H|[H|[H|[H|[]]]]]; discriminate H.
Qed.

End PyStrFacts.

(** ** The field-name resolver *)

#[local] Arguments default_name : simpl never.

Section ResolverSteps.

Variable reserved : gmap Z string.

Lemma names_of_capture recorded g :
  names_of (capture_and_raise_warnings recorded g) = names_of g.
Proof.
  revert recorded. induction g as [ws|ws e|ws n rest IH]; intros recorded;
    simpl; [reflexivity | reflexivity | by rewrite IH].
Qed.

Lemma raised_capture recorded g :
  raised (capture_and_raise_warnings recorded g) = raised g.
Proof.
  revert recorded. induction g as [ws|ws e|ws n rest IH]; intros recorded;
    simpl; [reflexivity | reflexivity | by rewrite IH].
Qed.

Lemma warnings_of_capture recorded g :
  warnings_of (capture_and_raise_warnings recorded g)
  = match raised g with
    | None => (recorded ++ warnings_of g)%list
    | Some _ => []
    end.
Proof.
  revert recorded. induction g as [ws|ws e|ws n rest IH]; intros recorded;
    simpl; [reflexivity | reflexivity |].
  rewrite IH. destruct (raised rest); [reflexivity|].
  by rewrite app_assoc.
Qed.

(** The field values are used for their number only. *)
Lemma generate_from_length (fields1 fields2 : list string) :
  length fields1 = length fields2 ->
  forall count field_names seen,
    generate_from count field_names fields1 reserved seen
    = generate_from count field_names fields2 reserved seen.
Proof.
  revert fields2.
  induction fields1 as [|f1 fields1 IH]; intros [|f2 fields2] Hlen;
    try discriminate Hlen; [reflexivity|].
  injection Hlen as Hlen. intros count field_names seen. simpl.
  destruct (reserved !! Z.of_nat count);
    [destruct (_ && _); [reflexivity | by rewrite (IH fields2 Hlen)]|].
  destruct (in_seen (head field_names) seen).
  - destruct (bool_decide _); [reflexivity | by rewrite (IH fields2 Hlen)].
  - destruct (head field_names) as [[|c name]|];
      try (destruct (bool_decide _); [reflexivity|]);
      by rewrite (IH fields2 Hlen).
Qed.

(** A slot with a reserved name: the name is yielded, unless the candidate
    is non-empty and another name. *)
Lemma generate_from_reserved count field_names field fields seen reserved_name :
  reserved !! Z.of_nat count = Some reserved_name ->
  generate_from count field_names (field :: fields) reserved seen
  = if truthy (head field_names)
       && negb (bool_decide (head field_names = Some reserved_name))
    then Fail [] mismatch_attribute_error
    else Yield [] reserved_name
           (generate_from (S count) (tail field_names) fields reserved seen).
Proof. intros H. simpl. rewrite H. reflexivity. Qed.

(** A slot with a reserved name whose candidate is non-empty and another
    name. *)
Lemma generate_from_mismatch count name field_names field fields seen
    reserved_name :
  reserved !! Z.of_nat count = Some reserved_name ->
  name <> "" -> name <> reserved_name ->
  generate_from count (name :: field_names) (field :: fields) reserved seen
  = Fail [] mismatch_attribute_error.
Proof.
  intros H Hne Hdiff. rewrite (generate_from_reserved _ _ _ _ _ _ H). simpl.
  rewrite bool_decide_eq_false_2 by congruence.
  destruct name; [contradiction | reflexivity].
Qed.

(** A slot without a reserved name whose candidate is used. *)
Lemma generate_from_candidate count name field_names field fields seen :
  reserved !! Z.of_nat count = None ->
  name <> "" -> name ∉ seen ->
  generate_from count (name :: field_names) (field :: fields) reserved seen
  = Yield [] name
      (generate_from (S count) field_names fields reserved ({[name]} ∪ seen)).
Proof.
  intros H Hne Hseen. simpl. rewrite H.
  rewrite (bool_decide_eq_false_2 _ Hseen).
  destruct name; [contradiction | reflexivity].
Qed.

(** A slot without a reserved name whose candidate is absent, empty or
    already seen: the default name of the slot, or the error. *)
Lemma generate_from_default count field_names field fields seen :
  reserved !! Z.of_nat count = None ->
  truthy (head field_names) = false \/ in_seen (head field_names) seen = true ->
  generate_from count field_names (field :: fields) reserved seen
  = let ws :=
      if in_seen (head field_names) seen
      then [DuplicateWarning "field name" (default "" (head field_names))
              (default_name count)]
      else [] in
    if bool_decide (default_name count ∈ seen)
    then Fail ws (default_name_error count)
    else Yield ws (default_name count)
           (generate_from (S count) (tail field_names) fields reserved
              ({[default_name count]} ∪ seen)).
Proof.
  intros H Hname. simpl. rewrite H.
  destruct (in_seen (head field_names) seen) eqn:Hin; [reflexivity|].
  destruct Hname as [Hname | Hname]; [|discriminate Hname].
  destruct (head field_names) as [[|c name]|]; simpl in *;
    first [discriminate Hname | reflexivity].
Qed.

(** The fields are exhausted while a candidate remains. *)
Lemma generate_from_leftover count name field_names seen :
  generate_from count (name :: field_names) [] reserved seen
  = Fail [] leftover_type_error.
Proof. reflexivity. Qed.

Lemma generate_from_done count seen :
  generate_from count [] [] reserved seen = Stop [].
Proof. reflexivity. Qed.

(** The name of slot [i], by position. *)
Lemma slot_generate_from (i : nat) :
  forall count field_names fields seen ws n,
    slot i (generate_from count field_names fields reserved seen) = Some (ws, n) ->
    match reserved !! Z.of_nat (count + i) with
    | Some reserved_name => n = reserved_name
    | None =>
        match field_names !! i with
        | Some (String _ _ as candidate) =>
            n = candidate \/ n = default_name (count + i)
        | _ => n = default_name (count + i)
        end
    end.
Proof.
  induction i as [|i IH]; intros count field_names fields seen ws n Hslot.
  - rewrite Nat.add_0_r.
    destruct fields as [|field fields].
    { destruct field_names; discriminate Hslot. }
    destruct (reserved !! Z.of_nat count) as [r|] eqn:Hr.
    { rewrite (generate_from_reserved _ _ _ _ _ _ Hr) in Hslot.
      destruct (_ && _); simpl in Hslot; congruence. }
    destruct (decide (truthy (head field_names) = false
                      \/ in_seen (head field_names) seen = true)) as [Hd|Hd].
    + rewrite (generate_from_default _ _ _ _ _ Hr Hd) in Hslot.
      cbv zeta in Hslot.
      destruct (bool_decide (default_name count ∈ seen)); [discriminate Hslot|].
      simpl in Hslot. injection Hslot as _ <-.
      destruct field_names as [|[|c cand] ?]; simpl; auto.
    + destruct field_names as [|name field_names];
        [exfalso; apply Hd; left; reflexivity|].
      assert (name <> "") by (intros ->; apply Hd; left; reflexivity).
      assert (name ∉ seen).
      { intros Hin. apply Hd. right. simpl. by apply bool_decide_eq_true_2. }
      rewrite generate_from_candidate in Hslot by assumption.
      simpl in Hslot. injection Hslot as _ <-.
      destruct name; [contradiction | simpl; auto].
  - replace (count + S i)%nat with (S count + i)%nat by lia.
    destruct fields as [|field fields].
    { destruct field_names; discriminate Hslot. }
    replace (field_names !! S i) with (tail field_names !! i)
      by (destruct field_names; reflexivity).
    destruct (reserved !! Z.of_nat count) as [r|] eqn:Hr.
    { rewrite (generate_from_reserved _ _ _ _ _ _ Hr) in Hslot.
      destruct (_ && _); simpl in Hslot; [discriminate Hslot|].
      exact (IH _ _ _ _ _ _ Hslot). }
    destruct (decide (truthy (head field_names) = false
                      \/ in_seen (head field_names) seen = true)) as [Hd|Hd].
    + rewrite (generate_from_default _ _ _ _ _ Hr Hd) in Hslot.
      cbv zeta in Hslot.
      destruct (bool_decide (default_name count ∈ seen)); [discriminate Hslot|].
      simpl in Hslot. exact (IH _ _ _ _ _ _ Hslot).
    + destruct field_names as [|name field_names];
        [exfalso; apply Hd; left; reflexivity|].
      assert (name <> "") by (intros ->; apply Hd; left; reflexivity).
      assert (name ∉ seen).
      { intros Hin. apply Hd. right. simpl. by apply bool_decide_eq_true_2. }
      rewrite generate_from_candidate in Hslot by assumption.
      simpl in Hslot. exact (IH _ _ _ _ _ _ Hslot).
Qed.

End ResolverSteps.

(** ** Leftover names *)

(** C7, on the code.  When the fields are exhausted and a candidate
    remains, the call [from_values([name], field_names, context_message=...,
    leftover_name=...)] binds [context_message] twice and raises a
    [TypeError]: no warning is emitted, and the exception leaves the
    resolver, the card and the deck parse.  The candidates "A", "B", "C" for
    two fields yield "A" and "B" and then raise. *)
Theorem leftover_names_raise :
  (forall (count : nat) (name : string) (field_names : list string)
          (reserved : gmap Z string) (seen : gset string),
      generate_from count (name :: field_names) [] reserved seen
      = Fail [] leftover_type_error)
  /\ (forall f0 f1 : string,
        _generate_unique_field_names ["A"; "B"; "C"] [f0; f1] ∅ reserved_name_set
        = Yield [] "A" (Yield [] "B" (Fail [] leftover_type_error))
        /\ AnkiCard_init [f0; f1] (Some ["A"; "B"; "C"]) (VStr "false")
             VNone VNone VNone VNone
           = ([], Raise leftover_type_error)).
Proof.
  split; [reflexivity|].
  intros f0 f1. split; vm_compute; reflexivity.
Qed.

(** What [from_values] returns for a call that binds: nothing, its body
    being [pass]; the sibling [from_iterator] builds the warning. *)
Example from_values_binds_to_none :
  Exceptions.from_values [Exceptions.AStr "More field names than fields";
                          Exceptions.AList ["C"]]
    [("leftover_name", Exceptions.AStr "field names")] = Return None
  /\ Exceptions.from_iterator ["C"; "D"] "More field names than fields"
       "field names" " "
     = LeftoverArgumentWarning "More field names than fields" "C D" "field names".
Proof. split; reflexivity. Qed.

(** ** Uniqueness of the resolved names *)

Section ResolverInvariants.

Variable reserved : gmap Z string.

(** The four ways one iteration over a field can go. *)
Lemma generate_from_cons count field_names field fields seen :
  (exists ws,
      reserved !! Z.of_nat count = None
      /\ default_name count ∈ seen
      /\ generate_from count field_names (field :: fields) reserved seen
         = Fail ws (default_name_error count))
  \/ (exists ws reserved_name,
         reserved !! Z.of_nat count = Some reserved_name
         /\ generate_from count field_names (field :: fields) reserved seen
            = Yield ws reserved_name
                (generate_from (S count) (tail field_names) fields reserved seen))
  \/ (exists ws n,
         reserved !! Z.of_nat count = None
         /\ (n ∉ seen)
         /\ (n = default_name count \/ head field_names = Some n)
         /\ generate_from count field_names (field :: fields) reserved seen
            = Yield ws n
                (generate_from (S count) (tail field_names) fields reserved
                   ({[n]} ∪ seen)))
  \/ (exists reserved_name name,
         reserved !! Z.of_nat count = Some reserved_name
         /\ head field_names = Some name
         /\ name <> "" /\ name <> reserved_name
         /\ generate_from count field_names (field :: fields) reserved seen
            = Fail [] mismatch_attribute_error).
Proof.
  destruct (reserved !! Z.of_nat count) as [r|] eqn:Hr.
  { rewrite (generate_from_reserved _ _ _ _ _ _ _ Hr).
    destruct (truthy (head field_names)
              && negb (bool_decide (head field_names = Some r))) eqn:Hc.
    - right; right; right. apply andb_prop in Hc as [Ht Hd].
      apply negb_true_iff, bool_decide_eq_false in Hd.
      destruct (head field_names) as [[|c name]|]; try discriminate Ht.
      exists r, (String c name). repeat split; [done | congruence].
    - right; left. by eexists _, r. }
  destruct (decide (truthy (head field_names) = false
                    \/ in_seen (head field_names) seen = true)) as [Hd|Hd].
  - rewrite (generate_from_default _ _ _ _ _ _ Hr Hd). cbv zeta.
    destruct (decide (default_name count ∈ seen)) as [Hin|Hin].
    + left. rewrite (bool_decide_eq_true_2 _ Hin). eauto.
    + right; right; left. rewrite (bool_decide_eq_false_2 _ Hin).
      eexists _, _. repeat split; [exact Hin | by left].
  - destruct field_names as [|name field_names];
      [exfalso; apply Hd; left; reflexivity|].
    assert (name <> "") by (intros ->; apply Hd; left; reflexivity).
    assert (name ∉ seen).
    { intros Hin. apply Hd. right. simpl. by apply bool_decide_eq_true_2. }
    right; right; left. rewrite generate_from_candidate by assumption.
    eexists _, _. repeat split; [eassumption | by right].
Qed.

Lemma generate_from_nil count field_names seen :
  names_of (generate_from count field_names [] reserved seen) = [].
Proof. destruct field_names; reflexivity. Qed.

(** A run that does not raise names every field. *)
Lemma names_of_length (fields : list string) :
  forall count field_names seen,
    raised (generate_from count field_names fields reserved seen) = None ->
    length (names_of (generate_from count field_names fields reserved seen))
    = length fields.
Proof.
  induction fields as [|field fields IH]; intros count field_names seen.
  { by rewrite generate_from_nil. }
  destruct (generate_from_cons count field_names field fields seen)
    as [(ws & _ & _ & ->) | [(ws & r & _ & ->)
        | [(ws & n & _ & _ & _ & ->) | (r & n & _ & _ & _ & _ & ->)]]];
    simpl; [discriminate | | | discriminate]; intros H; by rewrite IH.
Qed.

(** How a run can raise: at a slot whose default name is claimed, with
    candidates left over, or at a reserved slot whose candidate is non-empty
    and another name. *)
Lemma raised_cases (fields : list string) :
  forall count field_names seen e,
    raised (generate_from count field_names fields reserved seen) = Some e ->
    (exists k, (count <= k < count + length fields)%nat
               /\ e = default_name_error k)
    \/ ((length fields < length field_names)%nat /\ e = leftover_type_error)
    \/ (exists i reserved_name name,
           (i < length fields)%nat
           /\ reserved !! Z.of_nat (count + i) = Some reserved_name
           /\ field_names !! i = Some name
           /\ name <> "" /\ name <> reserved_name
           /\ e = mismatch_attribute_error).
Proof.
  induction fields as [|field fields IH]; intros count field_names seen e.
  { destruct field_names; simpl; [discriminate|].
    intros [= <-]. right; left. split; [lia | reflexivity]. }
  assert (Hlen : (length fields < length (tail field_names))%nat ->
                 (length (field :: fields) < length field_names)%nat).
  { destruct field_names; simpl; lia. }
  assert (Hrest : forall e,
            raised (generate_from (S count) (tail field_names) fields reserved
                      seen) = Some e \/
            (exists n, raised (generate_from (S count) (tail field_names) fields
                                 reserved ({[n]} ∪ seen)) = Some e) ->
            (exists k, (count <= k < count + length (field :: fields))%nat
                       /\ e = default_name_error k)
            \/ ((length (field :: fields) < length field_names)%nat
                /\ e = leftover_type_error)
            \/ (exists i reserved_name name,
                   (i < length (field :: fields))%nat
                   /\ reserved !! Z.of_nat (count + i) = Some reserved_name
                   /\ field_names !! i = Some name
                   /\ name <> "" /\ name <> reserved_name
                   /\ e = mismatch_attribute_error)).
  { intros e' H.
    assert (H' : exists seen', raised (generate_from (S count) (tail field_names)
                                        fields reserved seen') = Some e')
      by (destruct H as [H | [n H]]; eauto).
    destruct H' as [seen' H'].
    apply IH in H' as [(k & Hk & ->) | [[Hl ->] | (i & r & name & Hi & Hr & Hn & Hne & Hd & ->)]].
    - left. exists k. split; [simpl; lia | reflexivity].
    - right; left. auto.
    - right; right. exists (S i), r, name. simpl.
      replace (count + S i)%nat with (S count + i)%nat by lia.
      repeat split; try done; [lia|].
      destruct field_names; [discriminate Hn | exact Hn]. }
  destruct (generate_from_cons count field_names field fields seen)
    as [(ws & _ & Hin & ->) | [(ws & r & _ & ->)
        | [(ws & n & _ & _ & Hn & ->) | (r & n & Hr & Hh & Hne & Hd & ->)]]];
    simpl.
  - intros [= <-]. left. exists count. split; [lia | reflexivity].
  - intros H. apply Hrest. by left.
  - intros H. apply Hrest. right. eauto.
  - intros [= <-]. right; right. exists 0%nat, r, n.
    rewrite Nat.add_0_r. repeat split; try done; [lia|].
    destruct field_names; [discriminate Hh | simpl in Hh; simpl; exact Hh].
Qed.

(** A run raises nothing when the candidates are no more than the fields,
    none of them is the default name of a slot, and none is, at a reserved
    slot, a non-empty name other than the reserved one. *)
Lemma raised_none (candidates : list string) (last : nat) (fields : list string) :
  (forall k, (k < last)%nat -> default_name k ∉ candidates) ->
  forall count field_names seen,
    (count + length fields = last)%nat ->
    (length field_names <= length fields)%nat ->
    field_names ⊆ candidates ->
    (forall i r name, reserved !! Z.of_nat (count + i) = Some r ->
       field_names !! i = Some name -> name = "" \/ name = r) ->
    (forall x, x ∈ seen ->
       x ∈ reserved_name_set \/ x ∈ candidates
       \/ exists j, (j < count)%nat /\ x = default_name j) ->
    raised (generate_from count field_names fields reserved seen) = None.
Proof.
  intros Hcand.
  induction fields as [|field fields IH];
    intros count field_names seen Hlast Hlen Hsub Hagree Hseen.
  { destruct field_names; [reflexivity | simpl in Hlen; lia]. }
  assert (Hagree' : forall i r name,
            reserved !! Z.of_nat (S count + i) = Some r ->
            tail field_names !! i = Some name -> name = "" \/ name = r).
  { intros i r name Hr Hn. apply (Hagree (S i) r name).
    - by replace (count + S i)%nat with (S count + i)%nat by lia.
    - destruct field_names; [discriminate Hn | exact Hn]. }
  assert (Htail : tail field_names ⊆ candidates).
  { destruct field_names; [exact Hsub|]. simpl. set_solver. }
  assert (Hlen' : (length (tail field_names) <= length fields)%nat).
  { destruct field_names; simpl in *; lia. }
  simpl in Hlast.
  destruct (generate_from_cons count field_names field fields seen)
    as [(ws & _ & Hin & ->) | [(ws & r & _ & ->)
        | [(ws & n & _ & _ & Hn & ->) | (r & n & Hr & Hh & Hne & Hd & _)]]];
    simpl.
  - exfalso. destruct (Hseen _ Hin) as [H | [H | (j & Hj & H)]].
    + exact (default_name_not_reserved _ H).
    + apply (Hcand count); [lia | exact H].
    + apply default_name_inj in H. lia.
  - apply IH; try assumption; [lia|].
    intros x Hx. destruct (Hseen x Hx) as [H | [H | (j & Hj & H)]]; auto.
    right; right. exists j. split; [lia | exact H].
  - apply IH; try assumption; [lia|].
    intros x [Hx | Hx]%elem_of_union.
    + apply elem_of_singleton in Hx. subst x.
      destruct Hn as [-> | Hn].
      * right; right. exists count. split; [lia | reflexivity].
      * right; left. apply Hsub.
        destruct field_names; simplify_eq/=. by left.
    + destruct (Hseen x Hx) as [H | [H | (j & Hj & H)]]; auto.
      right; right. exists j. split; [lia | exact H].
  - exfalso. destruct (Hagree 0%nat r n) as [? | ?]; try done.
    + by rewrite Nat.add_0_r.
    + destruct field_names; [discriminate Hh | exact Hh].
Qed.

Hypothesis reserved_values :
  forall i r, reserved !! i = Some r -> r ∈ reserved_name_set.
Hypothesis reserved_inj :
  forall i j r, reserved !! i = Some r -> reserved !! j = Some r -> i = j.

(** Every name a run yields is new to [seen_names] or is the reserved
    name of a later slot, and no name is yielded twice. *)
Lemma names_of_fresh (fields : list string) :
  forall count field_names seen,
    reserved_name_set ⊆ seen ->
    Forall (fun n => n ∉ seen
                     \/ exists i, (count <= i)%nat
                                  /\ reserved !! Z.of_nat i = Some n)
      (names_of (generate_from count field_names fields reserved seen))
    /\ NoDup (names_of (generate_from count field_names fields reserved seen)).
Proof.
  induction fields as [|field fields IH]; intros count field_names seen Hseen.
  { rewrite generate_from_nil. split; constructor. }
  destruct (generate_from_cons count field_names field fields seen)
    as [(ws & _ & _ & ->) | [(ws & r & Hr & ->)
        | [(ws & n & _ & Hn & _ & ->) | (r & n & _ & _ & _ & _ & ->)]]];
    simpl; [| | | split; constructor].
  - split; constructor.
  - destruct (IH (S count) (tail field_names) seen Hseen) as [Hall Hnd].
    split.
    + constructor; [right; exists count; split; [lia | exact Hr]|].
      eapply Forall_impl; [exact Hall|]. simpl.
      intros m [Hm | (i & Hi & Hm)]; [by left | right].
      exists i. split; [lia | exact Hm].
    + constructor; [|exact Hnd].
      intros Hin. rewrite Forall_forall in Hall.
      destruct (Hall _ Hin) as [Hm | (i & Hi & Hm)].
      * apply Hm, Hseen, (reserved_values _ _ Hr).
      * pose proof (reserved_inj _ _ _ Hr Hm). lia.
  - destruct (IH (S count) (tail field_names) ({[n]} ∪ seen)) as [Hall Hnd];
      [set_solver|].
    split.
    + constructor; [by left|].
      eapply Forall_impl; [exact Hall|]. simpl.
      intros m [Hm | (i & Hi & Hm)]; [left; set_solver | right].
      exists i. split; [lia | exact Hm].
    + constructor; [|exact Hnd].
      intros Hin. rewrite Forall_forall in Hall.
      destruct (Hall _ Hin) as [Hm | (i & Hi & Hm)].
      * set_solver.
      * apply Hn, Hseen, (reserved_values _ _ Hm).
Qed.

End ResolverInvariants.

(** The mapping [AnkiCard.__init__] builds sends different indexes to
    different names, all of them reserved. *)
Lemma reserved_mapping_inv (names : list string) :
  forall (indexes : list value) (m : gmap Z string) (claimed : list string),
    NoDup names ->
    (forall n, n ∈ names -> n ∉ claimed) ->
    (forall i r, m !! i = Some r -> r ∈ claimed) ->
    (forall i j r, m !! i = Some r -> m !! j = Some r -> i = j) ->
    let m' :=
      fold_left
        (fun m '(index, name) =>
           match index with
           | VInt z => <[z := name]> m
           | _ => m
           end)
        (zip indexes names) m in
    (forall i r, m' !! i = Some r -> r ∈ (claimed ++ names)%list)
    /\ (forall i j r, m' !! i = Some r -> m' !! j = Some r -> i = j).
Proof.
  induction names as [|name names IH]; intros indexes m claimed Hnd Hnew Hval Hinj.
  { replace (zip indexes []) with (@nil (value * string))
      by (destruct indexes; reflexivity).
    simpl. rewrite app_nil_r. auto. }
  destruct indexes as [|index indexes].
  { simpl. split; [|exact Hinj].
    intros i r H. apply elem_of_app. left. eauto. }
  apply NoDup_cons in Hnd as [Hname Hnd]. simpl.
  replace (claimed ++ name :: names)%list with ((claimed ++ [name]) ++ names)%list
    by (rewrite <- app_assoc; reflexivity).
  apply IH; [exact Hnd | | |].
  - intros n Hn [Hc | Hc%list_elem_of_singleton]%elem_of_app.
    + apply (Hnew n); [by right | exact Hc].
    + subst n. exact (Hname Hn).
  - intros i r H. apply elem_of_app.
    destruct index as [s|z|]; [left; eauto | | left; eauto].
    destruct (decide (z = i)) as [->|Hne].
    + rewrite lookup_insert_eq in H. right. apply list_elem_of_singleton. congruence.
    + rewrite lookup_insert_ne in H by exact Hne. eauto.
  - destruct index as [s|z|]; try exact Hinj.
    intros i j r Hi Hj.
    assert (Hfresh : forall k, m !! k = Some name -> False).
    { intros k Hk. apply (Hnew name); [by left | eauto]. }
    destruct (decide (z = i)) as [Hi'|Hi'], (decide (z = j)) as [Hj'|Hj'];
      subst; simplify_map_eq.
    + reflexivity.
    + exfalso. by apply (Hfresh j).
    + exfalso. by apply (Hfresh i).
    + eauto.
Qed.

Lemma NoDup_reserved_names : NoDup reserved_names.
Proof. apply (bool_decide_unpack (NoDup reserved_names)). vm_compute. exact I. Qed.

Lemma reserved_mapping_values (indexes : list value) (i : Z) (r : string) :
  reserved_mapping indexes reserved_names !! i = Some r -> r ∈ reserved_name_set.
Proof.
  intros H. unfold reserved_name_set. rewrite elem_of_list_to_set.
  change reserved_names with ([] ++ reserved_names)%list.
  eapply (reserved_mapping_inv reserved_names indexes ∅ []); [| | | |exact H].
  - exact NoDup_reserved_names.
  - intros n _ Hn. by apply elem_of_nil in Hn.
  - intros k x Hk. by rewrite lookup_empty in Hk.
  - intros k j x Hk. by rewrite lookup_empty in Hk.
Qed.

Lemma reserved_mapping_inj (indexes : list value) (i j : Z) (r : string) :
  reserved_mapping indexes reserved_names !! i = Some r ->
  reserved_mapping indexes reserved_names !! j = Some r -> i = j.
Proof.
  eapply (reserved_mapping_inv reserved_names indexes ∅ []).
  - exact NoDup_reserved_names.
  - intros n _ Hn. by apply elem_of_nil in Hn.
  - intros k x Hk. by rewrite lookup_empty in Hk.
  - intros k l x Hk. by rewrite lookup_empty in Hk.
Qed.

(** ** Reserved names and duplicates *)

Section ResolverSlots.

Variable reserved : gmap Z string.

(** One iteration over a field, with the warnings it emits: none, or the
    one [DuplicateWarning] of the slot.  After a slot without a reserved
    name its candidate, when not empty, is in [seen_names]. *)
Lemma generate_from_step count field_names field fields seen :
  let g := generate_from count field_names (field :: fields) reserved seen in
  (exists ws e,
      g = Fail ws e
      /\ (ws = [] \/ exists x, ws = [DuplicateWarning "field name" x
                                       (default_name count)]))
  \/ (exists ws n seen',
         g = Yield ws n
               (generate_from (S count) (tail field_names) fields reserved seen')
         /\ seen ⊆ seen'
         /\ (ws = [] \/ exists x, ws = [DuplicateWarning "field name" x
                                          (default_name count)])
         /\ (reserved !! Z.of_nat count = None ->
             forall x, head field_names = Some x -> x <> "" -> x ∈ seen')).
Proof.
  intros g. subst g.
  destruct (reserved !! Z.of_nat count) as [r|] eqn:Hr.
  { rewrite (generate_from_reserved _ _ _ _ _ _ _ Hr).
    destruct (_ && _); [left; eauto|].
    right. eexists [], r, seen. split; [reflexivity|]. split; [done|].
    split; [by left | discriminate]. }
  destruct (decide (truthy (head field_names) = false
                    \/ in_seen (head field_names) seen = true)) as [Hd|Hd].
  - rewrite (generate_from_default _ _ _ _ _ _ Hr Hd). cbv zeta.
    assert (Hws : (if in_seen (head field_names) seen
                   then [DuplicateWarning "field name"
                           (default "" (head field_names)) (default_name count)]
                   else []) = []
                  \/ exists x, (if in_seen (head field_names) seen
                                then [DuplicateWarning "field name"
                                        (default "" (head field_names))
                                        (default_name count)]
                                else [])
                               = [DuplicateWarning "field name" x
                                    (default_name count)])
      by (destruct (in_seen _ _); eauto).
    destruct (bool_decide (default_name count ∈ seen)); [left; eauto|].
    right. eexists _, _, _. split; [reflexivity|].
    split; [set_solver|]. split; [exact Hws|].
    intros _ x Hx Hne. rewrite Hx in Hd. destruct Hd as [Hd | Hd].
    + destruct x; [contradiction | discriminate Hd].
    + simpl in Hd. apply bool_decide_eq_true in Hd. set_solver.
  - destruct field_names as [|name field_names];
      [exfalso; apply Hd; left; reflexivity|].
    assert (name <> "") by (intros ->; apply Hd; left; reflexivity).
    assert (name ∉ seen).
    { intros Hin. apply Hd. right. simpl. by apply bool_decide_eq_true_2. }
    rewrite generate_from_candidate by assumption.
    right. eexists [], name, _. split; [reflexivity|].
    split; [set_solver|]. split; [by left|].
    intros _ x [= <-] _. set_solver.
Qed.

(** A slot with a reserved name whose candidate is non-empty and another
    name is never passed: the run raises there, or before. *)
Lemma mismatch_slot_raises (i : nat) :
  forall count field_names fields seen name reserved_name,
    (i < length fields)%nat ->
    reserved !! Z.of_nat (count + i) = Some reserved_name ->
    field_names !! i = Some name ->
    name <> "" -> name <> reserved_name ->
    let g := generate_from count field_names fields reserved seen in
    exists e, raised g = Some e
              /\ (length (names_of g) <= i)%nat
              /\ (length (names_of g) = i -> e = mismatch_attribute_error).
Proof.
  induction i as [|i IH];
    intros count field_names [|field fields] seen name r Hi Hr Hname Hne Hdiff;
    simpl in Hi; try lia.
  - destruct field_names as [|name' field_names]; [discriminate Hname|].
    injection Hname as ->. rewrite Nat.add_0_r in Hr.
    rewrite (generate_from_mismatch _ _ _ _ _ _ _ _ Hr Hne Hdiff).
    exists mismatch_attribute_error. simpl. auto.
  - destruct field_names as [|name' field_names]; [discriminate Hname|].
    simpl in Hname.
    replace (count + S i)%nat with (S count + i)%nat in Hr by lia.
    destruct (generate_from_step count (name' :: field_names) field fields seen)
      as [(ws & e & -> & _) | (ws & n & seen' & -> & _)].
    + exists e. simpl. split; [reflexivity|]. split; [lia | discriminate].
    + destruct (IH (S count) field_names fields seen' name r)
        as (e & He & Hle & Hlast); try done; [lia|].
      exists e. simpl. split; [exact He|]. split; [lia|].
      intros [= H]. by apply Hlast.
Qed.

Lemma replaces_by_default (x : string) (i j : nat) :
  replaces_by (default_name i) (DuplicateWarning "field name" x (default_name j))
  = bool_decide (i = j).
Proof.
  unfold replaces_by.
  destruct (String.eqb_spec (default_name j) (default_name i)) as [H|H].
  - apply default_name_inj in H. subst j. by rewrite bool_decide_eq_true_2.
  - rewrite bool_decide_eq_false_2; [reflexivity|]. by intros ->.
Qed.

(** The slots from [count] on emit no warning of an earlier slot. *)
Lemma warnings_of_later_slots (k : nat) (fields : list string) :
  forall count field_names seen,
    (k < count)%nat ->
    List.filter (replaces_by (default_name k))
      (warnings_of (generate_from count field_names fields reserved seen)) = [].
Proof.
  induction fields as [|field fields IH]; intros count field_names seen Hk.
  { destruct field_names; reflexivity. }
  destruct (generate_from_step count field_names field fields seen)
    as [(ws & e & -> & Hws) | (ws & n & seen' & -> & _ & Hws & _)]; simpl.
  - destruct Hws as [-> | [x ->]]; [reflexivity|].
    cbn [List.filter]. rewrite replaces_by_default.
    by rewrite bool_decide_eq_false_2 by lia.
  - rewrite List.filter_app, IH by lia.
    destruct Hws as [-> | [x ->]]; [reflexivity|].
    cbn [List.filter]. rewrite replaces_by_default.
    by rewrite bool_decide_eq_false_2 by lia.
Qed.

(** A slot without a reserved name whose candidate is in [seen_names] when
    the slot is reached: in a run that does not raise the slot yields its
    default name, and one warning of the run is about that slot. *)
Lemma duplicate_slot_replaced (i : nat) :
  forall count field_names fields seen name,
    (i < length fields)%nat ->
    reserved !! Z.of_nat (count + i) = None ->
    field_names !! i = Some name ->
    name ∈ seen
    \/ (name <> ""
        /\ exists j, (j < i)%nat /\ field_names !! j = Some name
                     /\ reserved !! Z.of_nat (count + j) = None) ->
    let g := generate_from count field_names fields reserved seen in
    raised g = None ->
    names_of g !! i = Some (default_name (count + i))
    /\ List.filter (replaces_by (default_name (count + i))) (warnings_of g)
       = [DuplicateWarning "field name" name (default_name (count + i))].
Proof.
  induction i as [|i IH];
    intros count field_names [|field fields] seen name Hi Hr Hname Hseen;
    simpl in Hi; try lia;
    (destruct field_names as [|name' field_names]; [discriminate Hname|]).
  - injection Hname as ->. rewrite Nat.add_0_r in *.
    destruct Hseen as [Hin | (_ & j & Hj & _)]; [|lia].
    rewrite generate_from_default; [|exact Hr | right; simpl; by apply bool_decide_eq_true_2].
    cbv zeta. simpl in_seen. rewrite (bool_decide_eq_true_2 _ Hin).
    case_bool_decide; [discriminate|]. simpl. intros Hraised.
    split; [reflexivity|].
    rewrite String.eqb_refl. f_equal.
    apply warnings_of_later_slots. lia.
  - simpl in Hname.
    replace (count + S i)%nat with (S count + i)%nat in * by lia.
    destruct (generate_from_step count (name' :: field_names) field fields seen)
      as [(ws & e & -> & _) | (ws & n & seen' & -> & Hsub & Hws & Hadd)];
      [discriminate|].
    simpl. intros Hraised.
    destruct (IH (S count) field_names fields seen' name) as [Hn Hw];
      try done; [lia | |].
    { destruct Hseen as [Hin | (Hne & [|j] & Hj & Hjn & Hjr)].
      - left. set_solver.
      - left. rewrite Nat.add_0_r in Hjr. injection Hjn as ->.
        by apply (Hadd Hjr name).
      - right. split; [exact Hne|]. exists j.
        replace (S count + j)%nat with (count + S j)%nat by lia.
        split; [lia | done]. }
    split; [exact Hn|]. change (S (count + i))%nat with (S count + i)%nat.
    rewrite List.filter_app, Hw.
    destruct Hws as [-> | [x ->]]; [reflexivity|].
    cbn [List.filter]. rewrite replaces_by_default.
    by rewrite bool_decide_eq_false_2 by lia.
Qed.

End ResolverSlots.

(** C3, as stated, fails: the candidate "Field1" of slot 1 is in
    [seen_names], and it is not replaced by the default name of the slot,
    which is claimed too; the resolver raises, and its caller gets no
    warning. *)
Lemma duplicate_of_claimed_default_raises :
  generate_from 0 ["Field1"; "Field1"] ["a"; "b"] ∅ reserved_name_set
  = Yield [] "Field1"
      (Fail [DuplicateWarning "field name" "Field1" "Field1"]
         (ValueError
            "Index-associated generic name duplicated. Duplicated value: Field1"))
  /\ names_of (_generate_unique_field_names ["Field1"; "Field1"] ["a"; "b"]
                 ∅ reserved_name_set) = ["Field1"]
  /\ warnings_of (_generate_unique_field_names ["Field1"; "Field1"] ["a"; "b"]
                    ∅ reserved_name_set) = [].
Proof. repeat split; vm_compute; reflexivity. Qed.

(** C3, amended.  At a slot without a reserved name, a candidate that is
    in [seen_names] makes the loop of the resolver issue one
    [DuplicateWarning], carrying the candidate and the default name of the
    slot, and nothing else; then the default name is yielded and added to
    [seen_names], unless it is in [seen_names] itself, in which case the
    loop raises the [ValueError] of the slot.  The resolver hands its
    warnings to the caller when it returns only.  So, for a candidate of a
    slot [i] without a reserved name that is in the [seen_names] given, or
    is the non-empty candidate of an earlier slot without a reserved name:
    when the resolver returns, the name of slot [i] is [Field{i}] and
    exactly one of its warnings is about slot [i], the [DuplicateWarning]
    of the candidate; when it raises, at that slot or another, the caller
    gets no warning.  The candidates "Foo", "Foo" for two fields resolve to
    "Foo", "Field1" with one [DuplicateWarning]. *)
Theorem duplicate_candidate_replaced :
  (forall (count : nat) (name : string) (field_names : list string)
          (field : string) (fields : list string)
          (reserved : gmap Z string) (seen : gset string),
      reserved !! Z.of_nat count = None ->
      name ∈ seen ->
      generate_from count (name :: field_names) (field :: fields) reserved seen
      = if bool_decide (default_name count ∈ seen)
        then Fail [DuplicateWarning "field name" name (default_name count)]
               (default_name_error count)
        else Yield [DuplicateWarning "field name" name (default_name count)]
               (default_name count)
               (generate_from (S count) field_names fields reserved
                  ({[default_name count]} ∪ seen)))
  /\ (forall (field_names fields : list string) (reserved : gmap Z string)
             (seen : gset string) (i : nat) (name : string),
        (i < length fields)%nat ->
        reserved !! Z.of_nat i = None ->
        field_names !! i = Some name ->
        name ∈ seen
        \/ (name <> ""
            /\ exists j, (j < i)%nat /\ field_names !! j = Some name
                         /\ reserved !! Z.of_nat j = None) ->
        let g := _generate_unique_field_names field_names fields reserved seen in
        match raised g with
        | None =>
            names_of g !! i = Some (default_name i)
            /\ List.filter (replaces_by (default_name i)) (warnings_of g)
               = [DuplicateWarning "field name" name (default_name i)]
        | Some _ => warnings_of g = []
        end)
  /\ (forall f0 f1 : string,
        generate_from 0 ["Foo"; "Foo"] [f0; f1] ∅ reserved_name_set
        = Yield [] "Foo"
            (Yield [DuplicateWarning "field name" "Foo" "Field1"] "Field1"
               (Stop []))
        /\ _generate_unique_field_names ["Foo"; "Foo"] [f0; f1] ∅ reserved_name_set
           = Yield [] "Foo"
               (Yield [] "Field1"
                  (Stop [DuplicateWarning "field name" "Foo" "Field1"]))).
Proof.
  split; [|split].
  - intros count name field_names field fields reserved seen Hr Hin.
    rewrite generate_from_default; [|assumption|].
    + simpl. by rewrite (bool_decide_eq_true_2 _ Hin).
    + right. simpl. by apply bool_decide_eq_true_2.
  - intros field_names fields reserved seen i name Hi Hr Hname Hseen g. subst g.
    unfold _generate_unique_field_names.
    rewrite raised_capture, names_of_capture, warnings_of_capture.
    destruct (raised _) eqn:Hraised; [reflexivity|].
    apply (duplicate_slot_replaced reserved i 0 field_names fields seen name);
      done.
  - intros f0 f1. split; vm_compute; reflexivity.
Qed.

(** C3 amended, at slot 1 with "Foo" seen. *)
Lemma duplicate_candidate_replaced_witness :
  generate_from 1 ["Foo"] ["b"] ∅ ({["Foo"]} ∪ reserved_name_set)
  = Yield [DuplicateWarning "field name" "Foo" (default_name 1)] (default_name 1)
      (generate_from 2 [] [] ∅
         ({[default_name 1]} ∪ ({["Foo"]} ∪ reserved_name_set))).
Proof.
  rewrite (proj1 duplicate_candidate_replaced 1%nat "Foo" [] "b" [] ∅
             ({["Foo"]} ∪ reserved_name_set)).
  - vm_compute. reflexivity.
  - reflexivity.
  - vm_compute. reflexivity.
Defined.

(** The candidates "Foo", "Field1", "Foo" for three fields: the duplicate
    of slot 2 is replaced, and the warning reaches the caller. *)
Example duplicate_of_earlier_candidate_run (f0 f1 f2 : string) :
  _generate_unique_field_names ["Foo"; "Field1"; "Foo"] [f0; f1; f2] ∅
    reserved_name_set
  = Yield [] "Foo" (Yield [] "Field1" (Yield [] "Field2"
      (Stop [DuplicateWarning "field name" "Foo" "Field2"]))).
Proof. vm_compute. reflexivity. Qed.




(** The candidate "Front" of a column that is the guid column: the third
    way. *)
Example resolved_names_mismatch_run :
  _generate_unique_field_names ["Front"] ["a"; "b"]
    (reserved_mapping [VNone; VNone; VNone; VInt 0] reserved_names)
    reserved_name_set
  = Fail [] mismatch_attribute_error.
Proof. vm_compute. reflexivity. Qed.

Example resolved_names_run :
  names_of (_generate_unique_field_names ["Front"; ""] ["a"; "b"; "c"]
              (reserved_mapping [VNone; VInt 1; VNone; VNone] reserved_names)
              reserved_name_set)
  = ["Front"; "Deck"; "Field2"].
Proof. vm_compute. reflexivity. Qed.

(** ** Cards *)

Section CardFacts.

Variable reserved : gmap Z string.

(** [zip(..., strict=True)] never finds the resolver and the fields of
    different lengths: a run that does not raise names every field. *)
Lemma zip_strict_generate (fields : list string) :
  forall count field_names seen recorded,
    zip_strict
      (capture_and_raise_warnings recorded
         (generate_from count field_names fields reserved seen)) fields
    = match raised (generate_from count field_names fields reserved seen) with
      | Some e => ([], Raise e)
      | None =>
          ((recorded
            ++ warnings_of (generate_from count field_names fields reserved seen))%list,
           Return
             (zip (names_of (generate_from count field_names fields reserved seen))
                  fields))
      end.
Proof.
  induction fields as [|field fields IH]; intros count field_names seen recorded.
  { destruct field_names; reflexivity. }
  destruct (generate_from_cons reserved count field_names field fields seen)
    as [(ws & _ & _ & ->) | [(ws & r & _ & ->)
        | [(ws & n & _ & _ & _ & ->) | (r & n & _ & _ & _ & _ & ->)]]];
    simpl; [reflexivity | | | reflexivity];
    rewrite IH; destruct (raised _); simpl; by rewrite ?app_assoc.
Qed.

Lemma generate_field_dict_spec (field_names fields : list string) seen :
  _generate_field_dict field_names fields reserved seen
  = match raised (generate_from 0 field_names fields reserved seen) with
    | Some e => ([], Raise e)
    | None =>
        (warnings_of (generate_from 0 field_names fields reserved seen),
         Return
           (od_of_pairs
              (zip (names_of (generate_from 0 field_names fields reserved seen))
                   fields)))
    end.
Proof.
  unfold _generate_field_dict, _generate_unique_field_names.
  rewrite zip_strict_generate.
  destruct (raised _); simpl; by rewrite ?app_nil_r.
Qed.

End CardFacts.

Lemma od_set_fresh (k v : string) (d : OrderedDict) :
  k ∉ d.*1 -> od_set k v d = (d ++ [(k, v)])%list.
Proof.
  induction d as [|[k' v'] d IH]; simpl; [reflexivity|].
  intros Hk. apply not_elem_of_cons in Hk as [Hne Hk].
  destruct (String.eqb_spec k k') as [->|_]; [contradiction|].
  by rewrite IH.
Qed.

Lemma od_of_pairs_NoDup (pairs : list (string * string)) :
  NoDup pairs.*1 -> od_of_pairs pairs = pairs.
Proof.
  unfold od_of_pairs.
  enough (H : forall d : OrderedDict, NoDup ((d ++ pairs)%list).*1 ->
                        fold_left (fun d kv => od_set kv.1 kv.2 d) pairs d
                        = (d ++ pairs)%list)
    by (intros Hnd; exact (H [] Hnd)).
  induction pairs as [|[k v] pairs IH]; intros d Hnd; simpl.
  { by rewrite app_nil_r. }
  rewrite od_set_fresh.
  - rewrite IH; rewrite <- app_assoc; [reflexivity | exact Hnd].
  - rewrite fmap_app in Hnd. apply NoDup_app in Hnd as (_ & Hd & _).
    intros Hk. apply (Hd k Hk). simpl. by left.
Qed.

(** [AnkiCard.__init__] with a well-formed [has_html]: the names of the
    fields are the names the resolver yields, in order, and the values are
    the fields. *)
Lemma AnkiCard_init_spec (fields : list string) (field_names : option (list string))
    (has_html tags_idx note_type_idx deck_idx guid_idx : value) (b : bool) :
  _parse_anki_header_bool has_html = Return b ->
  let g := generate_from 0 (default [] field_names) fields
             (reserved_mapping [tags_idx; deck_idx; note_type_idx; guid_idx]
                reserved_names)
             reserved_name_set in
  AnkiCard_init fields field_names has_html tags_idx note_type_idx deck_idx guid_idx
  = match raised g with
    | Some e => ([], Raise e)
    | None =>
        (warnings_of g,
         Return {| has_html := b; fields := zip (names_of g) fields |})
    end.
Proof.
  intros Hb g. unfold AnkiCard_init. rewrite Hb. simpl.
  rewrite generate_field_dict_spec. fold g.
  destruct (raised g) eqn:Hr; simpl; [reflexivity|].
  rewrite app_nil_r, od_of_pairs_NoDup; [reflexivity|].
  rewrite fst_zip.
  - apply names_of_fresh; [apply reserved_mapping_values
                          | apply reserved_mapping_inj | done].
  - subst g. rewrite names_of_length by exact Hr. lia.
Qed.

(** A card that is constructed: its names are the names the resolver
    yields for the number of its fields, all different. *)
Lemma AnkiCard_init_names (fields : list string) (field_names : option (list string))
    (hh tags_idx note_type_idx deck_idx guid_idx : value)
    (ws : list warning) (card : AnkiCard) :
  AnkiCard_init fields field_names hh tags_idx note_type_idx deck_idx guid_idx
  = (ws, Return card) ->
  let g := generate_from 0 (default [] field_names) fields
             (reserved_mapping [tags_idx; deck_idx; note_type_idx; guid_idx]
                reserved_names)
             reserved_name_set in
  _parse_anki_header_bool hh = Return (has_html card)
  /\ raised g = None
  /\ field_names_of card = names_of g
  /\ as_str_list card = fields
  /\ NoDup (field_names_of card).
Proof.
  intros H g.
  destruct (_parse_anki_header_bool hh) as [b|e] eqn:Hb.
  2: { unfold AnkiCard_init in H. rewrite Hb in H. discriminate H. }
  rewrite (AnkiCard_init_spec _ _ _ _ _ _ _ _ Hb) in H. fold g in H.
  destruct (raised g) eqn:Hr; [discriminate H|].
  injection H as _ <-. unfold field_names_of, as_str_list. simpl.
  assert (Hlen : length (names_of g) = length fields)
    by (subst g; by apply names_of_length).
  split; [reflexivity|]. split; [reflexivity|].
  change (map fst ?l) with (l.*1). change (map snd ?l) with (l.*2).
  rewrite fst_zip, snd_zip by lia.
  split; [reflexivity|]. split; [reflexivity|].
  apply names_of_fresh; [apply reserved_mapping_values
                        | apply reserved_mapping_inj | done].
Qed.

(** ** A candidate against a reserved name *)

(** C2, on the code.  At a slot with a reserved name, a candidate that is
    non-empty and differs from the reserved name makes the resolver raise
    [AttributeError]: the class [HeaderFieldNameMismatchWarning] that the
    code names is not declared.  No warning is emitted, the reserved name
    is not yielded, and no card is constructed: the resolver, as decorated,
    raises at that slot or before, and the constructor raises.  The
    candidate "Foo" at index 2, reserved to "Deck", raises after two names;
    so does the card of two fields named "Front" whose guid is column 0,
    and the deck read from such a file. *)
Theorem reserved_name_mismatch_raises :
  (forall (count : nat) (name : string) (field_names : list string)
          (field : string) (fields : list string)
          (reserved : gmap Z string) (seen : gset string)
          (reserved_name : string),
      reserved !! Z.of_nat count = Some reserved_name ->
      name <> "" ->
      name <> reserved_name ->
      generate_from count (name :: field_names) (field :: fields) reserved seen
      = Fail [] mismatch_attribute_error)
  /\ (forall (field_names fields : list string) (reserved : gmap Z string)
             (seen : gset string) (i : nat) (name reserved_name : string),
        (i < length fields)%nat ->
        reserved !! Z.of_nat i = Some reserved_name ->
        field_names !! i = Some name ->
        name <> "" ->
        name <> reserved_name ->
        let g := _generate_unique_field_names field_names fields reserved seen in
        is_Some (raised g)
        /\ warnings_of g = []
        /\ names_of g !! i = None
        /\ (length (names_of g) = i ->
            raised g = Some mismatch_attribute_error))
  /\ (forall (fields field_names : list string)
             (hh tags_idx note_type_idx deck_idx guid_idx : value)
             (i : nat) (name reserved_name : string),
        (i < length fields)%nat ->
        reserved_mapping [tags_idx; deck_idx; note_type_idx; guid_idx]
          reserved_names !! Z.of_nat i = Some reserved_name ->
        field_names !! i = Some name ->
        name <> "" ->
        name <> reserved_name ->
        exists e,
          AnkiCard_init fields (Some field_names) hh tags_idx note_type_idx
            deck_idx guid_idx = ([], Raise e))
  /\ (forall f0 f1 f2 : string,
        _generate_unique_field_names ["a"; "b"; "Foo"] [f0; f1; f2]
          {[2 := "Deck"]} reserved_name_set
        = Yield [] "a" (Yield [] "b" (Fail [] mismatch_attribute_error)))
  /\ AnkiCard_init ["a"; "b"] (Some ["Front"]) (VStr "false")
       VNone VNone VNone (VInt 0)
     = ([], Raise mismatch_attribute_error)
  /\ _parse_anki_export Csv.reader_excel_tab
       (text ["#separator:tab"; "#guid column:1"; row ["a"; "b"]])
       (Some ["Front"])
     = ([], Raise mismatch_attribute_error).
Proof.
  split; [|split; [|split; [|split; [|split]]]].
  - intros count name field_names field fields reserved seen r Hr Hne Hdiff.
    by apply (generate_from_mismatch _ _ _ _ _ _ _ r).
  - intros field_names fields reserved seen i name r Hi Hr Hname Hne Hdiff g.
    subst g. unfold _generate_unique_field_names.
    rewrite raised_capture, names_of_capture, warnings_of_capture.
    destruct (mismatch_slot_raises reserved i 0 field_names fields seen name r)
      as (e & He & Hle & Hlast); try done.
    rewrite He. split; [eauto|]. split; [reflexivity|].
    split; [apply lookup_ge_None; lia|].
    intros H. f_equal. by apply Hlast.
  - intros fields field_names hh t n d g i name r Hi Hr Hname Hne Hdiff.
    destruct (_parse_anki_header_bool hh) as [b|e] eqn:Hb.
    + rewrite (AnkiCard_init_spec _ _ _ _ _ _ _ _ Hb). cbv zeta. simpl default.
      destruct (mismatch_slot_raises
                  (reserved_mapping [t; d; n; g] reserved_names) i 0
                  field_names fields reserved_name_set name r)
        as (e & -> & _); try done. eauto.
    + unfold AnkiCard_init. rewrite Hb. simpl. eauto.
  - intros f0 f1 f2. vm_compute. reflexivity.
  - vm_compute. reflexivity.
  - vm_compute. reflexivity.
Qed.

(** C2 at index 2, reserved to "Deck", with the candidate "Foo" already in
    [seen_names]. *)
Lemma reserved_name_mismatch_raises_witness :
  generate_from 2 ["Foo"] ["c"] {[2 := "Deck"]} ({["Foo"]} ∪ reserved_name_set)
  = Fail [] mismatch_attribute_error.
Proof.
  apply (proj1 reserved_name_mismatch_raises 2%nat "Foo" [] "c" []
           {[2 := "Deck"]} ({["Foo"]} ∪ reserved_name_set) "Deck").
  - reflexivity.
  - discriminate.
  - discriminate.
Defined.

(** A candidate that is the reserved name of its slot, or empty, agrees
    with it: the reserved name is yielded without a warning. *)
Example reserved_name_agrees_run (f0 f1 f2 : string) :
  generate_from 0 ["GUID"; ""; "c"] [f0; f1; f2] {[0 := "GUID"; 1 := "Deck"]}
    reserved_name_set
  = Yield [] "GUID" (Yield [] "Deck" (Yield [] "c" (Stop []))).
Proof. vm_compute. reflexivity. Qed.

(** ** Reformatting a header *)

Section Reformat.

Variable translation : Z.
Variable mapping : gmap string string.
Hypothesis mapping_inj :
  forall k1 k2 k', mapping !! k1 = Some k' -> mapping !! k2 = Some k' -> k1 = k2.

Lemma reformat_fold (header : gmap string value) :
  reformatted_from translation mapping header
    (map_fold (reformat_item translation mapping) (Return ∅) header).
Proof.
  apply (map_fold_weak_ind (fun r m => reformatted_from translation mapping m r)).
  { split; intros k v H; by rewrite lookup_empty in H. }
  intros i x m r Hi IH. unfold reformat_item.
  destruct r as [h'|e].
  - destruct (mapping !! i) as [new_key|] eqn:Hmap.
    2: { exists i, x. rewrite lookup_insert_eq. auto. }
    destruct (transform_integer_value x translation 1) as [new_value|e] eqn:Ht.
    2: { exists i, x. rewrite lookup_insert_eq. auto. }
    destruct IH as [IH1 IH2]. split.
    + intros k v Hk. destruct (decide (i = k)) as [->|Hne].
      * rewrite lookup_insert_eq in Hk. injection Hk as <-.
        exists new_key, new_value. by rewrite lookup_insert_eq.
      * rewrite lookup_insert_ne in Hk by exact Hne.
        destruct (IH1 k v Hk) as (k' & v' & Hk' & Hv' & Hh').
        exists k', v'. split; [exact Hk'|]. split; [exact Hv'|].
        rewrite lookup_insert_ne; [exact Hh'|].
        intros ->. apply Hne. by apply (mapping_inj _ _ k').
    + intros k' v' Hk'. destruct (decide (new_key = k')) as [->|Hne].
      * rewrite lookup_insert_eq in Hk'. injection Hk' as <-.
        exists i, x. by rewrite lookup_insert_eq.
      * rewrite lookup_insert_ne in Hk' by exact Hne.
        destruct (IH2 k' v' Hk') as (k & v & Hk & Hm & Hv).
        exists k, v. split; [|done].
        rewrite lookup_insert_ne; [exact Hk|]. intros ->. congruence.
  - destruct IH as (k & v & Hk & Hbad). exists k, v. split; [|exact Hbad].
    rewrite lookup_insert_ne; [exact Hk|]. intros ->. congruence.
Qed.

End Reformat.

Lemma mapping_items_inj (items : list (string * string)) :
  NoDup items.*2 ->
  forall k1 k2 k' : string,
    (list_to_map items : gmap string string) !! k1 = Some k' ->
    (list_to_map items : gmap string string) !! k2 = Some k' -> k1 = k2.
Proof.
  intros Hnd k1 k2 k' H1%elem_of_list_to_map_2 H2%elem_of_list_to_map_2.
  apply list_elem_of_lookup in H1 as [i1 H1], H2 as [i2 H2].
  assert (i1 = i2).
  { apply (NoDup_lookup _ _ _ k' Hnd); rewrite list_lookup_fmap.
    - by rewrite H1.
    - by rewrite H2. }
  congruence.
Qed.

Lemma _DIRECTION_MAPPING_inj (direction : ReformatDirection) (k1 k2 k' : string) :
  _DIRECTION_MAPPING direction !! k1 = Some k' ->
  _DIRECTION_MAPPING direction !! k2 = Some k' -> k1 = k2.
Proof.
  destruct direction; apply mapping_items_inj;
    apply (bool_decide_unpack _); vm_compute; exact I.
Qed.

Lemma reformat_header_settings_spec (header : gmap string value)
    (direction : ReformatDirection) :
  reformatted_from (_DIRECTION_TRANSLATION_VALUE direction)
    (_DIRECTION_MAPPING direction) header
    (reformat_header_settings header direction).
Proof. apply reformat_fold, _DIRECTION_MAPPING_inj. Qed.

Lemma mapping_internal (k k' : string) :
  _ANKI_EXPORT_HEADER_MAPPING !! k = Some k' -> k' ∈ internal_keys.
Proof.
  intros H%elem_of_list_to_map_2.
  unfold _ANKI_EXPORT_HEADER_MAPPING_items in H.
  rewrite !elem_of_cons, elem_of_nil in H.
  unfold internal_keys. rewrite !elem_of_cons.
  intuition (simplify_eq; auto).
Qed.

(** The keys of a parsed header are internal names. *)
Lemma parse_header_settings_keys (f f' : stream) (header : gmap string value)
    (k : string) (v : value) :
  parse_header_settings f = Return (header, f') ->
  header !! k = Some v -> k ∈ internal_keys.
Proof.
  unfold parse_header_settings.
  destruct (read_header_settings f) as [[wire f0]|e]; [|discriminate].
  pose proof (reformat_header_settings_spec wire ANKI_TO_GAGGLE) as Hspec.
  destruct (reformat_header_settings wire ANKI_TO_GAGGLE) as [h|e];
    [|discriminate].
  intros [= <- <-] Hk. destruct Hspec as [_ H2].
  destruct (H2 k v Hk) as (k0 & v0 & _ & Hm & _).
  exact (mapping_internal _ _ Hm).
Qed.

(** ** Decks *)

Lemma AnkiCard_call_keywords (card : list string) (field_names : option (list string))
    (header : gmap string value) :
  (forall k v, header !! k = Some v -> k ∈ AnkiCard_keywords) ->
  AnkiCard_call card field_names header
  = AnkiCard_init card field_names
      (default (VStr "false") (header !! "has_html"))
      (default VNone (header !! "tags_idx"))
      (default VNone (header !! "note_type_idx"))
      (default VNone (header !! "deck_idx"))
      (default VNone (header !! "guid_idx")).
Proof.
  intros Hkeys. unfold AnkiCard_call.
  rewrite bool_decide_eq_false_2.
  2: { intros [v Hv]%elem_of_dom. apply Hkeys in Hv.
       revert Hv. apply (bool_decide_unpack ("field_names" ∉ AnkiCard_keywords)).
       vm_compute. exact I. }
  destruct (filter _ _) as [|k bad] eqn:Hf; [reflexivity|].
  assert (Hk : k ∈ filter (fun k => ¬ k ∈ AnkiCard_keywords)
                      (elements (dom header)))
    by (rewrite Hf; by left).
  apply list_elem_of_filter in Hk as [Hbad Hk].
  apply elem_of_elements, elem_of_dom in Hk as [v Hv].
  destruct (Hbad (Hkeys _ _ Hv)).
Qed.

(** The header a deck passes to its cards: the parsed header without the
    separator. *)
Lemma card_header_keywords (f f' : stream) (header : gmap string value)
    (k : string) (v : value) :
  parse_header_settings f = Return (header, f') ->
  delete _ANKI_EXPORT_HEADER_SETTING_SEPARATOR_NAME header !! k = Some v ->
  k ∈ AnkiCard_keywords.
Proof.
  intros Hparse Hk. apply lookup_delete_Some in Hk as [Hne Hk].
  pose proof (parse_header_settings_keys _ _ _ _ _ Hparse Hk) as Hin.
  unfold internal_keys in Hin. unfold AnkiCard_keywords.
  rewrite !elem_of_cons in Hin. rewrite !elem_of_cons.
  unfold _ANKI_EXPORT_HEADER_SETTING_SEPARATOR_NAME in Hne.
  rewrite elem_of_nil in Hin.
  destruct Hin as [H|[H|[H|[H|[H|[H|[]]]]]]]; auto 6; congruence.
Qed.

Section DeckFacts.

Variable csv_reader : stream -> list (list string) * option exn.


(** The cards of a deck that is read: a card a row, each constructed from
    its row alone. *)
Lemma cards_of_rows_return (rows : list (list string)) (stopped : option exn)
    (field_names : option (list string)) (header : gmap string value)
    (ws : list warning) (deck : list AnkiCard) :
  cards_of_rows rows stopped field_names header = (ws, Return deck) ->
  Forall2 (fun c card => exists w, AnkiCard_call c field_names header
                                   = (w, Return card)) rows deck.
Proof.
  revert ws deck. induction rows as [|c rows IH]; intros ws deck; simpl.
  - destruct stopped; [discriminate|]. intros [= _ <-]. constructor.
  - destruct (AnkiCard_call c field_names header) as [w [card|e]] eqn:Hc;
      simpl; [|discriminate].
    destruct (cards_of_rows rows stopped field_names header)
      as [w' [deck'|e]] eqn:Hrows; simpl; [|discriminate].
    intros [= _ <-]. constructor; [eauto|]. by eapply IH.
Qed.

Lemma parse_anki_export_tab (file f : stream) (field_names : option (list string))
    (header : gmap string value) :
  parse_header_settings file = Return (header, f) ->
  header !! _ANKI_EXPORT_HEADER_SETTING_SEPARATOR_NAME
  = Some (VStr _ANKI_EXPORT_HEADER_SETTING_SEPARATOR_TSV_STRING) ->
  _parse_anki_export csv_reader file field_names
  = (cards <- create_cards_from_tsv csv_reader f field_names
               (Some (delete _ANKI_EXPORT_HEADER_SETTING_SEPARATOR_NAME header)) ;;
     ret (<[_ANKI_EXPORT_HEADER_SETTING_SEPARATOR_NAME :=
              VStr _ANKI_EXPORT_HEADER_SETTING_SEPARATOR_TSV_STRING]>
            (delete _ANKI_EXPORT_HEADER_SETTING_SEPARATOR_NAME header),
          cards)).
Proof.
  intros Hparse Hsep. unfold _parse_anki_export. rewrite Hparse. simpl.
  rewrite Hsep. rewrite bool_decide_eq_true_2 by reflexivity.
  destruct (create_cards_from_tsv _ _ _ _) as [ws [cards|e]]; reflexivity.
Qed.

End DeckFacts.

Lemma AnkiCard_call_return (card : list string) (field_names : option (list string))
    (header : gmap string value) (ws : list warning) (c : AnkiCard) :
  AnkiCard_call card field_names header = (ws, Return c) ->
  AnkiCard_init card field_names
    (default (VStr "false") (header !! "has_html"))
    (default VNone (header !! "tags_idx"))
    (default VNone (header !! "note_type_idx"))
    (default VNone (header !! "deck_idx"))
    (default VNone (header !! "guid_idx")) = (ws, Return c).
Proof.
  unfold AnkiCard_call. case_bool_decide; [discriminate|].
  destruct (filter _ _); [auto | discriminate].
Qed.

(** C5, as stated, fails: a header that declares the separator "comma" is
    parsed without an error; the deck has the header and no card. *)
Lemma other_separator_is_not_fatal :
  _parse_anki_export Csv.reader_excel_tab
    (text ["#separator:comma"; "a,b"]) None
  = ([], Return ({["separator" := VStr "comma"]}, [])).
Proof. vm_compute. reflexivity. Qed.

(** C5, amended. When the header of the input declares a separator other
    than "tab", parsing the deck raises nothing: it returns the parsed
    header as it is and no card, and no row is decoded. *)
Theorem other_separator_yields_no_cards
    (csv_reader : stream -> list (list string) * option exn)
    (file f : stream) (field_names : option (list string))
    (header : gmap string value) (separator : value) :
  parse_header_settings file = Return (header, f) ->
  header !! "separator" = Some separator ->
  separator <> VStr "tab" ->
  _parse_anki_export csv_reader file field_names = ([], Return (header, [])).
Proof.
  intros Hparse Hsep Hne. unfold _parse_anki_export. rewrite Hparse. simpl.
  unfold _ANKI_EXPORT_HEADER_SETTING_SEPARATOR_NAME. rewrite Hsep.
  rewrite bool_decide_eq_false_2 by exact Hne. reflexivity.
Qed.

(** C5 amended, for the separator "comma". *)
Lemma other_separator_yields_no_cards_witness :
  _parse_anki_export Csv.reader_excel_tab (text ["#separator:comma"; "a,b"])
    (Some ["Front"])
  = ([], Return ({["separator" := VStr "comma"]}, [])).
Proof.
  apply (other_separator_yields_no_cards Csv.reader_excel_tab
           (text ["#separator:comma"; "a,b"]) (text ["a,b"]) (Some ["Front"])
           {["separator" := VStr "comma"]} (VStr "comma")).
  - vm_compute. reflexivity.
  - vm_compute. reflexivity.
  - discriminate.
Defined.

(** C6, as stated, fails: the two records of this deck have the same field
    name; the names are not unique across the records of the deck. *)
Lemma records_share_names :
  _parse_anki_export Csv.reader_excel_tab (text ["#separator:tab"; "a"; "b"]) None
  = ([], Return
           ({["separator" := VStr "tab"]},
            [ {| has_html := false; fields := [("Field0", "a")] |};
              {| has_html := false; fields := [("Field0", "b")] |} ]))
  /\ ~ NoDup (field_names_of {| has_html := false; fields := [("Field0", "a")] |}
              ++ field_names_of {| has_html := false; fields := [("Field0", "b")] |}).
Proof.
  split; [vm_compute; reflexivity|].
  simpl. intros H. apply NoDup_cons in H as [H _]. apply H. by left.
Qed.

(** C6, amended. Every card of a deck is constructed with a set of seen
    names of its own, seeded with the four reserved names: the names are
    unique within each record, and two records with the same number of
    fields have the same names (the candidate names being a sequence that
    every card reads from its start). *)
Theorem names_are_resolved_per_card
    (csv_reader : stream -> list (list string) * option exn)
    (f : stream) (field_names : option (list string))
    (header : option (gmap string value))
    (ws : list warning) (deck : list AnkiCard) :
  create_cards_from_tsv csv_reader f field_names header = (ws, Return deck) ->
  Forall (fun card => NoDup (field_names_of card)) deck
  /\ (forall card1 card2,
        card1 ∈ deck -> card2 ∈ deck ->
        length (fields card1) = length (fields card2) ->
        field_names_of card1 = field_names_of card2).
Proof.
  unfold create_cards_from_tsv.
  destruct (csv_reader f) as [rows stopped]. intros H.
  apply cards_of_rows_return in H.
  assert (Hcard : forall card, card ∈ deck ->
            exists c : list string,
              NoDup (field_names_of card)
              /\ length c = length (fields card)
              /\ field_names_of card
                 = names_of
                     (generate_from 0 (default [] field_names) c
                        (reserved_mapping
                           [default VNone (default ∅ header !! "tags_idx");
                            default VNone (default ∅ header !! "deck_idx");
                            default VNone (default ∅ header !! "note_type_idx");
                            default VNone (default ∅ header !! "guid_idx")]
                           reserved_names)
                        reserved_name_set)).
  { intros card Hin. apply list_elem_of_lookup in Hin as [i Hi].
    destruct (Forall2_lookup_r _ _ _ _ _ H Hi) as (c & _ & w & Hc).
    apply AnkiCard_call_return, AnkiCard_init_names in Hc
      as (_ & _ & Hnames & Hvalues & Hnd).
    exists c. split; [exact Hnd|]. split; [|exact Hnames].
    rewrite <- Hvalues. unfold as_str_list. by rewrite length_map. }
  split.
  - apply Forall_forall. intros card Hin.
    by destruct (Hcard card Hin) as (c & Hnd & _).
  - intros card1 card2 H1 H2 Hlen.
    destruct (Hcard card1 H1) as (c1 & _ & Hl1 & ->).
    destruct (Hcard card2 H2) as (c2 & _ & Hl2 & ->).
    f_equal. apply generate_from_length. congruence.
Qed.

(** C6 amended, for a deck of two rows. *)
Lemma names_are_resolved_per_card_witness :
  Forall (fun card => NoDup (field_names_of card))
    [ {| has_html := false; fields := [("Field0", "a")] |};
      {| has_html := false; fields := [("Field0", "b")] |} ]
  /\ (forall card1 card2,
        card1 ∈ [ {| has_html := false; fields := [("Field0", "a")] |};
                  {| has_html := false; fields := [("Field0", "b")] |} ] ->
        card2 ∈ [ {| has_html := false; fields := [("Field0", "a")] |};
                  {| has_html := false; fields := [("Field0", "b")] |} ] ->
        length (fields card1) = length (fields card2) ->
        field_names_of card1 = field_names_of card2).
Proof.
  apply (names_are_resolved_per_card Csv.reader_excel_tab (text ["a"; "b"])
           None None []).
  vm_compute. reflexivity.
Defined.

(** C8. The name of slot [i] is the reserved name of index [i] when there
    is one; otherwise it is the candidate of the slot or the default name
    [Field{i}] of the slot, whatever was yielded before.  With index 0
    reserved for the GUID, three fields without candidates are named
    "GUID", "Field1", "Field2", and the text with the header lines
    [#separator:tab], [#guid column:1] and the row of "a", "b", "c" parses
    to one record with these names. *)
Theorem default_names_follow_position :
  (forall (i : nat) (field_names fields : list string)
          (reserved : gmap Z string) (seen : gset string)
          (ws : list warning) (n : string),
      slot i (generate_from 0 field_names fields reserved seen) = Some (ws, n) ->
      match reserved !! Z.of_nat i with
      | Some reserved_name => n = reserved_name
      | None =>
          match field_names !! i with
          | Some (String _ _ as candidate) => n = candidate \/ n = default_name i
          | _ => n = default_name i
          end
      end)
  /\ (forall f0 f1 f2 : string,
        _generate_unique_field_names [] [f0; f1; f2] {[0 := "GUID"]}
          reserved_name_set
        = Yield [] "GUID" (Yield [] "Field1" (Yield [] "Field2" (Stop []))))
  /\ _parse_anki_export Csv.reader_excel_tab
       (text ["#separator:tab"; "#guid column:1"; row ["a"; "b"; "c"]]) None
     = ([], Return
              ({["separator" := VStr "tab"; "guid_idx" := VInt 0]},
               [ {| has_html := false;
                    fields := [("GUID", "a"); ("Field1", "b"); ("Field2", "c")] |} ])).
Proof.
  split; [|split].
  - intros i field_names fields reserved seen ws n H.
    exact (slot_generate_from reserved i 0 field_names fields seen ws n H).
  - intros f0 f1 f2. vm_compute. reflexivity.
  - vm_compute. reflexivity.
Qed.

(** C8, at slot 1 of three fields with index 0 reserved. *)
Lemma default_names_follow_position_witness :
  match ({[0 := "GUID"]} : gmap Z string) !! Z.of_nat 1 with
  | Some reserved_name => "Field1" = reserved_name
  | None =>
      match (@nil string) !! 1%nat with
      | Some (String _ _ as candidate) =>
          "Field1" = candidate \/ "Field1" = default_name 1
      | _ => "Field1" = default_name 1
      end
  end.
Proof.
  apply (proj1 default_names_follow_position 1%nat [] ["a"; "b"; "c"]
           {[0 := "GUID"]} reserved_name_set []).
  vm_compute. reflexivity.
Defined.



(** A deck whose field names claim the default name of the second column
    is not parsed. *)
Example claimed_default_name_deck :
  _parse_anki_export Csv.reader_excel_tab
    (text ["#separator:tab"; row ["a"; "b"]]) (Some ["Field1"])
  = ([], Raise (ValueError
                  "Index-associated generic name duplicated. Duplicated value: Field1")).
Proof. vm_compute. reflexivity. Qed.

(** C10, as stated, fails: a deck without rows constructs no card, and its
    parse returns whatever the header says about html. *)
Lemma html_of_empty_deck_is_not_checked :
  _parse_anki_export Csv.reader_excel_tab (text ["#separator:tab"; "#html:1"]) None
  = ([], Return ({["separator" := VStr "tab"; "has_html" := VInt 0]}, [])).
Proof. vm_compute. reflexivity. Qed.

(** C10, amended. The constructor of a card raises a [ValueError] when its
    [has_html] argument is neither the string "true" nor the string
    "false"; so does the parse of a tab-separated deck that has at least
    one row and whose header gives html any other value (the integer 0 the
    value "1" is parsed to, for one); a deck without rows constructs no
    card and is parsed whatever its header says about html.  When the
    header gives no html, a card is constructed with [has_html] false
    whenever the resolver does not raise. *)
Theorem html_is_true_or_false :
  (forall (fields : list string) (field_names : option (list string))
          (has_html tags_idx note_type_idx deck_idx guid_idx : value),
      has_html <> VStr "true" ->
      has_html <> VStr "false" ->
      AnkiCard_init fields field_names has_html tags_idx note_type_idx
        deck_idx guid_idx
      = ([], Raise (ValueError
                      ("Expected true or false but instead got "
                       ++ format has_html))))
  /\ (forall (csv_reader : stream -> list (list string) * option exn)
             (file f : stream) (field_names : option (list string))
             (header : gmap string value) (html : value)
             (card : list string) (rows : list (list string))
             (stopped : option exn),
        parse_header_settings file = Return (header, f) ->
        header !! "separator" = Some (VStr "tab") ->
        header !! "has_html" = Some html ->
        html <> VStr "true" ->
        html <> VStr "false" ->
        csv_reader f = (card :: rows, stopped) ->
        _parse_anki_export csv_reader file field_names
        = ([], Raise (ValueError
                        ("Expected true or false but instead got "
                         ++ format html))))
  /\ (forall (csv_reader : stream -> list (list string) * option exn)
             (file f : stream) (field_names : option (list string))
             (header : gmap string value),
        parse_header_settings file = Return (header, f) ->
        header !! "separator" = Some (VStr "tab") ->
        csv_reader f = ([], None) ->
        _parse_anki_export csv_reader file field_names = ([], Return (header, [])))
  /\ (forall (card : list string) (field_names : option (list string))
             (header : gmap string value),
        (forall k v, header !! k = Some v -> k ∈ AnkiCard_keywords) ->
        header !! "has_html" = None ->
        let g := generate_from 0 (default [] field_names) card
                   (reserved_mapping
                      [default VNone (header !! "tags_idx");
                       default VNone (header !! "deck_idx");
                       default VNone (header !! "note_type_idx");
                       default VNone (header !! "guid_idx")] reserved_names)
                   reserved_name_set in
        AnkiCard_call card field_names header
        = match raised g with
          | Some e => ([], Raise e)
          | None =>
              (warnings_of g,
               Return {| has_html := false; fields := zip (names_of g) card |})
          end).
Proof.
  assert (Hinit : forall fields field_names hh t n d g,
             hh <> VStr "true" -> hh <> VStr "false" ->
             AnkiCard_init fields field_names hh t n d g
             = ([], Raise (ValueError
                             ("Expected true or false but instead got "
                              ++ format hh)))).
  { intros fields field_names hh t n d g Ht Hf.
    unfold AnkiCard_init, _parse_anki_header_bool.
    rewrite (bool_decide_eq_false_2 _ Ht), (bool_decide_eq_false_2 _ Hf).
    reflexivity. }
  split; [exact Hinit | split; [|split]].
  - intros csv_reader file f field_names header html card rows stopped
      Hparse Hsep Hhtml Ht Hf Hrows.
    rewrite (parse_anki_export_tab csv_reader _ _ _ _ Hparse Hsep).
    unfold create_cards_from_tsv. rewrite Hrows. simpl.
    rewrite AnkiCard_call_keywords
      by (intros k v; apply (card_header_keywords _ _ _ _ _ Hparse)).
    unfold _ANKI_EXPORT_HEADER_SETTING_SEPARATOR_NAME.
    rewrite lookup_delete_ne by discriminate. rewrite Hhtml. simpl.
    rewrite (Hinit _ _ _ _ _ _ _ Ht Hf). reflexivity.
  - intros csv_reader file f field_names header Hparse Hsep Hrows.
    rewrite (parse_anki_export_tab csv_reader _ _ _ _ Hparse Hsep).
    unfold create_cards_from_tsv. rewrite Hrows. simpl.
    by rewrite insert_delete_eq, insert_id.
  - intros card field_names header Hkeys Hhtml g.
    rewrite (AnkiCard_call_keywords _ _ _ Hkeys), Hhtml. simpl.
    by rewrite (AnkiCard_init_spec _ _ (VStr "false") _ _ _ _ false).
Qed.

(** C10 amended, for a card whose [has_html] is the integer 0. *)
Lemma html_is_true_or_false_witness :
  AnkiCard_init ["a"] None (VInt 0) VNone VNone VNone VNone
  = ([], Raise (ValueError "Expected true or false but instead got 0")).
Proof.
  apply (proj1 html_is_true_or_false ["a"] None (VInt 0) VNone VNone VNone VNone).
  - discriminate.
  - discriminate.
Defined.

(** A deck with a row whose header says [#html:1]: the value is parsed to
    the integer 0 and the card is not constructed. *)
Example html_1_deck :
  _parse_anki_export Csv.reader_excel_tab
    (text ["#separator:tab"; "#html:1"; row ["a"; "b"]]) None
  = ([], Raise (ValueError "Expected true or false but instead got 0")).
Proof. vm_compute. reflexivity. Qed.

Example html_true_deck :
  _parse_anki_export Csv.reader_excel_tab
    (text ["#separator:tab"; "#html:true"; row ["a"; "b"]]) None
  = ([], Return
           ({["separator" := VStr "tab"; "has_html" := VStr "true"]},
            [ {| has_html := true; fields := [("Field0", "a"); ("Field1", "b")] |} ])).
Proof. vm_compute. reflexivity. Qed.

(** ** The header round trip *)

Section HeaderLines.

Lemma append_cons (x : ascii) (a b : string) :
  String x a ++ b = String x (a ++ b).
Proof. reflexivity. Qed.

Lemma append_nil (b : string) : EmptyString ++ b = b.
Proof. reflexivity. Qed.

Lemma append_assoc (a b c : string) : (a ++ b) ++ c = a ++ (b ++ c).
Proof.
  induction a as [|x a IH]; [reflexivity|].
  by rewrite !append_cons, IH.
Qed.

Lemma header_char_spec c :
  header_char c = true ->
  Ascii.eqb c ":" = false /\ Ascii.eqb c LF = false /\ Ascii.eqb c CR = false.
Proof.
  unfold header_char, _ANKI_EXPORT_HEADER_DELIMITER_SYMBOL.
  intros [[H1 H2]%andb_prop H3]%andb_prop.
  by rewrite !negb_true_iff in H1, H2, H3.
Qed.

Lemma header_char_line_char c : header_char c = true -> line_char c = true.
Proof.
  intros (_ & H1 & H2)%header_char_spec. unfold line_char.
  by rewrite H1, H2.
Qed.

Lemma readline_line (s rest : string) :
  PyStr.all_chars line_char s = true ->
  readline (s ++ String LF rest) = (s ++ String LF EmptyString, rest).
Proof.
  induction s as [|c s IH]; [reflexivity|].
  rewrite append_cons. simpl. intros [Hc Hs]%andb_prop.
  unfold line_char in Hc. apply andb_prop in Hc as [H1 H2].
  rewrite negb_true_iff in H1, H2. rewrite H1, H2.
  by rewrite (IH Hs).
Qed.

Lemma split_plain (s : string) :
  PyStr.all_chars header_char s = true ->
  PyStr.split ":" (s ++ String LF EmptyString) = [s ++ String LF EmptyString].
Proof.
  induction s as [|c s IH]; [reflexivity|].
  rewrite append_cons. simpl. intros [Hc Hs]%andb_prop.
  destruct (header_char_spec c Hc) as (-> & _ & _).
  by rewrite (IH Hs).
Qed.

Lemma split_setting (setting v : string) :
  PyStr.all_chars header_char setting = true ->
  PyStr.all_chars header_char v = true ->
  PyStr.split ":" (setting ++ String ":" (v ++ String LF EmptyString))
  = [setting; v ++ String LF EmptyString].
Proof.
  intros Hsetting Hv.
  induction setting as [|c s IH].
  - rewrite append_nil. simpl. by rewrite split_plain.
  - simpl in Hsetting. apply andb_prop in Hsetting as [Hc Hs].
    rewrite append_cons. simpl.
    destruct (header_char_spec c Hc) as (-> & _ & _).
    by rewrite (IH Hs).
Qed.

Lemma rstrip_line (s : string) :
  PyStr.rstrip (s ++ String LF EmptyString) = PyStr.rstrip s.
Proof.
  unfold PyStr.rstrip. induction s as [|c s IH]; [reflexivity|].
  rewrite append_cons. simpl. by rewrite IH.
Qed.

Lemma length_append (a b : string) :
  String.length (a ++ b) = (String.length a + String.length b)%nat.
Proof.
  induction a as [|x a IH]; [reflexivity|].
  rewrite append_cons. simpl. by rewrite IH.
Qed.

(** A value as it stands in the reformatted header that is written. *)
Lemma format_plain (v : value) :
  plain v = true ->
  PyStr.all_chars header_char (format v) = true
  /\ transform_integer_value (VStr (PyStr.rstrip (format v))) 0 1 = Return v.
Proof.
  destruct v as [s|z|]; simpl; [| |discriminate].
  - unfold plain_str. intros [[Hc Hr%String.eqb_eq]%andb_prop Hi]%andb_prop.
    split; [exact Hc|]. rewrite Hr.
    destruct (PyStr.int s); [discriminate | reflexivity].
  - intros _. pose proof (str_chars z) as Hz. split.
    + eapply all_chars_impl; [|exact Hz].
      intros [[] [] [] [] [] [] [] []]; simpl; intros H;
        first [discriminate H | reflexivity].
    + unfold PyStr.rstrip. rewrite rstrip_by_id.
      * rewrite int_str. do 2 f_equal. lia.
      * eapply all_chars_impl; [|exact Hz]. apply int_char_not_isspace.
Qed.

(** Reading the lines of [items] puts them in the header, in order. *)
Lemma read_header_loop_render (items : list (string * value)) (rest : string) :
  Forall (fun kv => PyStr.all_chars header_char kv.1 = true
                    /\ plain kv.2 = true) items ->
  (forall r, rest <> String "#" r) ->
  forall (fuel : nat) (header : gmap string value),
    (String.length (render items ++ rest) < fuel)%nat ->
    read_header_loop fuel header (render items ++ rest)
    = Return (fold_left (fun m kv => <[kv.1 := kv.2]> m) items header, rest).
Proof.
  intros Hitems Hrest.
  induction Hitems as [|[k v] items [Hk Hv] _ IH]; intros fuel header Hfuel.
  - change (render []) with EmptyString. rewrite append_nil.
    destruct fuel as [|fuel]; [simpl in Hfuel; lia|].
    destruct rest as [|c rest]; [reflexivity|]. simpl.
    unfold _ANKI_EXPORT_HEADER_LINE_SYMBOL.
    destruct (Ascii.eqb_spec c "#") as [->|_]; [by destruct (Hrest rest)|].
    reflexivity.
  - destruct fuel as [|fuel]; [simpl in Hfuel; lia|].
    simpl in Hk, Hv. destruct (format_plain v Hv) as [Hfv Hback].
    assert (Hline : render ((k, v) :: items) ++ rest
                    = String "#" ((k ++ String ":" (format v)) ++
                                  String LF (render items ++ rest))).
    { change (render ((k, v) :: items))
        with (String "#" (k ++ String ":" (format v ++ String LF EmptyString))
              ++ render items).
      rewrite !append_cons. f_equal.
      rewrite !append_assoc, !append_cons, !append_assoc. reflexivity. }
    rewrite Hline in Hfuel |- *.
    cbn [read_header_loop read1].
    change (String.eqb "#" (String _ANKI_EXPORT_HEADER_LINE_SYMBOL EmptyString))
      with true. cbv iota.
    rewrite readline_line.
    2: { rewrite all_chars_app. simpl.
         rewrite (all_chars_impl _ _ _ header_char_line_char Hk).
         rewrite (all_chars_impl _ _ _ header_char_line_char Hfv).
         reflexivity. }
    rewrite append_assoc, append_cons. rewrite split_setting by assumption.
    rewrite rstrip_line, Hback.
    rewrite IH; [reflexivity|].
    simpl in Hfuel. rewrite !length_append in Hfuel. simpl in Hfuel.
    rewrite length_append in Hfuel. rewrite length_append. lia.
Qed.

End HeaderLines.

Lemma write_header_render (header header_copy : gmap string value) :
  _copy_and_reformat header GAGGLE_TO_ANKI = Return header_copy ->
  write_header header
  = Return (render (written_items header_copy _ANKI_ORDERED_HEADER)).
Proof.
  intros H. unfold write_header. rewrite H. f_equal.
  generalize _ANKI_ORDERED_HEADER. intros names.
  induction names as [|name names IH]; [reflexivity|].
  cbn [fold_right written_items omap list_omap]. rewrite IH.
  destruct (header_copy !! name) as [[s|z|]|]; reflexivity.
Qed.

(** The header read from the written lines, a setting at a time. *)
Lemma lookup_written_items (header_copy : gmap string value) (k : string)
    (names : list string) :
  forall acc : gmap string value,
    fold_left (fun m kv => <[kv.1 := kv.2]> m) (written_items header_copy names) acc
    !! k
    = match header_copy !! k with
      | Some v => if bool_decide (k ∈ names /\ v <> VNone) then Some v else acc !! k
      | None => acc !! k
      end.
Proof.
  induction names as [|name names IH]; intros acc.
  { unfold written_items. cbn [omap list_omap fold_left].
    destruct (header_copy !! k); [|reflexivity].
    rewrite bool_decide_eq_false_2; [reflexivity|].
    intros [H _]. by apply elem_of_nil in H. }
  assert (Hstep : forall v, header_copy !! k = Some v ->
            bool_decide (k ∈ name :: names /\ v <> VNone)
            = bool_decide (k ∈ names /\ v <> VNone)
              || bool_decide (k = name /\ v <> VNone)).
  { intros v _. apply eq_true_iff_eq.
    rewrite orb_true_iff, !bool_decide_eq_true, elem_of_cons. tauto. }
  unfold written_items. cbn [omap list_omap].
  destruct (header_copy !! name) as [v0|] eqn:Hname.
  2: { fold (written_items header_copy names). rewrite IH.
       destruct (header_copy !! k) as [v|] eqn:Hk; [|reflexivity].
       rewrite (Hstep v eq_refl).
       rewrite (bool_decide_eq_false_2 (k = name /\ _)); [by rewrite orb_false_r|].
       intros [-> _]. congruence. }
  destruct (decide (v0 = VNone)) as [->|Hv0].
  { fold (written_items header_copy names). rewrite IH.
    destruct (header_copy !! k) as [v|] eqn:Hk; [|reflexivity].
    rewrite (Hstep v eq_refl).
    rewrite (bool_decide_eq_false_2 (k = name /\ _)); [by rewrite orb_false_r|].
    intros [-> Hv]. congruence. }
  assert (Hsome : match v0 with
                  | VNone => None
                  | _ => Some (name, v0)
                  end = Some (name, v0)) by (destruct v0; congruence).
  rewrite Hsome. cbn [fold_left]. fold (written_items header_copy names).
  rewrite IH. cbn [fst snd].
  destruct (header_copy !! k) as [v|] eqn:Hk.
  - rewrite (Hstep v eq_refl).
    destruct (bool_decide (k ∈ names /\ v <> VNone)); [reflexivity|]. simpl.
    destruct (decide (k = name)) as [->|Hne].
    + rewrite lookup_insert_eq. rewrite bool_decide_eq_true_2; [congruence|].
      split; [reflexivity | congruence].
    + rewrite lookup_insert_ne by congruence.
      rewrite bool_decide_eq_false_2; [reflexivity | tauto].
  - rewrite lookup_insert_ne; [reflexivity|]. intros ->. congruence.
Qed.

Lemma reverse_mapping_wire (k wk : string) :
  _ANKI_EXPORT_HEADER_MAPPING_REVERSE !! k = Some wk ->
  _ANKI_EXPORT_HEADER_MAPPING !! wk = Some k
  /\ wk ∈ _ANKI_ORDERED_HEADER
  /\ PyStr.all_chars header_char wk = true.
Proof.
  intros H%elem_of_list_to_map_2. simpl in H.
  rewrite !elem_of_cons, elem_of_nil in H.
  unfold _ANKI_ORDERED_HEADER. rewrite !elem_of_cons.
  destruct H as [H|[H|[H|[H|[H|[H|[]]]]]]]; injection H as -> ->;
    (split; [reflexivity | split; [tauto | reflexivity]]).
Qed.

Lemma reverse_mapping_internal (k : string) :
  k ∈ internal_keys -> is_Some (_ANKI_EXPORT_HEADER_MAPPING_REVERSE !! k).
Proof.
  unfold internal_keys. rewrite !elem_of_cons, elem_of_nil.
  intros [H|[H|[H|[H|[H|[H|[]]]]]]]; subst k; by eexists.
Qed.

(** Shifting a plain value by one and back. *)
Lemma transform_plain (v : value) :
  plain v = true ->
  exists v', transform_integer_value v 1 1 = Return v'
             /\ plain v' = true
             /\ transform_integer_value v' (-1) 1 = Return v.
Proof.
  destruct v as [s|z|]; simpl; [| |discriminate]; intros Hv.
  - assert (Hint : PyStr.int s = None).
    { unfold plain_str in Hv. apply andb_prop in Hv as [_ Hv].
      by destruct (PyStr.int s). }
    rewrite Hint. exists (VStr s). simpl. by rewrite Hint.
  - exists (VInt ((z + 1) * 1)). simpl. repeat split. do 2 f_equal. lia.
Qed.

Lemma elem_of_written_items (header_copy : gmap string value) (names : list string)
    (k : string) (v : value) :
  (k, v) ∈ written_items header_copy names ->
  k ∈ names /\ header_copy !! k = Some v /\ v <> VNone.
Proof.
  unfold written_items. intros (name & Hname & H)%list_elem_of_omap.
  destruct (header_copy !! name) as [[s|z|]|] eqn:Hv; simplify_eq; done.
Qed.

(** C4, as stated, fails.  A string value with whitespace at its end is
    read back without it, an integer-like string is read back as an
    integer, and a value with the delimiter in it makes the parse raise. *)
Lemma header_round_trip_fails :
  (write_header {["separator" := VStr " "]}
   = Return (text ["#separator: "])
   /\ parse_header_settings (text ["#separator: "])
      = Return ({["separator" := VStr ""]}, ""))
  /\ (write_header {["has_html" := VStr "1"]}
      = Return (text ["#html:2"])
      /\ parse_header_settings (text ["#html:2"])
         = Return ({["has_html" := VInt 1]}, ""))
  /\ (write_header {["separator" := VStr ":"]}
      = Return (text ["#separator::"])
      /\ parse_header_settings (text ["#separator::"])
         = Raise (ValueError "too many values to unpack (expected 2)")).
Proof. repeat split; vm_compute; reflexivity. Qed.

(** C4, amended. For every header in internal form whose values are
    integers, or strings that are not integer-like, have no whitespace at
    their end and contain neither the delimiter nor a line break:
    [write_header] writes a text, and [parse_header_settings] on that text,
    followed by any content that does not start with the header symbol,
    returns the header, every setting as it was, and leaves the stream at
    the content. *)
Theorem header_round_trip (header : gmap string value) (rest : string) :
  (forall k v, header !! k = Some v -> k ∈ internal_keys /\ plain v = true) ->
  (forall r, rest <> String "#" r) ->
  exists written,
    write_header header = Return written
    /\ parse_header_settings (written ++ rest) = Return (header, rest).
Proof.
  intros Hheader Hrest.
  pose proof (reformat_header_settings_spec header GAGGLE_TO_ANKI) as Hto.
  destruct (reformat_header_settings header GAGGLE_TO_ANKI) as [hc|e] eqn:Hhc.
  2: { destruct Hto as (k & v & Hk & Hbad). exfalso.
       destruct (Hheader k v Hk) as [Hin Hv].
       destruct (reverse_mapping_internal k Hin) as [wk Hwk].
       destruct (transform_plain v Hv) as (v' & Hv' & _).
       simpl in Hbad. destruct Hbad; congruence. }
  destruct Hto as [Hto1 Hto2]. simpl in Hto1, Hto2.
  (* the reformatted copy: wire names, plain values *)
  assert (Hcopy : forall wk v', hc !! wk = Some v' ->
            exists k v, header !! k = Some v
                        /\ _ANKI_EXPORT_HEADER_MAPPING !! wk = Some k
                        /\ wk ∈ _ANKI_ORDERED_HEADER
                        /\ PyStr.all_chars header_char wk = true
                        /\ plain v' = true
                        /\ transform_integer_value v' (-1) 1 = Return v).
  { intros wk v' Hv'. destruct (Hto2 wk v' Hv') as (k & v & Hk & Hm & Ht).
    exists k, v. destruct (reverse_mapping_wire k wk Hm) as (? & ? & ?).
    destruct (Hheader k v Hk) as [_ Hv].
    destruct (transform_plain v Hv) as (v'' & Ht' & ? & ?).
    assert (v'' = v') by congruence. subst v''. done. }
  exists (render (written_items hc _ANKI_ORDERED_HEADER)).
  split; [by apply write_header_render|].
  unfold parse_header_settings, read_header_settings.
  rewrite read_header_loop_render; [|
    | exact Hrest | lia].
  2: { apply Forall_forall. intros [wk v'] (_ & Hv' & _)%elem_of_written_items.
       destruct (Hcopy wk v' Hv') as (k & v & _ & _ & _ & ? & ? & _). done. }
  assert (Hread : fold_left (fun m kv => <[kv.1 := kv.2]> m)
                    (written_items hc _ANKI_ORDERED_HEADER) ∅ = hc).
  { apply map_eq. intros wk. rewrite lookup_written_items.
    destruct (hc !! wk) as [v'|] eqn:Hv'; [|apply lookup_empty].
    destruct (Hcopy wk v' Hv') as (k & v & _ & _ & Hin & _ & Hplain & _).
    rewrite bool_decide_eq_true_2; [reflexivity|].
    split; [exact Hin|]. intros ->. discriminate Hplain. }
  rewrite Hread.
  pose proof (reformat_header_settings_spec hc ANKI_TO_GAGGLE) as Hback.
  destruct (reformat_header_settings hc ANKI_TO_GAGGLE) as [h'|e] eqn:Hh'.
  2: { destruct Hback as (wk & v' & Hv' & Hbad). exfalso.
       destruct (Hcopy wk v' Hv') as (k & v & _ & Hm & _ & _ & _ & Ht).
       simpl in Hbad. destruct Hbad; congruence. }
  destruct Hback as [Hback1 Hback2]. simpl in Hback1, Hback2.
  do 2 f_equal. apply map_eq. intros k.
  destruct (header !! k) as [v|] eqn:Hk.
  - destruct (Hto1 k v Hk) as (wk & v' & Hwk & Ht & Hv').
    destruct (Hback1 wk v' Hv') as (k2 & v2 & Hk2 & Ht2 & Hh2).
    destruct (Hcopy wk v' Hv') as (k0 & v0 & Hk0 & Hm0 & _ & _ & _ & Ht0).
    destruct (reverse_mapping_wire k wk Hwk) as (Hm & _).
    assert (k2 = k) by congruence. assert (k0 = k) by congruence. subst k2 k0.
    rewrite Hh2. congruence.
  - destruct (h' !! k) as [v2|] eqn:Hv2; [exfalso | reflexivity].
    destruct (Hback2 k v2 Hv2) as (wk & v' & Hv' & Hm & _).
    destruct (Hcopy wk v' Hv') as (k0 & v0 & Hk0 & Hm0 & _).
    assert (k0 = k) by congruence. subst k0. congruence.
Qed.

(** C4 amended, for a header with a separator, html and two column
    indexes, in front of one row. *)
Lemma header_round_trip_witness :
  exists written,
    write_header {["separator" := VStr "tab"; "has_html" := VStr "true";
                   "guid_idx" := VInt 0; "tags_idx" := VInt 6]}
    = Return written
    /\ parse_header_settings (written ++ row ["a"; "b"])
       = Return ({["separator" := VStr "tab"; "has_html" := VStr "true";
                   "guid_idx" := VInt 0; "tags_idx" := VInt 6]},
                 row ["a"; "b"]).
Proof.
  apply (header_round_trip
           {["separator" := VStr "tab"; "has_html" := VStr "true";
             "guid_idx" := VInt 0; "tags_idx" := VInt 6]}
           (row ["a"; "b"])).
  - apply (bool_decide_unpack
             (map_Forall (fun k v => k ∈ internal_keys /\ plain v = true)
                ({["separator" := VStr "tab"; "has_html" := VStr "true";
                   "guid_idx" := VInt 0; "tags_idx" := VInt 6]}
                 : gmap string value))).
    vm_compute. exact I.
  - vm_compute. discriminate.
Defined.

Example header_round_trip_text :
  write_header {["separator" := VStr "tab"; "has_html" := VStr "true";
                 "guid_idx" := VInt 0; "tags_idx" := VInt 6]}
  = Return (text ["#separator:tab"; "#html:true"; "#guid column:1";
                  "#tags column:7"]).
Proof. vm_compute. reflexivity. Qed.

(** ** Evaluations *)

Example str_examples :
  PyStr.str 0 = "0" /\ PyStr.str 42 = "42" /\ PyStr.str (-12) = "-12".
Proof. repeat split; reflexivity. Qed.

Example int_examples :
  PyStr.int " 1_000 " = Some 1000
  /\ PyStr.int "-07" = Some (-7)
  /\ PyStr.int "+5" = Some 5
  /\ PyStr.int "1__0" = None
  /\ PyStr.int "_1" = None
  /\ PyStr.int "1_" = None
  /\ PyStr.int "- 5" = None
  /\ PyStr.int "tab" = None
  /\ PyStr.int "" = None.
Proof. repeat split; reflexivity. Qed.

Example split_examples :
  PyStr.split ":" "separator:tab" = ["separator"; "tab"]
  /\ PyStr.split ":" "a::" = ["a"; ""; ""]
  /\ PyStr.split ":" "" = [""].
Proof. repeat split; reflexivity. Qed.

Example reader_quoted_field :
  Csv.reader_excel_tab
    (text [row ["a"; String QUOTE ("b" ++ String TAB ("c" ++ String QUOTE ""))];
           ""; "d"])
  = ([["a"; "b" ++ String TAB "c"]; []; ["d"]], None).
Proof. vm_compute. reflexivity. Qed.

Example reader_line_endings :
  Csv.reader_excel_tab
    (row ["a"; "b"] ++ String CR (String LF (row ["c"; ""])))
  = ([["a"; "b"]; ["c"; ""]], None).
Proof. vm_compute. reflexivity. Qed.

(** The deck of the test fixture: six header lines and rows of seven
    fields. *)
Example well_formed_deck :
  _parse_anki_export Csv.reader_excel_tab
    (text ["#separator:tab"; "#html:true"; "#guid column:1";
           "#notetype column:2"; "#deck column:3"; "#tags column:7";
           row ["f0"; "f1"; "f2"; "f3"; "f4"; "f5"; "f6"]]) None
  = ([], Return
           ({["separator" := VStr "tab"; "has_html" := VStr "true";
              "guid_idx" := VInt 0; "note_type_idx" := VInt 1;
              "deck_idx" := VInt 2; "tags_idx" := VInt 6]},
            [ {| has_html := true;
                 fields := [("GUID", "f0"); ("Note Type", "f1"); ("Deck", "f2");
                            ("Field3", "f3"); ("Field4", "f4"); ("Field5", "f5");
                            ("Tags", "f6")] |} ])).
Proof. vm_compute. reflexivity. Qed.


(** * Further properties *)

(** ** The decorator of the resolver *)

Lemma slot_capture (g : generated) :
  forall (recorded : list warning) (i : nat) (ws : list warning) (n : string),
    slot i (capture_and_raise_warnings recorded g) = Some (ws, n) -> ws = [].
Proof.
  induction g as [ws0|ws0 e|ws0 n0 rest IH]; intros recorded i ws n;
    destruct i as [|i]; simpl; try discriminate.
  - congruence.
  - apply IH.
Qed.

(** X1. [propagate_warnings_from_generator] leaves the yielded names and the
    exception of the wrapped generator as they are; no warning is emitted
    before the generator has returned; all its warnings are emitted then, in
    their order, and none at all when it raises. *)
Theorem warnings_are_propagated_on_return (g : generated) :
  names_of (capture_and_raise_warnings [] g) = names_of g
  /\ raised (capture_and_raise_warnings [] g) = raised g
  /\ (forall i ws n,
        slot i (capture_and_raise_warnings [] g) = Some (ws, n) -> ws = [])
  /\ warnings_of (capture_and_raise_warnings [] g)
     = match raised g with
       | None => warnings_of g
       | Some _ => []
       end.
Proof.
  split; [apply names_of_capture|]. split; [apply raised_capture|].
  split; [apply slot_capture|]. by rewrite warnings_of_capture.
Qed.

(** ** Cards: errors, values and accessors *)

Lemma names_of_slot (g : generated) :
  forall i : nat, names_of g !! i = snd <$> slot i g.
Proof.
  induction g as [ws|ws e|ws n rest IH]; intros [|i]; simpl; try reflexivity.
  apply IH.
Qed.

Lemma od_get_lookup (d : OrderedDict) :
  NoDup d.*1 ->
  forall (i : nat) (k v : string), d !! i = Some (k, v) -> od_get k d = Return v.
Proof.
  induction d as [|[k' v'] d IH]; intros Hnd i k v Hi; [discriminate|].
  apply NoDup_cons in Hnd as [Hk' Hnd]. simpl.
  destruct i as [|i]; simpl in Hi.
  - injection Hi as -> ->. by rewrite String.eqb_refl.
  - destruct (String.eqb_spec k k') as [->|_]; [|by eapply IH].
    exfalso. apply Hk'. apply list_elem_of_fmap. exists (k', v).
    split; [reflexivity|]. by eapply list_elem_of_lookup_2.
Qed.

Lemma od_get_missing (d : OrderedDict) (k : string) :
  k ∉ d.*1 -> od_get k d = Raise (KeyError k).
Proof.
  induction d as [|[k' v'] d IH]; intros Hk; simpl; [reflexivity|].
  apply not_elem_of_cons in Hk as [Hne Hk].
  destruct (String.eqb_spec k k') as [->|_]; [contradiction | by apply IH].
Qed.

(** Where a yielded name comes from: it is new to [seen_names], or it is
    the reserved name of one of the slots. *)
Lemma names_of_origin (reserved : gmap Z string) (fields : list string) :
  forall count field_names seen n,
    n ∈ names_of (generate_from count field_names fields reserved seen) ->
    n ∉ seen
    \/ exists i, (count <= i < count + length fields)%nat
                 /\ reserved !! Z.of_nat i = Some n.
Proof.
  induction fields as [|field fields IH]; intros count field_names seen n.
  { rewrite generate_from_nil. by intros ?%elem_of_nil. }
  destruct (generate_from_cons reserved count field_names field fields seen)
    as [(ws & _ & _ & ->) | [(ws & r & Hr & ->)
        | [(ws & m & _ & Hm & _ & ->) | (r & m & _ & _ & _ & _ & ->)]]];
    simpl; [| | | by intros ?%elem_of_nil].
  - by intros ?%elem_of_nil.
  - intros [->|Hn]%elem_of_cons.
    + right. exists count. split; [lia | exact Hr].
    + destruct (IH _ _ _ _ Hn) as [?|(i & Hi & ?)]; [by left | right].
      exists i. split; [lia | done].
  - intros [->|Hn]%elem_of_cons; [by left|].
    destruct (IH _ _ _ _ Hn) as [Hnew|(i & Hi & ?)].
    + left. set_solver.
    + right. exists i. split; [lia | done].
Qed.

(** X2. The constructor of a card raises in four ways only, and emits no
    warning when it raises: the [ValueError] of [_parse_anki_header_bool],
    the [ValueError] of a slot whose default name is claimed, the
    [TypeError] of the leftover names when there are more names than
    fields, and the [AttributeError] of a reserved column whose candidate
    is non-empty and another name than the reserved one.  The [ValueError]
    of [zip(..., strict=True)] is never raised. *)
Theorem card_errors (fields : list string) (field_names : option (list string))
    (hh tags_idx note_type_idx deck_idx guid_idx : value)
    (ws : list warning) (e : exn) :
  AnkiCard_init fields field_names hh tags_idx note_type_idx deck_idx guid_idx
  = (ws, Raise e) ->
  ws = []
  /\ (e = ValueError ("Expected true or false but instead got " ++ format hh)
      \/ (exists k, (k < length fields)%nat /\ e = default_name_error k)
      \/ ((length fields < length (default [] field_names))%nat
          /\ e = leftover_type_error)
      \/ (exists i reserved_name name,
            (i < length fields)%nat
            /\ reserved_mapping [tags_idx; deck_idx; note_type_idx; guid_idx]
                 reserved_names !! Z.of_nat i = Some reserved_name
            /\ default [] field_names !! i = Some name
            /\ name <> "" /\ name <> reserved_name
            /\ e = mismatch_attribute_error)).
Proof.
  destruct (_parse_anki_header_bool hh) as [b|e'] eqn:Hb.
  - rewrite (AnkiCard_init_spec _ _ _ _ _ _ _ _ Hb). cbv zeta.
    destruct (raised _) as [e'|] eqn:Hr; [|discriminate].
    intros [= <- <-]. split; [reflexivity|]. right.
    apply raised_cases in Hr
      as [(k & Hk & ->) | [[Hl ->] | (i & r & name & Hi & Hr & Hn & Hne & Hd & ->)]];
      [left | right; left; auto | right; right].
    + exists k. split; [lia | reflexivity].
    + exists i, r, name. done.
  - unfold AnkiCard_init. rewrite Hb. simpl. intros [= <- <-].
    split; [reflexivity|]. left.
    unfold _parse_anki_header_bool in Hb.
    repeat case_bool_decide; congruence.
Qed.

Lemma card_errors_witness :
  [] = @nil warning
  /\ (mismatch_attribute_error
      = ValueError ("Expected true or false but instead got " ++ format (VStr "true"))
      \/ (exists k, (k < length ["a"; "b"])%nat
                    /\ mismatch_attribute_error = default_name_error k)
      \/ ((length ["a"; "b"] < length (default [] (Some ["Front"])))%nat
          /\ mismatch_attribute_error = leftover_type_error)
      \/ (exists i reserved_name name,
            (i < length ["a"; "b"])%nat
            /\ reserved_mapping [VNone; VNone; VNone; VInt 0] reserved_names
               !! Z.of_nat i = Some reserved_name
            /\ default [] (Some ["Front"]) !! i = Some name
            /\ name <> "" /\ name <> reserved_name
            /\ mismatch_attribute_error = mismatch_attribute_error)).
Proof.
  apply (card_errors ["a"; "b"] (Some ["Front"]) (VStr "true")
           VNone VNone VNone (VInt 0)).
  vm_compute. reflexivity.
Defined.

(** The four ways, run. *)
Example card_errors_run :
  (AnkiCard_init ["a"; "b"] None (VStr "yes") VNone VNone VNone VNone).2
  = Raise (ValueError "Expected true or false but instead got yes")
  /\ (AnkiCard_init ["a"; "b"] (Some ["Field1"]) (VStr "true")
        VNone VNone VNone VNone).2
     = Raise (default_name_error 1)
  /\ (AnkiCard_init ["a"; "b"] (Some ["A"; "B"; "C"]) (VStr "true")
        VNone VNone VNone VNone).2
     = Raise leftover_type_error
  /\ (AnkiCard_init ["a"; "b"] (Some ["Front"]) (VStr "true")
        VNone VNone VNone (VInt 0)).2
     = Raise mismatch_attribute_error.
Proof. repeat split; vm_compute; reflexivity. Qed.

(** X3. A card that is constructed keeps every field: [as_str_list] is the
    list of the fields it was given, in their order; there is one name a
    field, no name twice, and [get_field] of the name of a column is the
    value of that column. *)
Theorem card_keeps_fields (row_fields : list string)
    (field_names : option (list string))
    (hh tags_idx note_type_idx deck_idx guid_idx : value)
    (ws : list warning) (card : AnkiCard) :
  AnkiCard_init row_fields field_names hh tags_idx note_type_idx deck_idx guid_idx
  = (ws, Return card) ->
  as_str_list card = row_fields
  /\ length (field_names_of card) = length row_fields
  /\ NoDup (field_names_of card)
  /\ (forall (i : nat) (name v : string),
        field_names_of card !! i = Some name -> row_fields !! i = Some v ->
        get_field card name = Return v).
Proof.
  intros H. pose proof (AnkiCard_init_names _ _ _ _ _ _ _ _ _ H)
    as (_ & Hr & Hnames & Hvalues & Hnd).
  split; [exact Hvalues|]. split.
  { rewrite Hnames. by apply names_of_length. }
  split; [exact Hnd|].
  intros i name v Hname Hv. unfold get_field.
  apply (od_get_lookup _ Hnd i).
  unfold field_names_of, as_str_list in *.
  rewrite <- Hvalues in Hv.
  change (map fst ?l) with (l.*1) in Hname. change (map snd ?l) with (l.*2) in Hv.
  apply list_lookup_fmap_Some in Hname as ([k x] & -> & Hk).
  apply list_lookup_fmap_Some in Hv as ([k' x'] & -> & Hk').
  rewrite Hk in Hk'. by injection Hk' as <- <-.
Qed.

Lemma card_keeps_fields_witness :
  as_str_list {| has_html := false; fields := [("Front", "a"); ("Field1", "b")] |}
  = ["a"; "b"]
  /\ length (field_names_of
               {| has_html := false; fields := [("Front", "a"); ("Field1", "b")] |})
     = length ["a"; "b"]
  /\ NoDup (field_names_of
              {| has_html := false; fields := [("Front", "a"); ("Field1", "b")] |})
  /\ (forall (i : nat) (name v : string),
        field_names_of
          {| has_html := false; fields := [("Front", "a"); ("Field1", "b")] |}
        !! i = Some name ->
        ["a"; "b"] !! i = Some v ->
        get_field
          {| has_html := false; fields := [("Front", "a"); ("Field1", "b")] |}
          name = Return v).
Proof.
  apply (card_keeps_fields ["a"; "b"] (Some ["Front"]) (VStr "false")
           VNone VNone VNone VNone []).
  vm_compute. reflexivity.
Defined.

Lemma generate_from_no_names (reserved : gmap Z string) (field_values : list string) :
  forall count seen,
    raised (generate_from count [] field_values reserved seen) = None ->
    generate_from count [] field_values reserved seen
    = yields (positional_name reserved <$> seq count (length field_values)).
Proof.
  induction field_values as [|field field_values IH]; intros count seen;
    [reflexivity|].
  cbn [length seq fmap list_fmap yields fold_right].
  fold (yields (positional_name reserved <$> seq (S count) (length field_values))).
  assert (Hname : positional_name reserved count
                  = match reserved !! Z.of_nat count with
                    | Some reserved_name => reserved_name
                    | None => default_name count
                    end) by reflexivity.
  rewrite Hname. clear Hname.
  destruct (reserved !! Z.of_nat count) as [r|] eqn:Hr.
  - rewrite (generate_from_reserved _ _ _ _ _ _ _ Hr). simpl.
    intros H. by rewrite IH.
  - rewrite (generate_from_default _ _ _ _ _ _ Hr) by (by left). simpl.
    destruct (bool_decide _); [discriminate|]. simpl.
    intros H. by rewrite IH.
Qed.

(** X4. A card constructed without field names, whatever its column
    indexes: the constructor raises nothing past the check of [has_html] and
    emits no warning; column [i] is named by the reserved name of index [i]
    when there is one and [Field{i}] otherwise. *)
Theorem card_without_field_names (row_fields : list string)
    (hh tags_idx note_type_idx deck_idx guid_idx : value) (b : bool) :
  _parse_anki_header_bool hh = Return b ->
  AnkiCard_init row_fields None hh tags_idx note_type_idx deck_idx guid_idx
  = ([], Return
           {| has_html := b;
              fields :=
                zip (positional_name
                       (reserved_mapping
                          [tags_idx; deck_idx; note_type_idx; guid_idx]
                          reserved_names)
                     <$> seq 0 (length row_fields))
                    row_fields |}).
Proof.
  intros Hb. rewrite (AnkiCard_init_spec _ _ _ _ _ _ _ _ Hb). cbv zeta. simpl.
  assert (Hr : raised (generate_from 0 [] row_fields
                         (reserved_mapping
                            [tags_idx; deck_idx; note_type_idx; guid_idx]
                            reserved_names) reserved_name_set) = None).
  { apply (raised_none _ [] (length row_fields)); try done.
    - intros k _ H. by apply elem_of_nil in H.
    - simpl. lia.
    - intros x Hx. by left. }
  rewrite Hr, (generate_from_no_names _ _ _ _ Hr).
  generalize (positional_name
                (reserved_mapping [tags_idx; deck_idx; note_type_idx; guid_idx]
                   reserved_names) <$> seq 0 (length row_fields)).
  intros names. do 3 f_equal.
  - induction names as [|n names IH]; simpl; [reflexivity | exact IH].
  - f_equal. induction names as [|n names IH]; simpl; [reflexivity | by rewrite IH].
Qed.

Lemma card_without_field_names_witness :
  AnkiCard_init ["a"; "b"; "c"] None (VStr "true") VNone VNone (VInt 1) VNone
  = ([], Return
           {| has_html := true;
              fields :=
                zip (positional_name
                       (reserved_mapping [VNone; VInt 1; VNone; VNone]
                          reserved_names)
                     <$> seq 0 (length ["a"; "b"; "c"]))
                    ["a"; "b"; "c"] |}).
Proof.
  apply (card_without_field_names ["a"; "b"; "c"] (VStr "true")
           VNone VNone (VInt 1) VNone true).
  reflexivity.
Defined.

Example card_without_field_names_run :
  (AnkiCard_init ["a"; "b"; "c"] None (VStr "true") VNone VNone (VInt 1) VNone).2
  = Return {| has_html := true;
              fields := [("Field0", "a"); ("Deck", "b"); ("Field2", "c")] |}.
Proof. vm_compute. reflexivity. Qed.

Lemma reserved_mapping_guid (tags_idx deck_idx note_type_idx : value) (z : Z) :
  reserved_mapping [tags_idx; deck_idx; note_type_idx; VInt z] reserved_names !! z
  = Some "GUID".
Proof.
  unfold reserved_mapping, reserved_names. simpl.
  destruct tags_idx, deck_idx, note_type_idx; apply lookup_insert_eq.
Qed.

(** X5. The accessors of the reserved fields: in a card that is
    constructed, when an index within the row is mapped to a reserved name,
    [get_field] of that name (the properties [tags], [deck_name],
    [note_type], [guid]) is the value of that column.  The guid index is
    always mapped to "GUID": of several reserved fields declared on one
    index, the last of tags, deck, note type and guid has the column. *)
Theorem reserved_accessor_reads_its_column :
  (forall (row_fields : list string) (field_names : option (list string))
          (hh tags_idx note_type_idx deck_idx guid_idx : value)
          (ws : list warning) (card : AnkiCard)
          (i : nat) (reserved_name v : string),
      AnkiCard_init row_fields field_names hh tags_idx note_type_idx deck_idx
        guid_idx = (ws, Return card) ->
      reserved_mapping [tags_idx; deck_idx; note_type_idx; guid_idx] reserved_names
      !! Z.of_nat i = Some reserved_name ->
      row_fields !! i = Some v ->
      get_field card reserved_name = Return v)
  /\ (forall (tags_idx deck_idx note_type_idx : value) (z : Z),
        reserved_mapping [tags_idx; deck_idx; note_type_idx; VInt z] reserved_names
        !! z = Some "GUID").
Proof.
  split; [|apply reserved_mapping_guid].
  intros row_fields field_names hh t n d g ws card i r v H Hr Hv.
  pose proof (AnkiCard_init_names _ _ _ _ _ _ _ _ _ H)
    as (_ & Hraised & Hnames & Hvalues & Hnd).
  assert (Hlen : length (names_of
                           (generate_from 0 (default [] field_names) row_fields
                              (reserved_mapping [t; d; n; g] reserved_names)
                              reserved_name_set)) = length row_fields)
    by (by apply names_of_length).
  assert (Hi : (i < length row_fields)%nat) by (by eapply lookup_lt_Some).
  destruct (lookup_lt_is_Some_2
              (names_of (generate_from 0 (default [] field_names) row_fields
                           (reserved_mapping [t; d; n; g] reserved_names)
                           reserved_name_set)) i) as [name Hname]; [lia|].
  pose proof Hname as Hslot. rewrite names_of_slot in Hslot.
  destruct (slot i _) as [[ws' name']|] eqn:Hs; [|discriminate Hslot].
  injection Hslot as ->.
  pose proof (slot_generate_from _ _ _ _ _ _ _ _ Hs) as Hpos.
  rewrite Nat.add_0_l, Hr in Hpos. subst name.
  unfold get_field. apply (od_get_lookup _ Hnd i).
  unfold field_names_of, as_str_list in *.
  change (map fst ?l) with (l.*1) in Hnames. change (map snd ?l) with (l.*2) in Hvalues.
  rewrite <- Hnames in Hname. rewrite <- Hvalues in Hv.
  apply list_lookup_fmap_Some in Hname as ([k x] & -> & Hk).
  apply list_lookup_fmap_Some in Hv as ([k' x'] & -> & Hk').
  rewrite Hk in Hk'. by injection Hk' as <- <-.
Qed.

Lemma reserved_accessor_reads_its_column_witness :
  get_field {| has_html := false; fields := [("GUID", "a"); ("Back", "b")] |}
    "GUID" = Return "a".
Proof.
  apply (proj1 reserved_accessor_reads_its_column ["a"; "b"] (Some [""; "Back"])
           (VStr "false") VNone VNone VNone (VInt 0)
           [] _ 0%nat "GUID" "a").
  - vm_compute. reflexivity.
  - vm_compute. reflexivity.
  - reflexivity.
Defined.

(** X6. A reserved name that no index within the row is mapped to names no
    column: [get_field] of it raises [KeyError], also when the candidate
    names contain the reserved name (a candidate that is a reserved name is
    a duplicate and is replaced). *)
Theorem reserved_name_is_not_assigned_by_candidates
    (row_fields : list string) (field_names : option (list string))
    (hh tags_idx note_type_idx deck_idx guid_idx : value)
    (ws : list warning) (card : AnkiCard) (reserved_name : string) :
  AnkiCard_init row_fields field_names hh tags_idx note_type_idx deck_idx guid_idx
  = (ws, Return card) ->
  reserved_name ∈ reserved_names ->
  (forall i, (i < length row_fields)%nat ->
     reserved_mapping [tags_idx; deck_idx; note_type_idx; guid_idx] reserved_names
     !! Z.of_nat i <> Some reserved_name) ->
  get_field card reserved_name = Raise (KeyError reserved_name).
Proof.
  intros H Hin Hfree.
  pose proof (AnkiCard_init_names _ _ _ _ _ _ _ _ _ H)
    as (_ & _ & Hnames & _ & _).
  unfold get_field. apply od_get_missing.
  unfold field_names_of in Hnames. change (map fst ?l) with (l.*1) in Hnames.
  rewrite Hnames. intros Hn.
  apply names_of_origin in Hn as [Hnew | (i & Hi & Hr)].
  - apply Hnew. unfold reserved_name_set. by apply elem_of_list_to_set.
  - apply (Hfree i); [lia | exact Hr].
Qed.

Lemma reserved_name_is_not_assigned_by_candidates_witness :
  get_field {| has_html := false; fields := [("Field0", "a"); ("Field1", "b")] |}
    "GUID" = Raise (KeyError "GUID").
Proof.
  apply (reserved_name_is_not_assigned_by_candidates ["a"; "b"] (Some ["GUID"])
           (VStr "false") VNone VNone VNone VNone
           [DuplicateWarning "field name" "GUID" "Field0"]).
  - vm_compute. reflexivity.
  - unfold reserved_names. set_solver.
  - intros i _. vm_compute. discriminate.
Defined.

Lemma generate_from_fresh_names (reserved : gmap Z string) (candidates : list string) :
  forall (count : nat) (field_values : list string) (seen : gset string),
    length candidates = length field_values ->
    NoDup candidates ->
    (forall c, c ∈ candidates -> c <> "" /\ c ∉ seen) ->
    (forall i, (count <= i < count + length field_values)%nat ->
       reserved !! Z.of_nat i = None) ->
    generate_from count candidates field_values reserved seen = yields candidates.
Proof.
  induction candidates as [|c candidates IH];
    intros count [|field field_values] seen Hlen Hnd Hc Hfree;
    try discriminate Hlen; [reflexivity|].
  apply NoDup_cons in Hnd as [Hc' Hnd].
  destruct (Hc c) as [Hne Hnew]; [by left|].
  rewrite generate_from_candidate; [| apply Hfree; simpl; lia | done | done].
  cbn [yields fold_right]. f_equal. apply IH.
  - by injection Hlen.
  - exact Hnd.
  - intros x Hx. destruct (Hc x) as [? ?]; [by right|]. split; [done|].
    intros [->%elem_of_singleton | ?]%elem_of_union; done.
  - intros i Hi. apply Hfree. simpl. lia.
Qed.

Lemma yields_spec (names : list string) :
  raised (yields names) = None
  /\ warnings_of (yields names) = []
  /\ names_of (yields names) = names.
Proof.
  induction names as [|n names (Hr & Hw & Hn)]; simpl; [done|].
  by rewrite Hr, Hw, Hn.
Qed.

(** X7. Candidate names that are one a field, non-empty, all different and
    not reserved are used as they are, when no reserved index lies within
    the row: the card is constructed without a warning and its names are
    the candidates, also when one of them has the form of a default name. *)
Theorem fresh_field_names_are_used (row_fields field_names : list string)
    (hh tags_idx note_type_idx deck_idx guid_idx : value) (b : bool) :
  _parse_anki_header_bool hh = Return b ->
  length field_names = length row_fields ->
  NoDup field_names ->
  (forall c, c ∈ field_names -> c <> "" /\ c ∉ reserved_names) ->
  (forall i, (i < length row_fields)%nat ->
     reserved_mapping [tags_idx; deck_idx; note_type_idx; guid_idx] reserved_names
     !! Z.of_nat i = None) ->
  AnkiCard_init row_fields (Some field_names) hh tags_idx note_type_idx deck_idx
    guid_idx
  = ([], Return {| has_html := b; fields := zip field_names row_fields |}).
Proof.
  intros Hb Hlen Hnd Hc Hfree.
  rewrite (AnkiCard_init_spec _ _ _ _ _ _ _ _ Hb). cbv zeta. simpl.
  rewrite generate_from_fresh_names; try done.
  - destruct (yields_spec field_names) as (-> & -> & ->). reflexivity.
  - intros c Hin. destruct (Hc c Hin) as [? Hres]. split; [done|].
    intros Hset. apply Hres. unfold reserved_name_set in Hset.
    by apply elem_of_list_to_set in Hset.
  - intros i Hi. apply Hfree. lia.
Qed.

Lemma fresh_field_names_are_used_witness :
  AnkiCard_init ["a"; "b"] (Some ["Front"; "Field7"]) (VStr "false")
    VNone VNone VNone VNone
  = ([], Return {| has_html := false;
                   fields := zip ["Front"; "Field7"] ["a"; "b"] |}).
Proof.
  apply (fresh_field_names_are_used ["a"; "b"] ["Front"; "Field7"] (VStr "false")
           VNone VNone VNone VNone false).
  - reflexivity.
  - reflexivity.
  - apply (bool_decide_unpack (NoDup ["Front"; "Field7"])). vm_compute. exact I.
  - intros c Hc. apply (bool_decide_unpack (c <> "" /\ c ∉ reserved_names)).
    rewrite !elem_of_cons, elem_of_nil in Hc.
    destruct Hc as [->|[->|[]]]; vm_compute; exact I.
  - intros i _. vm_compute. reflexivity.
Defined.

(** ** Reading headers *)

Lemma fold_left_insert_list_to_map (items : list (string * value)) :
  forall acc : gmap string value,
    fold_left (fun m kv => <[kv.1 := kv.2]> m) items acc
    = list_to_map (reverse items) ∪ acc.
Proof.
  induction items as [|[k v] items IH]; intros acc; simpl.
  { by rewrite (left_id_L ∅ (∪)). }
  rewrite IH, reverse_cons, list_to_map_app. simpl.
  rewrite <- (assoc_L (∪)). f_equal.
  rewrite insert_empty. by rewrite <- insert_union_singleton_l.
Qed.

(** X8. [read_header_settings] reads the header lines in whatever order
    they come, a setting given twice keeping its last value; an integer is
    read as an [int], any other value as the [str] it is; the stream is left
    at the content that follows, which does not start with the header
    symbol. *)
Theorem header_lines_are_read_in_order (items : list (string * value))
    (rest : string) :
  Forall (fun kv => PyStr.all_chars header_char kv.1 = true
                    /\ plain kv.2 = true) items ->
  (forall r, rest <> String "#" r) ->
  read_header_settings (render items ++ rest)
  = Return (list_to_map (reverse items), rest).
Proof.
  intros Hitems Hrest. unfold read_header_settings.
  rewrite read_header_loop_render by (done || lia).
  by rewrite fold_left_insert_list_to_map, (right_id_L ∅ (∪)).
Qed.

Lemma header_lines_are_read_in_order_witness :
  read_header_settings
    (render [("html", VStr "false"); ("guid column", VInt 1);
             ("html", VStr "true")] ++ row ["a"; "b"])
  = Return (list_to_map (reverse [("html", VStr "false"); ("guid column", VInt 1);
                                  ("html", VStr "true")]),
            row ["a"; "b"]).
Proof.
  apply (header_lines_are_read_in_order
           [("html", VStr "false"); ("guid column", VInt 1); ("html", VStr "true")]
           (row ["a"; "b"])).
  - repeat constructor.
  - vm_compute. discriminate.
Defined.

Lemma split_cons_setting (setting s : string) :
  PyStr.all_chars header_char setting = true ->
  PyStr.split ":" (setting ++ String ":" s) = setting :: PyStr.split ":" s.
Proof.
  intros Hsetting. induction setting as [|c setting IH].
  - rewrite append_nil. reflexivity.
  - simpl in Hsetting. apply andb_prop in Hsetting as [Hc Hs].
    rewrite append_cons. simpl.
    destruct (header_char_spec c Hc) as (-> & _ & _).
    by rewrite (IH Hs).
Qed.

Lemma split_not_nil (sep : ascii) (s : string) : PyStr.split sep s <> [].
Proof.
  destruct s as [|c s]; simpl; [discriminate|].
  destruct (Ascii.eqb c sep); [discriminate|].
  destruct (PyStr.split sep s); discriminate.
Qed.

(** X9. A header line without the delimiter, or with more than one, is not
    parsed: unpacking the split line raises [ValueError]. *)
Theorem malformed_header_line_raises :
  (forall line rest : string,
      PyStr.all_chars header_char line = true ->
      parse_header_settings (String "#" (line ++ String LF rest))
      = Raise (ValueError "not enough values to unpack (expected 2, got 1)"))
  /\ (forall setting v more rest : string,
        PyStr.all_chars header_char setting = true ->
        PyStr.all_chars header_char v = true ->
        PyStr.all_chars line_char more = true ->
        parse_header_settings
          (String "#" (setting ++ String ":" (v ++ String ":" (more ++ String LF rest))))
        = Raise (ValueError "too many values to unpack (expected 2)")).
Proof.
  split.
  - intros line rest Hline.
    unfold parse_header_settings, read_header_settings.
    cbn [read_header_loop read1].
    change (String.eqb "#" (String _ANKI_EXPORT_HEADER_LINE_SYMBOL EmptyString))
      with true. cbv iota.
    rewrite readline_line
      by (eapply all_chars_impl; [apply header_char_line_char | exact Hline]).
    by rewrite split_plain.
  - intros setting v more rest Hsetting Hv Hmore.
    unfold parse_header_settings, read_header_settings.
    cbn [read_header_loop read1].
    change (String.eqb "#" (String _ANKI_EXPORT_HEADER_LINE_SYMBOL EmptyString))
      with true. cbv iota.
    replace (setting ++ String ":" (v ++ String ":" (more ++ String LF rest)))
      with ((setting ++ String ":" (v ++ String ":" more)) ++ String LF rest).
    2: { rewrite !append_assoc, !append_cons, !append_assoc, !append_cons.
         reflexivity. }
    rewrite readline_line.
    2: { rewrite all_chars_app. simpl. rewrite all_chars_app. simpl.
         rewrite (all_chars_impl _ _ _ header_char_line_char Hsetting).
         rewrite (all_chars_impl _ _ _ header_char_line_char Hv).
         by rewrite Hmore. }
    rewrite !append_assoc, !append_cons, !append_assoc, !append_cons.
    rewrite !split_cons_setting by assumption.
    pose proof (split_not_nil ":" (more ++ String LF "")) as Hnil.
    destruct (PyStr.split ":" (more ++ String LF "")); [contradiction | reflexivity].
Qed.

Lemma malformed_header_line_raises_witness :
  parse_header_settings (String "#" ("separator tab" ++ String LF "a"))
  = Raise (ValueError "not enough values to unpack (expected 2, got 1)").
Proof.
  apply (proj1 malformed_header_line_raises "separator tab" "a").
  reflexivity.
Defined.

(** ** Reformatting there and back *)

Lemma mapping_reverse (a b : string) :
  _ANKI_EXPORT_HEADER_MAPPING !! a = Some b ->
  _ANKI_EXPORT_HEADER_MAPPING_REVERSE !! b = Some a
  /\ PyStr.all_chars header_char a = true.
Proof.
  intros H%elem_of_list_to_map_2.
  unfold _ANKI_EXPORT_HEADER_MAPPING_items in H.
  rewrite !elem_of_cons, elem_of_nil in H.
  destruct H as [H|[H|[H|[H|[H|[H|[]]]]]]]; injection H as -> ->;
    (split; reflexivity).
Qed.

Lemma transform_castless (v : value) (t t' : Z) :
  t + t' = 0 ->
  castless v = true ->
  exists v', transform_integer_value v t 1 = Return v'
             /\ castless v' = true
             /\ transform_integer_value v' t' 1 = Return v.
Proof.
  intros Ht. destruct v as [s|z|]; simpl; [| |discriminate]; intros Hv.
  - destruct (PyStr.int s) eqn:Hint; [discriminate|].
    exists (VStr s). simpl. by rewrite Hint.
  - exists (VInt ((z + t) * 1)). simpl. repeat split. do 2 f_equal. lia.
Qed.

Lemma reformat_there_and_back (d d' : ReformatDirection)
    (header : gmap string value) :
  _DIRECTION_TRANSLATION_VALUE d + _DIRECTION_TRANSLATION_VALUE d' = 0 ->
  (forall a b, _DIRECTION_MAPPING d !! a = Some b ->
               _DIRECTION_MAPPING d' !! b = Some a) ->
  (forall k v, header !! k = Some v ->
     is_Some (_DIRECTION_MAPPING d !! k) /\ castless v = true) ->
  exists reformatted,
    reformat_header_settings header d = Return reformatted
    /\ reformat_header_settings reformatted d' = Return header.
Proof.
  intros Ht Hinv Hheader.
  pose proof (reformat_header_settings_spec header d) as Hto.
  destruct (reformat_header_settings header d) as [hc|e] eqn:Hhc.
  2: { destruct Hto as (k & v & Hk & Hbad). exfalso.
       destruct (Hheader k v Hk) as [[wk Hwk] Hv].
       destruct (transform_castless v _ _ Ht Hv) as (v' & Hv' & _).
       destruct Hbad; congruence. }
  destruct Hto as [Hto1 Hto2]. exists hc. split; [reflexivity|].
  assert (Hcopy : forall wk v', hc !! wk = Some v' ->
            exists k v, header !! k = Some v
                        /\ _DIRECTION_MAPPING d' !! wk = Some k
                        /\ transform_integer_value v'
                             (_DIRECTION_TRANSLATION_VALUE d') 1 = Return v).
  { intros wk v' Hv'. destruct (Hto2 wk v' Hv') as (k & v & Hk & Hm & Htr).
    exists k, v. destruct (Hheader k v Hk) as [_ Hv].
    destruct (transform_castless v _ _ Ht Hv) as (v'' & Ht' & _ & ?).
    assert (v'' = v') by congruence. subst v''. auto. }
  pose proof (reformat_header_settings_spec hc d') as Hback.
  destruct (reformat_header_settings hc d') as [h'|e] eqn:Hh'.
  2: { destruct Hback as (wk & v' & Hv' & Hbad). exfalso.
       destruct (Hcopy wk v' Hv') as (k & v & _ & Hm & Htr).
       destruct Hbad; congruence. }
  destruct Hback as [Hback1 Hback2].
  f_equal. apply map_eq. intros k.
  destruct (header !! k) as [v|] eqn:Hk.
  - destruct (Hto1 k v Hk) as (wk & v' & Hwk & Htr & Hv').
    destruct (Hback1 wk v' Hv') as (k2 & v2 & Hk2 & Ht2 & Hh2).
    destruct (Hcopy wk v' Hv') as (k0 & v0 & Hk0 & Hm0 & Ht0).
    pose proof (Hinv _ _ Hwk) as Hm.
    assert (k2 = k) by congruence. assert (k0 = k) by congruence. subst k2 k0.
    rewrite Hh2. congruence.
  - destruct (h' !! k) as [v2|] eqn:Hv2; [exfalso | reflexivity].
    destruct (Hback2 k v2 Hv2) as (wk & v' & Hv' & Hm & _).
    destruct (Hcopy wk v' Hv') as (k0 & v0 & Hk0 & Hm0 & _).
    assert (k0 = k) by congruence. subst k0. congruence.
Qed.

(** X10. The two directions of [reformat_header_settings] undo each other
    on a header whose keys belong to the naming style it is in and whose
    values are integers or strings that are not integer-like: the keys are
    translated there and back, the column indexes shifted by one and
    back. *)
Theorem reformat_directions_are_inverse (header : gmap string value) :
  (forall k v, header !! k = Some v -> castless v = true) ->
  ((forall k, is_Some (header !! k) -> k ∈ internal_keys) ->
   exists wire,
     reformat_header_settings header GAGGLE_TO_ANKI = Return wire
     /\ reformat_header_settings wire ANKI_TO_GAGGLE = Return header)
  /\ ((forall k, is_Some (header !! k) -> k ∈ _ANKI_ORDERED_HEADER) ->
      exists internal,
        reformat_header_settings header ANKI_TO_GAGGLE = Return internal
        /\ reformat_header_settings internal GAGGLE_TO_ANKI = Return header).
Proof.
  intros Hvalues. split; intros Hkeys.
  - apply reformat_there_and_back; [reflexivity | |].
    + intros a b H. by destruct (reverse_mapping_wire a b H).
    + intros k v Hk. split; [|by eapply Hvalues].
      apply reverse_mapping_internal, Hkeys. by eexists.
  - apply reformat_there_and_back; [reflexivity | |].
    + intros a b H. by destruct (mapping_reverse a b H).
    + intros k v Hk. split; [|by eapply Hvalues].
      assert (Hin : k ∈ _ANKI_ORDERED_HEADER) by (apply Hkeys; by eexists).
      unfold _ANKI_ORDERED_HEADER in Hin.
      rewrite !elem_of_cons, elem_of_nil in Hin.
      destruct Hin as [H|[H|[H|[H|[H|[H|[]]]]]]]; subst k; by eexists.
Qed.

Lemma reformat_directions_are_inverse_witness :
  exists wire,
    reformat_header_settings
      {["separator" := VStr "tab"; "guid_idx" := VInt 0]} GAGGLE_TO_ANKI
    = Return wire
    /\ reformat_header_settings wire ANKI_TO_GAGGLE
       = Return {["separator" := VStr "tab"; "guid_idx" := VInt 0]}.
Proof.
  destruct (reformat_directions_are_inverse
              {["separator" := VStr "tab"; "guid_idx" := VInt 0]}) as [Hthere _].
  - apply (bool_decide_unpack
             (map_Forall (fun _ v => castless v = true)
                ({["separator" := VStr "tab"; "guid_idx" := VInt 0]}
                 : gmap string value))).
    vm_compute. exact I.
  - apply Hthere. intros k Hk. apply elem_of_dom in Hk. revert k Hk.
    apply (bool_decide_unpack
             (set_Forall (fun k => k ∈ internal_keys)
                (dom ({["separator" := VStr "tab"; "guid_idx" := VInt 0]}
                      : gmap string value)))).
    vm_compute. exact I.
Defined.

(** X11. [write_header] does not skip a setting that is [None]: the copy
    of the header is reformatted before anything is written, and
    [transform_integer_value] lets the [TypeError] of [int(None)] through.
    Nothing is written. *)
Theorem write_header_raises_on_none (header : gmap string value) (k : string) :
  (forall k' v, header !! k' = Some v -> k' ∈ internal_keys) ->
  header !! k = Some VNone ->
  write_header header
  = Raise (TypeError
             "int() argument must be a string, a bytes-like object or a real number, not 'NoneType'").
Proof.
  intros Hkeys Hk. unfold write_header, _copy_and_reformat.
  pose proof (reformat_header_settings_spec header GAGGLE_TO_ANKI) as Hspec.
  destruct (reformat_header_settings header GAGGLE_TO_ANKI) as [hc|e].
  - destruct Hspec as [H1 _]. destruct (H1 k VNone Hk) as (? & ? & _ & Hbad & _).
    discriminate Hbad.
  - destruct Hspec as (k' & v & Hk' & [Hbad | Hbad]).
    + destruct (reverse_mapping_internal k' (Hkeys _ _ Hk')) as [wk Hwk].
      simpl in Hbad. congruence.
    + destruct v as [s|z|]; simpl in Hbad.
      * destruct (PyStr.int s); discriminate Hbad.
      * discriminate Hbad.
      * congruence.
Qed.

Lemma write_header_raises_on_none_witness :
  write_header {["separator" := VStr "tab"; "has_html" := VNone]}
  = Raise (TypeError
             "int() argument must be a string, a bytes-like object or a real number, not 'NoneType'").
Proof.
  apply (write_header_raises_on_none
           {["separator" := VStr "tab"; "has_html" := VNone]} "has_html").
  - apply (bool_decide_unpack
             (map_Forall (fun k' _ => k' ∈ internal_keys)
                ({["separator" := VStr "tab"; "has_html" := VNone]}
                 : gmap string value))).
    vm_compute. exact I.
  - vm_compute. reflexivity.
Defined.

(** X12. A header line of a known setting is parsed to the internal name
    of the setting; an integer value is read one lower, whatever the
    setting (wire indexes count from 1, internal ones from 0; html and
    separator are shifted like the column indexes), any other plain value
    is kept. *)
Theorem header_line_is_shifted (wire_name internal_name : string) (v : value)
    (rest : string) :
  _ANKI_EXPORT_HEADER_MAPPING !! wire_name = Some internal_name ->
  plain v = true ->
  (forall r, rest <> String "#" r) ->
  parse_header_settings (render [(wire_name, v)] ++ rest)
  = Return ({[internal_name := to_internal v]}, rest).
Proof.
  intros Hname Hv Hrest. unfold parse_header_settings, read_header_settings.
  destruct (mapping_reverse _ _ Hname) as [_ Hchars].
  rewrite read_header_loop_render; [| by repeat constructor | exact Hrest | lia].
  cbn [fold_left fst snd]. rewrite insert_empty.
  unfold reformat_header_settings. rewrite map_fold_singleton.
  unfold reformat_item. cbn [_DIRECTION_MAPPING]. rewrite Hname.
  destruct v as [s|z|]; simpl in *; [| |discriminate].
  - unfold plain_str in Hv. apply andb_prop in Hv as [_ Hv].
    destruct (PyStr.int s); [discriminate|]. by rewrite insert_empty.
  - rewrite insert_empty. do 4 f_equal. lia.
Qed.

Lemma header_line_is_shifted_witness :
  parse_header_settings (render [("tags column", VInt 7)] ++ row ["a"; "b"])
  = Return ({["tags_idx" := to_internal (VInt 7)]}, row ["a"; "b"]).
Proof.
  apply (header_line_is_shifted "tags column" "tags_idx" (VInt 7) (row ["a"; "b"])).
  - reflexivity.
  - reflexivity.
  - vm_compute. discriminate.
Defined.

Lemma readline_split (f : stream) :
  forall line rest, readline f = (line, rest) -> f = line ++ rest.
Proof.
  induction f as [|c f IH]; intros line rest; simpl.
  { by intros [= <- <-]. }
  destruct (Ascii.eqb c LF); [by intros [= <- <-]|].
  destruct (Ascii.eqb c CR).
  - destruct f as [|c' f]; [by intros [= <- <-]|].
    destruct (Ascii.eqb c' LF); by intros [= <- <-].
  - destruct (readline f) as [line' rest'] eqn:Hf.
    intros [= <- <-]. rewrite append_cons. f_equal. by apply IH.
Qed.

Lemma read_header_loop_stops (fuel : nat) :
  forall (header : gmap string value) (f : stream)
         (header' : gmap string value) (f' : stream),
    (String.length f < fuel)%nat ->
    read_header_loop fuel header f = Return (header', f') ->
    (forall r, f' <> String "#" r) /\ exists consumed, f = consumed ++ f'.
Proof.
  induction fuel as [|fuel IH]; intros header f header' f' Hfuel; [lia|].
  cbn [read_header_loop]. destruct f as [|c f].
  { simpl. intros [= <- <-]. split; [discriminate | by exists ""]. }
  cbn [read1]. unfold _ANKI_EXPORT_HEADER_LINE_SYMBOL. simpl String.eqb.
  destruct (Ascii.eqb_spec c "#") as [->|Hc].
  - destruct (readline f) as [line f2] eqn:Hline.
    pose proof (readline_split _ _ _ Hline) as ->.
    destruct (PyStr.split _ line) as [|setting [|v [|? ?]]]; try discriminate.
    destruct (transform_integer_value _ 0 1) as [v'|e]; [|discriminate].
    intros H. apply IH in H as [Hstop [consumed ->]].
    + split; [exact Hstop|]. exists (String "#" (line ++ consumed)).
      by rewrite append_cons, append_assoc.
    + simpl in Hfuel. rewrite length_append in Hfuel. lia.
  - intros [= <- <-]. split; [|by exists ""].
    intros r [= ->]. contradiction.
Qed.

(** X13. When [parse_header_settings] returns, the stream is left at a
    line that does not start with the header symbol, and what follows the
    header lines has not been touched; a stream that does not start with
    the header symbol is left as it is, with an empty header. *)
Theorem header_parse_stops_at_content :
  (forall (f f' : stream) (header : gmap string value),
      parse_header_settings f = Return (header, f') ->
      (forall r, f' <> String "#" r) /\ exists consumed, f = consumed ++ f')
  /\ (forall f : stream,
        (forall r, f <> String "#" r) ->
        parse_header_settings f = Return (∅, f)).
Proof.
  split.
  - intros f f' header. unfold parse_header_settings, read_header_settings.
    destruct (read_header_loop _ ∅ f) as [[wire f0]|e] eqn:Hread; [|discriminate].
    destruct (reformat_header_settings wire ANKI_TO_GAGGLE); [|discriminate].
    intros [= <- <-]. apply (read_header_loop_stops _ _ _ _ _ (Nat.lt_succ_diag_r _) Hread).
  - intros f Hf. unfold parse_header_settings, read_header_settings.
    cbn [read_header_loop]. destruct f as [|c f]; [reflexivity|].
    cbn [read1]. unfold _ANKI_EXPORT_HEADER_LINE_SYMBOL. simpl String.eqb.
    destruct (Ascii.eqb_spec c "#") as [->|_]; [by destruct (Hf f)|].
    reflexivity.
Qed.

Lemma header_parse_stops_at_content_witness :
  (forall r, row ["a"; "b"] <> String "#" r)
  /\ exists consumed,
       text ["#separator:tab"] ++ row ["a"; "b"] = consumed ++ row ["a"; "b"].
Proof.
  apply (proj1 header_parse_stops_at_content
           (text ["#separator:tab"] ++ row ["a"; "b"]) (row ["a"; "b"])
           {["separator" := VStr "tab"]}).
  vm_compute. reflexivity.
Defined.

(** ** Decks: rows, separator and settings *)

Lemma cards_of_rows_values (rows : list (list string)) (stopped : option exn)
    (field_names : option (list string)) (header : gmap string value) :
  forall (ws : list warning) (deck : list AnkiCard),
    cards_of_rows rows stopped field_names header = (ws, Return deck) ->
    stopped = None /\ rows = as_str_list <$> deck.
Proof.
  induction rows as [|c rows IH]; intros ws deck; simpl.
  - destruct stopped; [discriminate|]. by intros [= _ <-].
  - destruct (AnkiCard_call c field_names header) as [w [card|e]] eqn:Hc;
      simpl; [|discriminate].
    destruct (cards_of_rows rows stopped field_names header)
      as [w' [deck'|e]] eqn:Hrows; simpl; [|discriminate].
    intros [= _ <-]. destruct (IH _ _ eq_refl) as [-> ->]. split; [reflexivity|].
    simpl. f_equal.
    apply AnkiCard_call_return, AnkiCard_init_names in Hc as (_ & _ & _ & Hv & _).
    by rewrite Hv.
Qed.

(** X14. A deck that is parsed has the header as [parse_header_settings]
    returns it (the separator is taken out for the cards and put back) and,
    when the separator is "tab", one card a decoded row, in the order of the
    rows, each with the values of its row; the row decoder has not raised.
    With any other separator it has no card. *)
Theorem parsed_deck_keeps_rows
    (csv_reader : stream -> list (list string) * option exn)
    (file : stream) (field_names : option (list string))
    (ws : list warning) (header : gmap string value) (deck : list AnkiCard) :
  _parse_anki_export csv_reader file field_names = (ws, Return (header, deck)) ->
  exists f,
    parse_header_settings file = Return (header, f)
    /\ ((header !! "separator" = Some (VStr "tab")
         /\ csv_reader f = (as_str_list <$> deck, None))
        \/ (header !! "separator" <> Some (VStr "tab")
            /\ is_Some (header !! "separator")
            /\ deck = [] /\ ws = [])).
Proof.
  unfold _parse_anki_export.
  destruct (parse_header_settings file) as [[h f]|e] eqn:Hparse; [|discriminate].
  simpl. unfold _ANKI_EXPORT_HEADER_SETTING_SEPARATOR_NAME,
    _ANKI_EXPORT_HEADER_SETTING_SEPARATOR_TSV_STRING.
  destruct (h !! "separator") as [separator|] eqn:Hsep; [|discriminate].
  case_bool_decide as Htab.
  - subst separator. unfold create_cards_from_tsv.
    destruct (csv_reader f) as [rows stopped] eqn:Hreader. simpl.
    destruct (cards_of_rows rows stopped field_names (delete "separator" h))
      as [w [cards|e]] eqn:Hcards; simpl; [|discriminate].
    intros [= _ <- <-]. rewrite insert_delete_eq, (insert_id _ _ _ Hsep).
    exists f. split; [reflexivity|]. left. split; [exact Hsep|].
    rewrite Hreader.
    by destruct (cards_of_rows_values _ _ _ _ _ _ Hcards) as [-> ->].
  - intros [= <- <- <-]. exists f. split; [reflexivity|]. right.
    rewrite Hsep. repeat split; [congruence | by eexists].
Qed.

Lemma parsed_deck_keeps_rows_witness :
  exists f,
    parse_header_settings (text ["#separator:tab"; row ["a"; "b"]])
    = Return ({["separator" := VStr "tab"]}, f)
    /\ (({["separator" := VStr "tab"]} : gmap string value) !! "separator"
        = Some (VStr "tab")
        /\ Csv.reader_excel_tab f
           = (as_str_list
                <$> [ {| has_html := false;
                         fields := [("Field0", "a"); ("Field1", "b")] |} ], None)
        \/ (({["separator" := VStr "tab"]} : gmap string value) !! "separator"
            <> Some (VStr "tab")
            /\ is_Some (({["separator" := VStr "tab"]} : gmap string value)
                        !! "separator")
            /\ [ {| has_html := false;
                    fields := [("Field0", "a"); ("Field1", "b")] |} ] = []
            /\ @nil warning = [])).
Proof.
  apply (parsed_deck_keeps_rows Csv.reader_excel_tab
           (text ["#separator:tab"; row ["a"; "b"]]) None []).
  vm_compute. reflexivity.
Defined.

Lemma parse_header_settings_no_header (f : stream) :
  (forall r, f <> String "#" r) -> parse_header_settings f = Return (∅, f).
Proof.
  intros Hf. unfold parse_header_settings, read_header_settings.
  cbn [read_header_loop]. destruct f as [|c f]; [reflexivity|].
  cbn [read1]. unfold _ANKI_EXPORT_HEADER_LINE_SYMBOL. simpl String.eqb.
  destruct (Ascii.eqb_spec c "#") as [->|_]; [by destruct (Hf f)|].
  reflexivity.
Qed.

(** X15. A file without a separator setting is not parsed: the lookup of
    the separator raises [KeyError] before any row is decoded.  So it is
    for every file that does not start with the header symbol, a file of
    rows without a header among them. *)
Theorem deck_without_separator_is_not_parsed
    (csv_reader : stream -> list (list string) * option exn)
    (field_names : option (list string)) :
  (forall (file f : stream) (header : gmap string value),
      parse_header_settings file = Return (header, f) ->
      header !! "separator" = None ->
      _parse_anki_export csv_reader file field_names
      = ([], Raise (KeyError "separator")))
  /\ (forall file : stream,
        (forall r, file <> String "#" r) ->
        _parse_anki_export csv_reader file field_names
        = ([], Raise (KeyError "separator"))).
Proof.
  assert (H : forall (file f : stream) (header : gmap string value),
             parse_header_settings file = Return (header, f) ->
             header !! "separator" = None ->
             _parse_anki_export csv_reader file field_names
             = ([], Raise (KeyError "separator"))).
  { intros file f header Hparse Hsep. unfold _parse_anki_export.
    rewrite Hparse. simpl.
    unfold _ANKI_EXPORT_HEADER_SETTING_SEPARATOR_NAME. by rewrite Hsep. }
  split; [exact H|].
  intros file Hfile.
  apply (H file file ∅ (parse_header_settings_no_header _ Hfile)), lookup_empty.
Qed.

Lemma deck_without_separator_is_not_parsed_witness :
  _parse_anki_export Csv.reader_excel_tab (text [row ["a"; "b"]]) None
  = ([], Raise (KeyError "separator")).
Proof.
  apply (proj2 (deck_without_separator_is_not_parsed Csv.reader_excel_tab None)
           (text [row ["a"; "b"]])).
  vm_compute. discriminate.
Defined.

(** X16. [create_cards_from_tsv] passes every setting of its header to the
    constructor of the card as a keyword: with a setting that cannot be
    bound (the separator of a parsed header, for one) and at least one row,
    it raises [TypeError] at the first row, for one of the settings that
    cannot be bound.  The message tells how the setting fails: [field_names],
    which is reported before any other, is given twice as a keyword; [self]
    and [fields] are bound by position already; any other names no
    parameter. *)
Theorem cards_reject_foreign_settings
    (csv_reader : stream -> list (list string) * option exn)
    (f : stream) (field_names : option (list string))
    (header : gmap string value) (k : string) (v : value)
    (card : list string) (rows : list (list string)) (stopped : option exn) :
  header !! k = Some v ->
  k ∉ AnkiCard_keywords ->
  csv_reader f = (card :: rows, stopped) ->
  exists k',
    is_Some (header !! k') /\ (k' ∉ AnkiCard_keywords)
    /\ create_cards_from_tsv csv_reader f field_names (Some header)
       = ([], Raise (AnkiCard_keyword_error k'))
    /\ (is_Some (header !! "field_names") -> k' = "field_names")
    /\ ((forall k2, is_Some (header !! k2) -> k2 ∉ AnkiCard_keywords -> k2 = k) ->
        k' = k).
Proof.
  intros Hk Hbad Hrows. unfold create_cards_from_tsv. rewrite Hrows. simpl.
  unfold AnkiCard_call.
  assert (Hfn : "field_names" ∉ AnkiCard_keywords).
  { apply (bool_decide_unpack ("field_names" ∉ AnkiCard_keywords)).
    vm_compute. exact I. }
  case_bool_decide as Hin.
  { exists "field_names". apply elem_of_dom in Hin. auto 6. }
  destruct (filter _ _) as [|k' bad] eqn:Hf.
  - exfalso. eapply (filter_nil_not_elem_of _ _ k Hf); [exact Hbad|].
    apply elem_of_elements, elem_of_dom. by eexists.
  - exists k'.
    assert (Hk' : k' ∈ filter (fun k => ¬ k ∈ AnkiCard_keywords)
                         (elements (dom header)))
      by (rewrite Hf; by left).
    apply list_elem_of_filter in Hk' as [Hbad' Hk'].
    apply elem_of_elements, elem_of_dom in Hk'.
    split; [done|]. split; [done|]. split; [done|]. split.
    + intros H. exfalso. apply Hin. by apply elem_of_dom.
    + intros Honly. by apply Honly.
Qed.

Lemma cards_reject_foreign_settings_witness :
  exists k',
    is_Some (({["separator" := VStr "tab"]} : gmap string value) !! k')
    /\ (k' ∉ AnkiCard_keywords)
    /\ create_cards_from_tsv Csv.reader_excel_tab (text ["a"]) None
         (Some {["separator" := VStr "tab"]})
       = ([], Raise (AnkiCard_keyword_error k'))
    /\ (is_Some (({["separator" := VStr "tab"]} : gmap string value)
                 !! "field_names") -> k' = "field_names")
    /\ ((forall k2,
           is_Some (({["separator" := VStr "tab"]} : gmap string value) !! k2) ->
           k2 ∉ AnkiCard_keywords -> k2 = "separator") ->
        k' = "separator").
Proof.
  apply (cards_reject_foreign_settings Csv.reader_excel_tab (text ["a"]) None
           {["separator" := VStr "tab"]} "separator" (VStr "tab") ["a"] [] None).
  - vm_compute. reflexivity.
  - apply (bool_decide_unpack ("separator" ∉ AnkiCard_keywords)). vm_compute. exact I.
  - vm_compute. reflexivity.
Defined.

(** The three messages, run on a file of one row. *)
Example cards_reject_foreign_settings_run :
  (create_cards_from_tsv Csv.reader_excel_tab (text ["a"]) None
     (Some {["separator" := VStr "tab"]})).2
  = Raise (TypeError
             "AnkiCard.__init__() got an unexpected keyword argument 'separator'")
  /\ (create_cards_from_tsv Csv.reader_excel_tab (text ["a"]) None
        (Some {["fields" := VStr "x"]})).2
     = Raise (TypeError
                "AnkiCard.__init__() got multiple values for argument 'fields'")
  /\ (create_cards_from_tsv Csv.reader_excel_tab (text ["a"]) None
        (Some {["zzz" := VStr "x"; "field_names" := VStr "y"]})).2
     = Raise (TypeError
                "gaggle.gaggle.AnkiCard() got multiple values for keyword argument 'field_names'").
Proof. repeat split; vm_compute; reflexivity. Qed.

(** ** Unique file paths *)

Lemma append_cancel_r (a b e : string) : a ++ e = b ++ e -> a = b.
Proof.
  revert b. induction a as [|x a IH]; intros [|y b] H.
  - reflexivity.
  - exfalso. apply (f_equal String.length) in H.
    rewrite append_nil, append_cons in H. simpl in H.
    rewrite length_append in H. lia.
  - exfalso. apply (f_equal String.length) in H.
    rewrite append_nil, append_cons in H. simpl in H.
    rewrite length_append in H. lia.
  - rewrite !append_cons in H. injection H as -> H. f_equal. by apply IH.
Qed.

Lemma append_cancel_l (a x y : string) : a ++ x = a ++ y -> x = y.
Proof.
  induction a as [|c a IH]; [done|].
  rewrite !append_cons. intros [= H]. by apply IH.
Qed.

Lemma path_join_inj (destination : string) (c : ascii) (x y : string) :
  path_join destination (String c x) = path_join destination (String c y) ->
  x = y.
Proof.
  unfold path_join.
  destruct (Ascii.eqb_spec c "/") as [->|Hc].
  { by intros [= ->]. }
  assert (Hb : forall z,
             match String c z with
             | String "/" _ => String c z
             | _ => match destination with
                    | EmptyString => String c z
                    | _ => if ends_with_sep destination
                           then destination ++ String c z
                           else destination ++ String "/" (String c z)
                    end
             end
             = match destination with
               | EmptyString => String c z
               | _ => if ends_with_sep destination
                      then destination ++ String c z
                      else destination ++ String "/" (String c z)
               end).
  { intros z. destruct c as [[] [] [] [] [] [] [] []]; try reflexivity.
    by destruct Hc. }
  rewrite !Hb. destruct destination as [|d destination]; [by intros [= ->]|].
  destruct (ends_with_sep (String d destination)).
  - by intros [= ->]%append_cancel_l.
  - by intros [= ->]%append_cancel_l.
Qed.

Lemma str_not_empty (z : Z) : PyStr.str z <> "".
Proof. intros H. pose proof (int_str z) as Hz. rewrite H in Hz. discriminate Hz. Qed.

Section UniqueFilePath.

Variable files : gset string.
Variable extension destination : string.
Variable c : ascii.
Variable name : string.

Lemma path_of_tagged_inj (t1 t2 : nat) :
  path_of destination extension (tagged (String c name) t1)
  = path_of destination extension (tagged (String c name) t2) ->
  t1 = t2.
Proof.
  unfold path_of, tagged. rewrite !append_cons. intros H%path_join_inj.
  rewrite !append_assoc in H. apply append_cancel_l, append_cancel_r in H.
  apply str_inj in H. lia.
Qed.

Lemma path_of_untagged (t : nat) :
  path_of destination extension (String c name)
  <> path_of destination extension (tagged (String c name) t).
Proof.
  unfold path_of, tagged. rewrite !append_cons. intros H%path_join_inj.
  rewrite append_assoc in H. apply append_cancel_l in H.
  change extension with ("" ++ extension) in H at 1.
  apply append_cancel_r in H. by apply (str_not_empty (Z.of_nat t)).
Qed.

Lemma unique_file_path_loop_free (fuel : nat) :
  forall (remaining : gset string) (modified_filename : string) (tag : nat),
    (size remaining < fuel)%nat ->
    (path_of destination extension modified_filename ∈ files ->
     path_of destination extension modified_filename ∈ remaining) ->
    (forall t, (tag <= t)%nat ->
       path_of destination extension (tagged (String c name) t)
       <> path_of destination extension modified_filename
       /\ (path_of destination extension (tagged (String c name) t) ∈ files ->
           path_of destination extension (tagged (String c name) t)
           ∈ remaining)) ->
    unique_file_path_loop fuel (fun p => bool_decide (p ∈ files))
      (String c name) extension destination modified_filename tag ∉ files.
Proof.
  induction fuel as [|fuel IH]; intros remaining modified tag Hsize Hcur Hnext;
    [lia|].
  cbn [unique_file_path_loop]. fold (path_of destination extension modified).
  case_bool_decide as Hin; [|exact Hin].
  apply (IH (remaining ∖ {[path_of destination extension modified]})).
  - pose proof (Hcur Hin) as Hrem.
    assert (size remaining
            = (size ({[path_of destination extension modified]} : gset string)
               + size (remaining
                       ∖ {[path_of destination extension modified]}))%nat)
      as Hsz.
    { rewrite <- size_union by set_solver. f_equal.
      apply set_eq. intros x. rewrite elem_of_union, elem_of_difference,
        elem_of_singleton.
      destruct (decide (x = path_of destination extension modified));
        naive_solver. }
    rewrite size_singleton in Hsz. lia.
  - intros H. destruct (Hnext tag) as [Hne Hrem]; [lia|].
    apply elem_of_difference. split; [by apply Hrem|].
    by intros ?%elem_of_singleton.
  - intros t Ht. split.
    + intros H%path_of_tagged_inj. lia.
    + intros H. destruct (Hnext t) as [Hne Hrem]; [lia|].
      apply elem_of_difference. split; [by apply Hrem|].
      by intros ?%elem_of_singleton.
Qed.

End UniqueFilePath.

(** X17. [_generate_unique_file_path] returns a path that no existing file
    has (paths joined as [posixpath] joins them), however many files of the
    names it tries exist.  A file name that is given and free is used as it
    is; without a file name, or with the generic one, the first name tried
    is "GaggleFile0". *)
Theorem generated_file_path_is_free :
  (forall (files : gset string) (filename : option string)
          (extension destination : string),
      _generate_unique_file_path files filename extension destination ∉ files)
  /\ (forall (files : gset string) (filename extension destination : string),
        filename <> "" ->
        filename <> GENERIC_EXPORT_FILE_NAME ->
        path_join destination (filename ++ extension) ∉ files ->
        _generate_unique_file_path files (Some filename) extension destination
        = path_join destination (filename ++ extension))
  /\ (forall (files : gset string) (extension destination : string),
        path_join destination ("GaggleFile0" ++ extension) ∉ files ->
        _generate_unique_file_path files None extension destination
        = path_join destination ("GaggleFile0" ++ extension)
        /\ _generate_unique_file_path files (Some GENERIC_EXPORT_FILE_NAME)
             extension destination
           = path_join destination ("GaggleFile0" ++ extension)).
Proof.
  split; [|split].
  - intros files filename extension destination.
    unfold _generate_unique_file_path.
    set (fname := if truthy filename then default "" filename
                  else GENERIC_EXPORT_FILE_NAME).
    assert (Hfname : exists c name, fname = String c name).
    { subst fname. destruct filename as [[|c name]|]; simpl; eauto. }
    destruct Hfname as (c & name & ->).
    destruct (String.eqb (String c name) GENERIC_EXPORT_FILE_NAME).
    + apply (unique_file_path_loop_free files extension destination c name _ files);
        [lia | done |].
      intros t Ht. split; [|done].
      intros H. change (PyStr.str 0) with (PyStr.str (Z.of_nat 0)) in H.
      apply path_of_tagged_inj in H. lia.
    + apply (unique_file_path_loop_free files extension destination c name _ files);
        [lia | done |].
      intros t Ht. split; [|done].
      intros H. symmetry in H. by apply path_of_untagged in H.
  - intros files filename extension destination Hne Hgen Hfree.
    unfold _generate_unique_file_path.
    destruct filename as [|c name]; [done|].
    cbn [truthy default from_option]. unfold id.
    destruct (String.eqb_spec (String c name) GENERIC_EXPORT_FILE_NAME);
      [done|].
    cbn [unique_file_path_loop]. by rewrite (bool_decide_eq_false_2 _ Hfree).
  - intros files extension destination Hfree. split.
    + unfold _generate_unique_file_path. cbn [truthy].
      rewrite String.eqb_refl. cbn [unique_file_path_loop].
      change (GENERIC_EXPORT_FILE_NAME ++ PyStr.str 0) with "GaggleFile0".
      by rewrite (bool_decide_eq_false_2 _ Hfree).
    + unfold _generate_unique_file_path.
      unfold GENERIC_EXPORT_FILE_NAME at 1.
      cbn [truthy default from_option]. unfold id.
      change "GaggleFile" with GENERIC_EXPORT_FILE_NAME.
      rewrite String.eqb_refl. cbn [unique_file_path_loop].
      change (GENERIC_EXPORT_FILE_NAME ++ PyStr.str 0) with "GaggleFile0".
      by rewrite (bool_decide_eq_false_2 _ Hfree).
Qed.

Lemma generated_file_path_is_free_witness :
  _generate_unique_file_path {["./GaggleFile0.txt"]} (Some "deck") ".txt" "."
  = path_join "." ("deck" ++ ".txt").
Proof.
  apply (proj1 (proj2 generated_file_path_is_free)
           {["./GaggleFile0.txt"]} "deck" ".txt" ".").
  - discriminate.
  - discriminate.
  - vm_compute. intros H. discriminate H.
Defined.

Example generated_file_path_runs :
  _generate_unique_file_path {["./GaggleFile0.txt"]} None ".txt" "."
  = "./GaggleFile1.txt"
  /\ _generate_unique_file_path {["./deck.txt"; "./deck0.txt"]} (Some "deck")
       ".txt" "." = "./deck1.txt"
  /\ _generate_unique_file_path ∅ (Some "") ".txt" "out/" = "out/GaggleFile0.txt".
Proof. repeat split; vm_compute; reflexivity. Qed.

(** ** Writing a deck and reading it back *)

Section RowRoundTrip.

Import Csv.

Lemma append_empty_r (s : string) : s ++ "" = s.
Proof. induction s as [|c s IH]; [done|]. by rewrite append_cons, IH. Qed.

Lemma plain_char_spec (c : ascii) :
  negb (CsvWriter.special c) = true ->
  Ascii.eqb c TAB = false /\ Ascii.eqb c QUOTE = false
  /\ Ascii.eqb c CR = false /\ Ascii.eqb c LF = false.
Proof.
  unfold CsvWriter.special. rewrite negb_true_iff, !orb_false_iff. tauto.
Qed.

Lemma join_append_plain (field : string) :
  CsvWriter.plain_field field = true -> CsvWriter.join_append field = field.
Proof.
  intros H. unfold CsvWriter.join_append.
  enough (CsvWriter.needs_quotes field = false) as -> by done.
  induction field as [|c field IH]; [done|]. simpl in *.
  apply andb_prop in H as [Hc H]. apply negb_true_iff in Hc.
  by rewrite Hc, IH.
Qed.

(** The characters of a plain field, in a field that has been started. *)
Lemma process_line_in_field (f s fld : string) (rec : list string) :
  CsvWriter.plain_field f = true ->
  process_line (f ++ s) {| st := IN_FIELD; field := fld; record := rec |}
  = process_line s {| st := IN_FIELD; field := fld ++ f; record := rec |}.
Proof.
  revert fld. induction f as [|c f IH]; intros fld Hf.
  - by rewrite append_nil, append_empty_r.
  - simpl in Hf. apply andb_prop in Hf as [Hc Hf].
    destruct (plain_char_spec c Hc) as (Htab & _ & Hcr & Hlf).
    rewrite append_cons. cbn [process_line process_char st].
    unfold is_eol. rewrite Hlf, Hcr, Htab. cbn [orb].
    unfold add_char. cbn [field record]. rewrite (IH _ Hf).
    by rewrite append_assoc.
Qed.

(** A plain field at the start of a field, up to the character [c] that
    ends it. *)
Lemma process_line_field (f s : string) (rec : list string) (c : ascii) :
  CsvWriter.plain_field f = true ->
  (c = TAB \/ c = CR) ->
  process_line (f ++ String c s)
    {| st := START_FIELD; field := EmptyString; record := rec |}
  = process_line s
      {| st := if Ascii.eqb c TAB then START_FIELD else EAT_CRNL;
         field := EmptyString; record := (rec ++ [f])%list |}.
Proof.
  intros Hf Hc. destruct f as [|x f].
  - rewrite append_nil. destruct Hc as [-> | ->]; reflexivity.
  - simpl in Hf. apply andb_prop in Hf as [Hx Hf].
    destruct (plain_char_spec x Hx) as (Htab & Hq & Hcr & Hlf).
    rewrite append_cons. cbn [process_line process_char st].
    unfold start_field, is_eol. rewrite Hlf, Hcr, Hq, Htab. cbn [orb].
    unfold add_char. cbn [field record]. rewrite append_nil.
    rewrite (process_line_in_field _ _ _ _ Hf).
    destruct Hc as [-> | ->]; reflexivity.
Qed.

Lemma process_line_fields (fs : list string) :
  forall (f : string) (rec : list string),
    Forall (fun f => CsvWriter.plain_field f = true) (f :: fs) ->
    process_line
      (PyStr.join (String TAB EmptyString) (f :: fs)
       ++ String CR (String LF EmptyString))
      {| st := START_FIELD; field := EmptyString; record := rec |}
    = Return {| st := START_RECORD; field := EmptyString;
                record := (rec ++ f :: fs)%list |}.
Proof.
  induction fs as [|g fs IH]; intros f rec Hplain.
  - apply Forall_cons in Hplain as [Hf _]. cbn [PyStr.join].
    rewrite process_line_field by auto. reflexivity.
  - apply Forall_cons in Hplain as [Hf Hplain].
    change (PyStr.join (String TAB "") (f :: g :: fs))
      with (f ++ String TAB "" ++ PyStr.join (String TAB "") (g :: fs)).
    rewrite !append_assoc, append_cons, append_nil.
    rewrite process_line_field by auto. cbn [Ascii.eqb]. simpl Ascii.eqb.
    rewrite (IH g _ Hplain). by rewrite <- app_assoc.
Qed.

Lemma map_join_append_plain (row : list string) :
  Forall (fun f => CsvWriter.plain_field f = true) row ->
  map CsvWriter.join_append row = row.
Proof.
  induction 1 as [|f row Hf _ IH]; [done|]. simpl.
  by rewrite IH, join_append_plain.
Qed.

Lemma join_cons_cons (f g : string) (fs : list string) :
  PyStr.join (String TAB EmptyString) (f :: g :: fs)
  = f ++ String TAB (PyStr.join (String TAB EmptyString) (g :: fs)).
Proof.
  change (PyStr.join (String TAB "") (f :: g :: fs))
    with (f ++ String TAB "" ++ PyStr.join (String TAB "") (g :: fs)).
  by rewrite append_cons, append_nil.
Qed.

(** A row of plain fields other than the row of one empty field is written
    as its fields joined by tabs. *)
Lemma writerow_plain (row : list string) :
  Forall (fun f => CsvWriter.plain_field f = true) row ->
  row <> [EmptyString] ->
  CsvWriter.writerow row
  = PyStr.join (String TAB EmptyString) row ++ String CR (String LF EmptyString).
Proof.
  intros Hplain Hrow. unfold CsvWriter.writerow.
  rewrite (map_join_append_plain _ Hplain).
  destruct row as [|f [|g fs]]; [reflexivity | |].
  - cbn [PyStr.join]. destruct f; [done | reflexivity].
  - rewrite join_cons_cons. destruct f; reflexivity.
Qed.

(** A written row is read back as the row. *)
Lemma process_line_writerow (row : list string) :
  Forall (fun f => CsvWriter.plain_field f = true) row ->
  process_line (CsvWriter.writerow row) reset
  = Return {| st := START_RECORD; field := EmptyString; record := row |}.
Proof.
  intros Hplain.
  destruct (decide (row = [EmptyString])) as [->|Hrow]; [reflexivity|].
  rewrite (writerow_plain _ Hplain Hrow).
  destruct row as [|f fs]; [reflexivity|].
  destruct f as [|c f].
  - destruct fs as [|g fs]; [done|].
    rewrite join_cons_cons, append_nil, append_cons.
    apply Forall_cons in Hplain as [_ Hplain].
    cbn [process_line]. change (process_char TAB reset)
      with (Return {| st := START_FIELD; field := EmptyString;
                      record := [EmptyString] |}).
    cbv iota. by rewrite (process_line_fields _ _ _ Hplain).
  - etransitivity; [|exact (process_line_fields fs (String c f) [] Hplain)].
    pose proof Hplain as Hplain'.
    apply Forall_cons in Hplain' as [Hf _]. simpl in Hf.
    apply andb_prop in Hf as [Hc _].
    destruct (plain_char_spec c Hc) as (_ & _ & Hcr & Hlf).
    assert (Hjoin : exists s, PyStr.join (String TAB "") (String c f :: fs)
                              ++ String CR (String LF "") = String c s).
    { destruct fs as [|g fs].
      - cbn [PyStr.join]. rewrite append_cons. eauto.
      - rewrite join_cons_cons, !append_cons. eauto. }
    destruct Hjoin as [s ->]. cbn [process_line process_char st reset].
    unfold is_eol. by rewrite Hlf, Hcr.
Qed.

Lemma lines_line (body rest : string) :
  PyStr.all_chars line_char body = true ->
  lines (body ++ String CR (String LF rest))
  = (body ++ String CR (String LF EmptyString)) :: lines rest.
Proof.
  induction body as [|c body IH]; intros Hbody; [reflexivity|].
  simpl in Hbody. apply andb_prop in Hbody as [Hc Hbody].
  unfold line_char in Hc. apply andb_prop in Hc as [Hlf Hcr].
  rewrite negb_true_iff in Hlf, Hcr.
  rewrite !append_cons. cbn [lines]. rewrite Hlf, Hcr. by rewrite (IH Hbody).
Qed.

(** The text of a written row, without its line ending, has no line break
    in it. *)
Lemma writerow_line (row : list string) :
  Forall (fun f => CsvWriter.plain_field f = true) row ->
  exists body,
    CsvWriter.writerow row = body ++ String CR (String LF EmptyString)
    /\ PyStr.all_chars line_char body = true.
Proof.
  intros Hplain.
  destruct (decide (row = [EmptyString])) as [->|Hrow].
  { exists (String QUOTE (String QUOTE "")). split; reflexivity. }
  rewrite (writerow_plain _ Hplain Hrow).
  exists (PyStr.join (String TAB "") row). split; [reflexivity|].
  assert (Hfield : forall f, CsvWriter.plain_field f = true ->
                             PyStr.all_chars line_char f = true).
  { intros f. apply all_chars_impl. intros c Hc.
    destruct (plain_char_spec c Hc) as (_ & _ & Hcr & Hlf).
    unfold line_char. by rewrite Hcr, Hlf. }
  clear Hrow. induction Hplain as [|f fs Hf Hfs IH]; [reflexivity|].
  destruct fs as [|g fs]; [by apply Hfield|].
  rewrite join_cons_cons, all_chars_app. rewrite (Hfield _ Hf). simpl.
  exact IH.
Qed.

(** Rows of plain fields that are written are read back as they are. *)
Lemma reader_writerows (rows : list (list string)) :
  Forall (Forall (fun f => CsvWriter.plain_field f = true)) rows ->
  reader_excel_tab (CsvWriter.writerows rows) = (rows, None).
Proof.
  unfold reader_excel_tab.
  induction 1 as [|row rows Hrow _ IH]; [reflexivity|].
  cbn [CsvWriter.writerows fold_right]. fold (CsvWriter.writerows rows).
  destruct (writerow_line row Hrow) as (body & Hbody & Hline).
  rewrite Hbody at 1. rewrite append_assoc, !append_cons, append_nil.
  rewrite (lines_line _ _ Hline). cbn [Csv.rows].
  rewrite <- Hbody, (process_line_writerow _ Hrow). cbn [st record].
  by rewrite IH.
Qed.

End RowRoundTrip.

(** ** Decks: written and read back *)

(** The header a deck writes is the header read from the text, whatever
    content follows it. *)
Lemma write_then_parse_header (header : gmap string value) (rest : string) :
  (forall k v, header !! k = Some v -> k ∈ internal_keys /\ plain v = true) ->
  (forall r, rest <> String "#" r) ->
  exists written,
    write_header header = Return written
    /\ parse_header_settings (written ++ rest) = Return (header, rest).
Proof.
  intros Hheader Hrest.
  pose proof (reformat_header_settings_spec header GAGGLE_TO_ANKI) as Hto.
  destruct (reformat_header_settings header GAGGLE_TO_ANKI) as [hc|e] eqn:Hhc.
  2: { destruct Hto as (k & v & Hk & Hbad). exfalso.
       destruct (Hheader k v Hk) as [Hin Hv].
       destruct (reverse_mapping_internal k Hin) as [wk Hwk].
       destruct (transform_plain v Hv) as (v' & Hv' & _).
       simpl in Hbad. destruct Hbad; congruence. }
  destruct Hto as [Hto1 Hto2]. simpl in Hto1, Hto2.
  (* the reformatted copy: wire names, plain values *)
  assert (Hcopy : forall wk v', hc !! wk = Some v' ->
            exists k v, header !! k = Some v
                        /\ _ANKI_EXPORT_HEADER_MAPPING !! wk = Some k
                        /\ wk ∈ _ANKI_ORDERED_HEADER
                        /\ PyStr.all_chars header_char wk = true
                        /\ plain v' = true
                        /\ transform_integer_value v' (-1) 1 = Return v).
  { intros wk v' Hv'. destruct (Hto2 wk v' Hv') as (k & v & Hk & Hm & Ht).
    exists k, v. destruct (reverse_mapping_wire k wk Hm) as (? & ? & ?).
    destruct (Hheader k v Hk) as [_ Hv].
    destruct (transform_plain v Hv) as (v'' & Ht' & ? & ?).
    assert (v'' = v') by congruence. subst v''. done. }
  exists (render (written_items hc _ANKI_ORDERED_HEADER)).
  split; [by apply write_header_render|].
  unfold parse_header_settings, read_header_settings.
  rewrite read_header_loop_render; [|
    | exact Hrest | lia].
  2: { apply Forall_forall. intros [wk v'] (_ & Hv' & _)%elem_of_written_items.
       destruct (Hcopy wk v' Hv') as (k & v & _ & _ & _ & ? & ? & _). done. }
  assert (Hread : fold_left (fun m kv => <[kv.1 := kv.2]> m)
                    (written_items hc _ANKI_ORDERED_HEADER) ∅ = hc).
  { apply map_eq. intros wk. rewrite lookup_written_items.
    destruct (hc !! wk) as [v'|] eqn:Hv'; [|apply lookup_empty].
    destruct (Hcopy wk v' Hv') as (k & v & _ & _ & Hin & _ & Hplain & _).
    rewrite bool_decide_eq_true_2; [reflexivity|].
    split; [exact Hin|]. intros ->. discriminate Hplain. }
  rewrite Hread.
  pose proof (reformat_header_settings_spec hc ANKI_TO_GAGGLE) as Hback.
  destruct (reformat_header_settings hc ANKI_TO_GAGGLE) as [h'|e] eqn:Hh'.
  2: { destruct Hback as (wk & v' & Hv' & Hbad). exfalso.
       destruct (Hcopy wk v' Hv') as (k & v & _ & Hm & _ & _ & _ & Ht).
       simpl in Hbad. destruct Hbad; congruence. }
  destruct Hback as [Hback1 Hback2]. simpl in Hback1, Hback2.
  do 2 f_equal. apply map_eq. intros k.
  destruct (header !! k) as [v|] eqn:Hk.
  - destruct (Hto1 k v Hk) as (wk & v' & Hwk & Ht & Hv').
    destruct (Hback1 wk v' Hv') as (k2 & v2 & Hk2 & Ht2 & Hh2).
    destruct (Hcopy wk v' Hv') as (k0 & v0 & Hk0 & Hm0 & _ & _ & _ & Ht0).
    destruct (reverse_mapping_wire k wk Hwk) as (Hm & _).
    assert (k2 = k) by congruence. assert (k0 = k) by congruence. subst k2 k0.
    rewrite Hh2. congruence.
  - destruct (h' !! k) as [v2|] eqn:Hv2; [exfalso | reflexivity].
    destruct (Hback2 k v2 Hv2) as (wk & v' & Hv' & Hm & _).
    destruct (Hcopy wk v' Hv') as (k0 & v0 & Hk0 & Hm0 & _).
    assert (k0 = k) by congruence. subst k0. congruence.
Qed.

Lemma deck_rows_written (deck : list AnkiCard) :
  fold_right (fun card written => card_write_as_tsv card ++ written)
    EmptyString deck
  = CsvWriter.writerows (as_str_list <$> deck).
Proof.
  induction deck as [|card deck IH]; [reflexivity|].
  simpl. by rewrite IH.
Qed.

Lemma writerows_starts_content (rows : list (list string)) (r : string) :
  Forall (Forall (fun f => CsvWriter.plain_field f = true)) rows ->
  starts_content rows = true ->
  CsvWriter.writerows rows <> String "#" r.
Proof.
  intros Hplain Hstart. destruct rows as [|row rows]; [discriminate|].
  apply Forall_cons in Hplain as [Hrow _].
  cbn [CsvWriter.writerows fold_right].
  destruct (decide (row = [EmptyString])) as [->|Hne]; [discriminate|].
  rewrite (writerow_plain _ Hrow Hne).
  destruct row as [|[|c f] [|g fs]]; try discriminate; try done.
  - cbn [PyStr.join]. rewrite !append_cons. simpl in Hstart.
    intros [= -> _]. discriminate Hstart.
  - rewrite join_cons_cons, !append_cons. simpl in Hstart.
    intros [= -> _]. discriminate Hstart.
Qed.

(** A card without field names is constructed from any row. *)
Lemma AnkiCard_init_no_names (row_fields : list string)
    (hh tags_idx note_type_idx deck_idx guid_idx : value) (b : bool) :
  _parse_anki_header_bool hh = Return b ->
  exists card,
    AnkiCard_init row_fields None hh tags_idx note_type_idx deck_idx guid_idx
    = ([], Return card)
    /\ as_str_list card = row_fields
    /\ has_html card = b.
Proof.
  intros Hb.
  pose proof (AnkiCard_init_spec row_fields None _ tags_idx note_type_idx
                deck_idx guid_idx _ Hb) as Hspec.
  cbv zeta in Hspec. simpl in Hspec.
  assert (Hr : raised (generate_from 0 [] row_fields
                         (reserved_mapping
                            [tags_idx; deck_idx; note_type_idx; guid_idx]
                            reserved_names) reserved_name_set) = None).
  { apply (raised_none _ [] (length row_fields)); try done.
    - intros k _ H. by apply elem_of_nil in H.
    - simpl. lia.
    - intros x Hx. by left. }
  rewrite Hr, (generate_from_no_names _ _ _ _ Hr) in Hspec.
  destruct (yields_spec
              (positional_name
                 (reserved_mapping [tags_idx; deck_idx; note_type_idx; guid_idx]
                    reserved_names) <$> seq 0 (length row_fields)))
    as (_ & Hw & _).
  rewrite Hw in Hspec. eexists. split; [exact Hspec|].
  apply AnkiCard_init_names in Hspec as (_ & _ & _ & Hv & _). done.
Qed.

Lemma cards_of_rows_no_names (rows : list (list string))
    (header : gmap string value) (b : bool) :
  (forall k v, header !! k = Some v -> k ∈ AnkiCard_keywords) ->
  _parse_anki_header_bool (default (VStr "false") (header !! "has_html"))
  = Return b ->
  exists deck,
    cards_of_rows rows None None header = ([], Return deck)
    /\ as_str_list <$> deck = rows
    /\ Forall (fun card => has_html card = b) deck.
Proof.
  intros Hkeys Hb. induction rows as [|row rows (deck & Hdeck & Hrows & Hhtml)].
  { exists []. done. }
  destruct (AnkiCard_init_no_names row _
              (default VNone (header !! "tags_idx"))
              (default VNone (header !! "note_type_idx"))
              (default VNone (header !! "deck_idx"))
              (default VNone (header !! "guid_idx")) b Hb)
    as (card & Hcard & Hvalues & Hcard_html).
  exists (card :: deck). cbn [cards_of_rows].
  rewrite (AnkiCard_call_keywords _ _ _ Hkeys), Hcard. simpl.
  rewrite Hdeck. simpl. split; [reflexivity|]. split.
  - change (as_str_list card :: (as_str_list <$> deck) = row :: rows).
    by rewrite Hvalues, Hrows.
  - by constructor.
Qed.

(** A deck whose first row starts with the header symbol is not read back:
    the row is taken for a header line. *)
Example header_like_row_is_not_read_back :
  let deck := {| deck_header := {["separator" := VStr "tab"]};
                 cards := [{| has_html := false;
                              fields := [("Field0", "#a:b")] |}] |} in
  write_as_tsv deck = Return (String "#" ("separator:tab" ++ String LF
                                ("#a:b" ++ String CR (String LF EmptyString))))
  /\ (_parse_anki_export Csv.reader_excel_tab
        (String "#" ("separator:tab" ++ String LF
           ("#a:b" ++ String CR (String LF EmptyString)))) None).2
     = Raise (KeyError "a").
Proof. split; vm_compute; reflexivity. Qed.

(** X18. A deck written as tab-separated text is read back from that text.
    For a deck whose header is in internal form with values that are written
    and read as they are, declares the separator "tab" and an html setting
    that is absent, "true" or "false", whose fields contain no tab, quote or
    line break, and whose first row does not start with the header symbol:
    [write_as_tsv] writes a text, and [_parse_anki_export] on that text
    returns, without a warning, the header of the deck and one card per
    card of the deck, in order, each with the values of its card and the
    html setting of the header. *)
Theorem written_deck_is_read_back (deck : AnkiDeck) (b : bool) :
  (forall k v, deck_header deck !! k = Some v ->
               k ∈ internal_keys /\ plain v = true) ->
  deck_header deck !! "separator" = Some (VStr "tab") ->
  _parse_anki_header_bool
    (default (VStr "false") (deck_header deck !! "has_html")) = Return b ->
  Forall (fun card => Forall (fun f => CsvWriter.plain_field f = true)
                        (as_str_list card)) (cards deck) ->
  starts_content (as_str_list <$> cards deck) = true ->
  exists written read,
    write_as_tsv deck = Return written
    /\ _parse_anki_export Csv.reader_excel_tab written None
       = ([], Return (deck_header deck, read))
    /\ as_str_list <$> read = as_str_list <$> cards deck
    /\ Forall (fun card => has_html card = b) read.
Proof.
  intros Hheader Hsep Hb Hplain Hstart.
  assert (Hrows : Forall (Forall (fun f => CsvWriter.plain_field f = true))
                    (as_str_list <$> cards deck))
    by (by apply Forall_fmap).
  destruct (write_then_parse_header (deck_header deck)
              (CsvWriter.writerows (as_str_list <$> cards deck)))
    as (written & Hwritten & Hparsed); [exact Hheader | |].
  { intros r. by apply writerows_starts_content. }
  destruct (cards_of_rows_no_names (as_str_list <$> cards deck)
              (delete "separator" (deck_header deck)) b)
    as (read & Hread & Hvalues & Hhtml).
  { intros k v [Hne Hk]%lookup_delete_Some.
    destruct (Hheader k v Hk) as [Hin _].
    unfold internal_keys in Hin. unfold AnkiCard_keywords.
    rewrite !elem_of_cons in Hin. rewrite !elem_of_cons.
    rewrite elem_of_nil in Hin.
    destruct Hin as [H|[H|[H|[H|[H|[H|[]]]]]]]; auto 6; congruence. }
  { by rewrite lookup_delete_ne. }
  exists (written ++ CsvWriter.writerows (as_str_list <$> cards deck)), read.
  split; [|split; [|done]].
  - unfold write_as_tsv. by rewrite Hwritten, deck_rows_written.
  - rewrite (parse_anki_export_tab _ _ _ _ _ Hparsed Hsep).
    unfold create_cards_from_tsv. rewrite (reader_writerows _ Hrows).
    cbn [default from_option].
    unfold _ANKI_EXPORT_HEADER_SETTING_SEPARATOR_NAME,
      _ANKI_EXPORT_HEADER_SETTING_SEPARATOR_TSV_STRING.
    unfold id. rewrite Hread. simpl. by rewrite insert_delete_id.
Qed.

Lemma written_deck_is_read_back_witness :
  let deck := {| deck_header := {["separator" := VStr "tab";
                                  "has_html" := VStr "true";
                                  "guid_idx" := VInt 0]};
                 cards := [{| has_html := true;
                              fields := [("GUID", "g1"); ("Front", "a b");
                                         ("Back", "")] |};
                           {| has_html := true;
                              fields := [("GUID", "g2"); ("Front", "#c");
                                         ("Back", "d")] |}] |} in
  exists written read,
    write_as_tsv deck = Return written
    /\ _parse_anki_export Csv.reader_excel_tab written None
       = ([], Return (deck_header deck, read))
    /\ as_str_list <$> read = as_str_list <$> cards deck
    /\ Forall (fun card => has_html card = true) read.
Proof.
  intros deck. apply (written_deck_is_read_back deck true).
  - apply (bool_decide_unpack
             (map_Forall (fun k v => k ∈ internal_keys /\ plain v = true)
                (deck_header deck))).
    vm_compute. exact I.
  - vm_compute. reflexivity.
  - vm_compute. reflexivity.
  - repeat constructor.
  - reflexivity.
Defined.

(** ** Flattened keyword arguments *)

Lemma dict_lookup (pairs : list (string * value)) (k : string) (v : value) :
  NoDup pairs.*1 -> dict pairs !! k = Some v <-> (k, v) ∈ pairs.
Proof.
  intros Hnd. unfold dict. rewrite fold_left_insert_list_to_map.
  rewrite (right_id_L ∅ (∪)).
  rewrite <- elem_of_list_to_map by (by rewrite fmap_reverse, reverse_Permutation).
  by rewrite elem_of_reverse.
Qed.

Lemma max_list_lt (i : nat) (ns : list nat) :
  (i < max_list ns)%nat <-> exists n, n ∈ ns /\ (i < n)%nat.
Proof.
  induction ns as [|n ns IH]; simpl.
  - split; [lia|]. intros (n & Hn & _). by apply elem_of_nil in Hn.
  - rewrite Nat.max_lt_iff, IH. split.
    + intros [H | (m & Hm & H)]; [exists n | exists m]; split; auto; by constructor.
    + intros (m & [-> | Hm]%elem_of_cons & H); [by left | right; eauto].
Qed.

Lemma zip_longest_lookup (fillvalue : value) (iterables : list (list value))
    (i : nat) :
  zip_longest fillvalue iterables !! i
  = if decide (i < max_list (length <$> iterables))%nat
    then Some ((fun iterable => default fillvalue (iterable !! i)) <$> iterables)
    else None.
Proof.
  unfold zip_longest. rewrite list_lookup_fmap.
  destruct (decide _) as [Hi|Hi].
  - by rewrite lookup_seq_lt.
  - by rewrite lookup_seq_ge by lia.
Qed.

Lemma zip_longest_length (fillvalue : value) (iterables : list (list value)) :
  length (zip_longest fillvalue iterables) = max_list (length <$> iterables).
Proof. unfold zip_longest. by rewrite length_fmap, length_seq. Qed.

(** There is an [i]th tuple when some sequence has an [i]th argument. *)
Lemma kwargs_longest (kwargs : gmap string (list value)) (i : nat) :
  (i < max_list (length <$> (kwargs_items kwargs).*2))%nat
  <-> exists k l, kwargs !! k = Some l /\ (i < length l)%nat.
Proof.
  rewrite max_list_lt. unfold kwargs_items. split.
  - intros (n & Hn & Hi).
    apply list_elem_of_fmap in Hn as (l & -> & Hl).
    apply list_elem_of_fmap in Hl as ([k l'] & -> & Hkl).
    apply elem_of_map_to_list in Hkl. eauto.
  - intros (k & l & Hkl & Hi). exists (length l). split; [|done].
    apply list_elem_of_fmap. exists l. split; [done|].
    apply list_elem_of_fmap. exists (k, l). split; [done|].
    by apply elem_of_map_to_list.
Qed.

(** The pairs of the [i]th tuple: one a keyword. *)
Lemma zip_kwargs_items (kwargs : gmap string (list value)) (f : list value -> value) :
  zip (kwargs_items kwargs).*1 (f <$> (kwargs_items kwargs).*2)
  = prod_map id f <$> kwargs_items kwargs.
Proof.
  induction (kwargs_items kwargs) as [|[k l] items IH]; [reflexivity|].
  simpl. f_equal. exact IH.
Qed.

Lemma elem_of_kwargs_pairs (kwargs : gmap string (list value))
    (f : list value -> value) (k : string) (v : value) :
  (k, v) ∈ prod_map id f <$> kwargs_items kwargs
  <-> exists l, kwargs !! k = Some l /\ v = f l.
Proof.
  rewrite list_elem_of_fmap. unfold kwargs_items. split.
  - intros ([k' l] & [= -> ->] & Hkl). apply elem_of_map_to_list in Hkl. eauto.
  - intros (l & Hkl & ->). exists (k, l). split; [done|].
    by apply elem_of_map_to_list.
Qed.

Lemma NoDup_kwargs_pairs (kwargs : gmap string (list value))
    (f : list value -> value) :
  NoDup (prod_map id f <$> kwargs_items kwargs).*1.
Proof.
  rewrite <- list_fmap_compose.
  assert (Hfst : (fst ∘ prod_map id f) <$> kwargs_items kwargs
                 = (kwargs_items kwargs).*1)
    by (apply list_fmap_ext; by intros ? [? ?]).
  rewrite Hfst. apply NoDup_fst_map_to_list.
Qed.

Lemma compress_zip (p : value -> bool) (keys : list string) :
  forall row : list value,
    compress (zip keys row) (p <$> row)
    = List.filter (fun kv => p kv.2) (zip keys row).
Proof.
  induction keys as [|key keys IH]; intros [|a row]; try reflexivity.
  change (compress (zip (key :: keys) (a :: row)) (p <$> a :: row))
    with (if p a then (key, a) :: compress (zip keys row) (p <$> row)
          else compress (zip keys row) (p <$> row)).
  rewrite IH. reflexivity.
Qed.

Lemma compress_from_app {A : Type} (data : list A) :
  forall selectors rest : list bool,
    length selectors = length data ->
    compress_from data (selectors ++ rest)%list = (compress data selectors, rest).
Proof.
  induction data as [|d data IH]; intros [|s selectors] rest Hlen;
    try discriminate Hlen; [reflexivity|].
  simpl. rewrite IH by (by injection Hlen). by destruct s.
Qed.

Lemma NoDup_fst_filter (p : string * value -> bool) (pairs : list (string * value)) :
  NoDup pairs.*1 -> NoDup (List.filter p pairs).*1.
Proof.
  induction pairs as [|[k v] pairs IH]; simpl; [done|].
  intros [Hk Hnd]%NoDup_cons. destruct (p (k, v)); simpl; [|auto].
  apply NoDup_cons. split; [|auto]. intros Hin. apply Hk.
  apply list_elem_of_fmap in Hin as ([k' v'] & -> & Hin).
  apply list_elem_of_In, filter_In in Hin as [Hin _].
  apply list_elem_of_fmap. exists (k', v'). split; [done|].
  by apply list_elem_of_In.
Qed.

(** X19. [generate_flattened_kwargs_fill_missing] yields an [i]th
    dictionary exactly when some keyword has an [i]th argument; that
    dictionary has every keyword, bound to its [i]th argument, or to
    [fillvalue] when the keyword has fewer arguments. *)
Theorem fill_missing_flattens (fillvalue : value)
    (kwargs : gmap string (list value)) (i : nat) :
  (is_Some (generate_flattened_kwargs_fill_missing fillvalue kwargs !! i)
   <-> exists k l, kwargs !! k = Some l /\ (i < length l)%nat)
  /\ forall flat_kwargs,
       generate_flattened_kwargs_fill_missing fillvalue kwargs !! i
       = Some flat_kwargs ->
       forall k, flat_kwargs !! k
                 = (fun l => default fillvalue (l !! i)) <$> kwargs !! k.
Proof.
  unfold generate_flattened_kwargs_fill_missing. cbv zeta.
  rewrite !list_lookup_fmap, zip_longest_lookup.
  destruct (decide _) as [Hi|Hi]; simpl.
  - split; [split; [intros _; by apply kwargs_longest | eauto]|].
    intros d [= <-] k. rewrite zip_kwargs_items.
    apply option_eq. intros v.
    rewrite dict_lookup by apply NoDup_kwargs_pairs.
    rewrite elem_of_kwargs_pairs, fmap_Some. naive_solver.
  - split; [|discriminate]. split; [by intros [? ?]|].
    intros H. by apply kwargs_longest in H.
Qed.

(** X20. [generate_flattened_kwargs_remove_sentinel] yields an [i]th
    dictionary exactly when some keyword has an [i]th argument; in it a
    keyword is bound to its [i]th argument, or to [fillvalue] when it has
    fewer arguments, unless that value is the sentinel, in which case the
    keyword is left out: every dictionary takes its own selectors from the
    iterator they share. *)
Theorem remove_sentinel_flattens (sentinel fillvalue : value)
    (kwargs : gmap string (list value)) (i : nat) :
  (is_Some (generate_flattened_kwargs_remove_sentinel sentinel fillvalue kwargs
            !! i)
   <-> exists k l, kwargs !! k = Some l /\ (i < length l)%nat)
  /\ forall flat_kwargs,
       generate_flattened_kwargs_remove_sentinel sentinel fillvalue kwargs !! i
       = Some flat_kwargs ->
       forall k v,
         flat_kwargs !! k = Some v
         <-> exists l, kwargs !! k = Some l
                       /\ v = default fillvalue (l !! i)
                       /\ v <> sentinel.
Proof.
  unfold generate_flattened_kwargs_remove_sentinel. cbv zeta.
  set (arguments := zip_longest fillvalue (kwargs_items kwargs).*2).
  set (p := fun argument : value => bool_decide (argument <> sentinel)).
  assert (Hshared :
    map_compress_repeat (zip (kwargs_items kwargs).*1 <$> arguments)
      (p <$> concat arguments)
    = (fun row => List.filter (fun kv => p kv.2)
                    (zip (kwargs_items kwargs).*1 row)) <$> arguments).
  { assert (Hrows : Forall (fun row => length row
                                       = length (kwargs_items kwargs).*1)
                      arguments).
    { apply Forall_forall. intros row Hrow.
      apply list_elem_of_fmap in Hrow as (j & -> & _).
      by rewrite !length_fmap. }
    clearbody arguments.
    induction arguments as [|row arguments IH]; [reflexivity|].
    apply Forall_cons in Hrows as [Hrow Hrows].
    cbn [concat fmap list_fmap map_compress_repeat].
    rewrite fmap_app, compress_from_app.
    2: { rewrite length_fmap, length_zip. lia. }
    fold (fmap (M := list) (zip (kwargs_items kwargs).*1) arguments).
    fold (fmap (M := list) p (concat arguments)).
    rewrite (IH Hrows). f_equal. apply compress_zip. }
  rewrite Hshared. clear Hshared.
  rewrite !list_lookup_fmap. unfold arguments. rewrite zip_longest_lookup.
  destruct (decide _) as [Hi|Hi]; simpl.
  - split; [split; [intros _; by apply kwargs_longest | eauto]|].
    intros d [= <-] k v. rewrite zip_kwargs_items.
    rewrite dict_lookup by apply NoDup_fst_filter, NoDup_kwargs_pairs.
    rewrite list_elem_of_In, filter_In, <- list_elem_of_In.
    rewrite elem_of_kwargs_pairs. unfold p. simpl.
    rewrite bool_decide_eq_true. naive_solver.
  - split; [|discriminate]. split; [by intros [? ?]|].
    intros H. by apply kwargs_longest in H.
Qed.

(** X21. [generate_flattened_kwargs_remove_falsy] yields an [i]th
    dictionary exactly when some keyword has an [i]th argument; in it a
    keyword is bound to its [i]th argument when it has one that is true, and
    is left out otherwise. *)
Theorem remove_falsy_flattens (kwargs : gmap string (list value)) (i : nat) :
  (is_Some (generate_flattened_kwargs_remove_falsy kwargs !! i)
   <-> exists k l, kwargs !! k = Some l /\ (i < length l)%nat)
  /\ forall flat_kwargs,
       generate_flattened_kwargs_remove_falsy kwargs !! i = Some flat_kwargs ->
       forall k v,
         flat_kwargs !! k = Some v
         <-> exists l, kwargs !! k = Some l
                       /\ l !! i = Some v
                       /\ value_truthy v = true.
Proof.
  unfold generate_flattened_kwargs_remove_falsy. cbv zeta.
  set (arguments := zip_longest VNone (kwargs_items kwargs).*2).
  assert (Hrows :
    zip_with (fun data selectors => compress data (value_truthy <$> selectors))
      (zip (kwargs_items kwargs).*1 <$> arguments) arguments
    = (fun row => List.filter (fun kv => value_truthy kv.2)
                    (zip (kwargs_items kwargs).*1 row)) <$> arguments).
  { assert (Hlen : Forall (fun row => length row
                                      = length (kwargs_items kwargs).*1)
                     arguments).
    { apply Forall_forall. intros row Hrow.
      apply list_elem_of_fmap in Hrow as (j & -> & _).
      by rewrite !length_fmap. }
    clearbody arguments.
    induction arguments as [|row arguments IH]; [reflexivity|].
    apply Forall_cons in Hlen as [Hrow Hlen].
    cbn [fmap list_fmap zip_with].
    fold (fmap (M := list) (zip (kwargs_items kwargs).*1) arguments).
    rewrite (IH Hlen). f_equal. apply compress_zip. }
  rewrite Hrows. clear Hrows.
  rewrite !list_lookup_fmap. unfold arguments. rewrite zip_longest_lookup.
  destruct (decide _) as [Hi|Hi]; simpl.
  - split; [split; [intros _; by apply kwargs_longest | eauto]|].
    intros d [= <-] k v. rewrite zip_kwargs_items.
    rewrite dict_lookup by apply NoDup_fst_filter, NoDup_kwargs_pairs.
    rewrite list_elem_of_In, filter_In, <- list_elem_of_In.
    rewrite elem_of_kwargs_pairs. simpl. split.
    + intros [(l & Hl & ->) Hv]. exists l. split; [done|].
      destruct (l !! i); [done | discriminate Hv].
    + intros (l & Hl & Hli & Hv). split; [|done]. exists l. by rewrite Hli.
  - split; [|discriminate]. split; [by intros [? ?]|].
    intros H. by apply kwargs_longest in H.
Qed.

(** The flattening of the doc comments, run. *)
Example flattened_kwargs_run :
  let kwargs : gmap string (list value) :=
    {["x" := [VStr "x0"; VNone]; "y" := [VStr "y0"]; "z" := [VStr ""; VStr "z1"]]} in
  generate_flattened_kwargs_remove_sentinel VNone (VStr "") kwargs
  = [ {["x" := VStr "x0"; "y" := VStr "y0"; "z" := VStr ""]};
      {["y" := VStr ""; "z" := VStr "z1"]} ]
  /\ generate_flattened_kwargs_remove_falsy kwargs
     = [ {["x" := VStr "x0"; "y" := VStr "y0"]}; {["z" := VStr "z1"]} ]
  /\ generate_flattened_kwargs_fill_missing (VInt 0) kwargs
     = [ {["x" := VStr "x0"; "y" := VStr "y0"; "z" := VStr ""]};
         {["x" := VNone; "y" := VInt 0; "z" := VStr "z1"]} ].
Proof. repeat split; vm_compute; reflexivity. Qed.

(** ** Decks written to files *)

Lemma generate_unique_file_path_free (files : gset string)
    (filename : option string) (extension destination : string) :
  _generate_unique_file_path files filename extension destination ∉ files.
Proof.
  unfold _generate_unique_file_path.
  set (fname := if truthy filename then default "" filename
                else GENERIC_EXPORT_FILE_NAME).
  assert (Hfname : exists c name, fname = String c name).
  { subst fname. destruct filename as [[|c name]|]; simpl; eauto. }
  destruct Hfname as (c & name & ->).
  destruct (String.eqb (String c name) GENERIC_EXPORT_FILE_NAME).
  - apply (unique_file_path_loop_free files extension destination c name _ files);
      [lia | done |].
    intros t Ht. split; [|done].
    intros H. change (PyStr.str 0) with (PyStr.str (Z.of_nat 0)) in H.
    apply path_of_tagged_inj in H. lia.
  - apply (unique_file_path_loop_free files extension destination c name _ files);
      [lia | done |].
    intros t Ht. split; [|done].
    intros H. symmetry in H. by apply path_of_untagged in H.
Qed.

Lemma unique_file_path_free (fs : file_system)
    (filename extension destination : value) (file_path : string) :
  unique_file_path (dom fs) filename extension destination = Return file_path ->
  fs !! file_path = None.
Proof.
  unfold unique_file_path. destruct destination; try discriminate.
  intros [= <-]. apply not_elem_of_dom, generate_unique_file_path_free.
Qed.

(** What a write does to the files: nothing, or one new file. *)
Lemma write_deck_to_file_files (decks : list AnkiDeck) (deck : AnkiDeck + Z)
    (filename file_type destination extension : value) (fs fs' : file_system)
    (r : option error) :
  write_deck_to_file decks deck filename file_type destination extension fs
  = (fs', r) ->
  (fs' = fs /\ is_Some r /\ forall path, r <> Some (FileExistsError path))
  \/ exists file_path written,
       fs !! file_path = None /\ fs' = <[file_path := written]> fs
       /\ (r = None \/ exists e, r = Some (Exn e)).
Proof.
  unfold write_deck_to_file.
  destruct (match deck with inr idx => get_deck decks idx | inl d => inr d end)
    as [e|d] eqn:Hdeck.
  { intros [= <- <-]. left. split; [done|]. split; [eauto|].
    intros path [= ->]. destruct deck as [?|idx]; [discriminate|].
    unfold get_deck in Hdeck.
    repeat match type of Hdeck with
           | context [if ?b then _ else _] => destruct b
           | context [match ?x with Some _ => _ | None => _ end] => destruct x
           end; discriminate. }
  destruct (unique_file_path _ _ _ _) as [file_path|e] eqn:Hpath.
  2: { intros [= <- <-]. left. split; [done|]. split; [eauto | done]. }
  apply unique_file_path_free in Hpath.
  rewrite bool_decide_eq_false_2 by (by apply not_elem_of_dom).
  case_bool_decide.
  - destruct (write_as_tsv d) as [written|e]; intros [= <- <-]; right;
      eauto 10.
  - intros [= <- <-]. right. eauto 10.
Qed.

Lemma write_deck_to_file_call_files (decks : list AnkiDeck)
    (deck : AnkiDeck + Z) (flat_kwargs : gmap string value)
    (fs fs' : file_system) (r : option error) :
  write_deck_to_file_call decks deck flat_kwargs fs = (fs', r) ->
  (fs' = fs /\ is_Some r /\ forall path, r <> Some (FileExistsError path))
  \/ exists file_path written,
       fs !! file_path = None /\ fs' = <[file_path := written]> fs
       /\ (r = None \/ exists e, r = Some (Exn e)).
Proof.
  unfold write_deck_to_file_call. destruct (filter _ _).
  - apply write_deck_to_file_files.
  - intros [= <- <-]. left. split; [done|]. split; [eauto | done].
Qed.

(** A deck that is given, not looked up, raises no exception of this
    layer. *)
Lemma write_deck_to_file_call_exn (decks : list AnkiDeck) (deck : AnkiDeck)
    (flat_kwargs : gmap string value) (fs fs' : file_system) (e : error) :
  write_deck_to_file_call decks (inl deck) flat_kwargs fs = (fs', Some e) ->
  exists e', e = Exn e'.
Proof.
  intros H. pose proof H as Hcall.
  apply write_deck_to_file_call_files in H as [(_ & _ & _) | (? & ? & _ & _ & H)].
  - unfold write_deck_to_file_call, write_deck_to_file in Hcall.
    destruct (filter _ _); [|simplify_eq; eauto].
    destruct (unique_file_path _ _ _ _) as [file_path|e'] eqn:Hpath;
      [|simplify_eq; eauto].
    apply unique_file_path_free in Hpath.
    rewrite bool_decide_eq_false_2 in Hcall by (by apply not_elem_of_dom).
    case_bool_decide; [destruct (write_as_tsv deck)|];
      simplify_eq; eauto.
  - destruct H as [|[e' [= ->]]]; [discriminate | eauto].
Qed.

(** The loop: the files it leaves, and the index it returns. *)
Lemma write_decks_from_spec (decks : list AnkiDeck) (remaining : list AnkiDeck) :
  forall (idx : nat) (flat_kwargs : list (gmap string value))
         (last : option nat) (fs fs' : file_system) (r : error + option nat),
    write_decks_from decks idx remaining flat_kwargs last fs = (fs', r) ->
    fs ⊆ fs'
    /\ match r with
       | inl e => exists e', e = Exn e'
       | inr last' =>
           size fs' = (size fs + length remaining)%nat
           /\ last' = match remaining with
                      | [] => last
                      | _ :: _ => Some (idx + length remaining - 1)%nat
                      end
       end.
Proof.
  induction remaining as [|deck remaining IH];
    intros idx flat_kwargs last fs fs' r; cbn [write_decks_from].
  { intros [= <- <-]. split; [done|]. split; [simpl; lia | done]. }
  destruct (match flat_kwargs with
            | [] => (∅, [])
            | flat :: flat_kwargs' => (flat, flat_kwargs')
            end) as [flat flat_kwargs'].
  destruct (write_deck_to_file_call decks (inl deck) flat fs)
    as [fs1 [e|]] eqn:Hcall.
  - intros [= <- <-]. split; [|by eapply write_deck_to_file_call_exn].
    apply write_deck_to_file_call_files in Hcall
      as [(-> & _) | (p & w & Hp & -> & _)]; [done|].
    by apply insert_subseteq.
  - intros Hrest. apply IH in Hrest as [Hsub Hr].
    apply write_deck_to_file_call_files in Hcall
      as [(_ & [? [=]] & _) | (p & w & Hp & -> & _)].
    split; [etrans; [by apply insert_subseteq | exact Hsub]|].
    destruct r as [e|last']; [exact Hr|].
    destruct Hr as [Hsize ->]. unfold file_system in *.
    rewrite map_size_insert_None in Hsize by exact Hp.
    split; [simpl; lia|].
    destruct remaining; f_equal; simpl; lia.
Qed.

(** X22. [write_deck_to_file] writes to no file that exists: every file
    keeps its text, the exclusive [open] never finds its path taken, and at
    most one file is created, at a path that was free. *)
Theorem write_deck_to_file_keeps_files (decks : list AnkiDeck)
    (deck : AnkiDeck + Z) (filename file_type destination extension : value)
    (fs : file_system) :
  let result :=
    write_deck_to_file decks deck filename file_type destination extension fs in
  fs ⊆ result.1
  /\ (forall path, result.2 <> Some (FileExistsError path))
  /\ (result.1 = fs
      \/ exists file_path written,
           fs !! file_path = None /\ result.1 = <[file_path := written]> fs).
Proof.
  intros result. subst result.
  destruct (write_deck_to_file _ _ _ _ _ _ _) as [fs' r] eqn:Hwrite.
  apply write_deck_to_file_files in Hwrite
    as [(-> & _ & Hr) | (p & w & Hp & -> & Hr)]; simpl.
  - split; [done|]. split; [exact Hr | by left].
  - split; [by apply insert_subseteq|]. split; [|right; eauto].
    intros path. destruct Hr as [-> | [e ->]]; discriminate.
Qed.

(** X23. A write that raises past the [open] leaves an empty file behind:
    with a file type other than ".txt" [write_deck_to_file] raises the
    [ValueError], and with a header that cannot be written the exception of
    [write_header]; in both cases the file of the generated path has been
    created and is empty. *)
Theorem failed_write_leaves_empty_file (decks : list AnkiDeck) (deck : AnkiDeck)
    (filename file_type extension : value) (destination : string)
    (fs : file_system) :
  let file_path :=
    _generate_unique_file_path (dom fs)
      (if value_truthy filename then Some (format filename) else None)
      (format extension) destination in
  (file_type <> VStr ".txt" \/ exists e, write_header (deck_header deck) = Raise e) ->
  fs !! file_path = None
  /\ exists e,
       write_deck_to_file decks (inl deck) filename file_type (VStr destination)
         extension fs
       = (<[file_path := EmptyString]> fs, Some (Exn e))
       /\ (file_type <> VStr ".txt" ->
           e = ValueError ("Failed to write Deck to file. Expected a valid "
                           ++ "file_type but instead got " ++ format file_type))
       /\ (file_type = VStr ".txt" -> write_header (deck_header deck) = Raise e).
Proof.
  intros file_path Hfail.
  assert (Hfree : fs !! file_path = None)
    by apply not_elem_of_dom, generate_unique_file_path_free.
  split; [exact Hfree|].
  unfold write_deck_to_file, unique_file_path. fold file_path.
  rewrite bool_decide_eq_false_2 by (by apply not_elem_of_dom).
  unfold _ANKI_NOTESINPLAINTEXT_EXT. case_bool_decide as Htype.
  - destruct Hfail as [Hne | [e He]]; [done|].
    exists e. unfold write_as_tsv. rewrite He. done.
  - eexists. split; [reflexivity|]. done.
Qed.

Lemma failed_write_leaves_empty_file_witness :
  exists e,
    write_deck_to_file []
      (inl {| deck_header := {["separator" := VStr "tab"]}; cards := [] |})
      (VStr "deck") (VStr ".csv") (VStr "out") (VStr ".txt")
      {["out/deck.txt" := "kept"]}
    = ({["out/deck.txt" := "kept"; "out/deck0.txt" := ""]}, Some (Exn e)).
Proof.
  pose proof (failed_write_leaves_empty_file []
                {| deck_header := {["separator" := VStr "tab"]}; cards := [] |}
                (VStr "deck") (VStr ".csv") (VStr ".txt") "out"
                {["out/deck.txt" := "kept"]}) as Hfailed.
  cbv zeta in Hfailed. destruct Hfailed as (_ & e & Hwrite & _).
  - left. discriminate.
  - exists e. rewrite Hwrite. vm_compute. reflexivity.
Defined.

(** X24. [write_all_decks_to_file], called without a keyword [sentinel]:
    with no deck it raises [DecksNotWrittenException], with no index, and
    it raises that exception in no other case.  No file that exists is
    changed, and when it returns there is one more file for every deck. *)
Theorem write_all_decks_to_file_writes_each_deck (decks : list AnkiDeck)
    (fillvalue : option value) (kwargs : gmap string (list value))
    (fs : file_system) :
  kwargs !! "sentinel" = None ->
  let result := write_all_decks_to_file decks fillvalue kwargs fs in
  fs ⊆ result.1
  /\ (decks = [] -> result = (fs, Some (DecksNotWrittenException None)))
  /\ (forall last, result.2 = Some (DecksNotWrittenException last) -> decks = [])
  /\ (result.2 = None -> size result.1 = (size fs + length decks)%nat).
Proof.
  intros Hsentinel result. subst result. unfold write_all_decks_to_file.
  rewrite bool_decide_eq_false_2 by (by apply not_elem_of_dom). cbv zeta.
  destruct (write_decks_from decks 0 decks _ None fs) as [fs' [e|last']] eqn:Hloop;
    pose proof (write_decks_from_spec _ _ _ _ _ _ _ _ Hloop) as [Hsub Hr].
  - destruct Hr as [e' ->]. simpl. split; [exact Hsub|]. split; [|split; [|done]].
    + intros ->. discriminate Hloop.
    + intros last [=].
  - destruct Hr as [Hsize ->]. destruct decks as [|deck decks].
    + injection Hloop as <-. simpl. repeat split; try done.
    + rewrite bool_decide_eq_false_2.
      2: { intros H. apply H. simpl. f_equal. lia. }
      simpl. split; [exact Hsub|]. split; [done|]. split; [done|].
      intros _. exact Hsize.
Qed.

Lemma write_all_decks_to_file_writes_each_deck_witness :
  let deck := {| deck_header := {["separator" := VStr "tab"]};
                 cards := [{| has_html := false;
                              fields := [("Field0", "a")] |}] |} in
  let result :=
    write_all_decks_to_file [deck; deck] None
      {["filename" := [VStr "front"]; "destination" := [VStr "out"; VStr "out"]]}
      {["out/front" := "kept"]} in
  ({["out/front" := "kept"]} : file_system) ⊆ result.1
  /\ ([deck; deck] = [] -> result = ({["out/front" := "kept"]},
                                     Some (DecksNotWrittenException None)))
  /\ (forall last, result.2 = Some (DecksNotWrittenException last) ->
                   [deck; deck] = [])
  /\ (result.2 = None ->
      size result.1 = (size ({["out/front" := "kept"]} : file_system)
                       + length [deck; deck])%nat).
Proof.
  intros deck.
  apply (write_all_decks_to_file_writes_each_deck [deck; deck] None
           {["filename" := [VStr "front"]; "destination" := [VStr "out"; VStr "out"]]}
           {["out/front" := "kept"]}).
  vm_compute. reflexivity.
Defined.

(** Two decks written with a file name for the first: the name that is
    taken is tagged, the deck without a name gets the generic one. *)
Example write_all_decks_to_file_run :
  let deck := {| deck_header := {["separator" := VStr "tab"]};
                 cards := [{| has_html := false;
                              fields := [("Field0", "a")] |}] |} in
  write_all_decks_to_file [deck; deck] None
    {["filename" := [VStr "front"]; "destination" := [VStr "out"; VStr "out"]]}
    {["out/front" := "kept"]}
  = ({["out/front" := "kept";
       "out/front0" := text ["#separator:tab"] ++ "a" ++ String CR (String LF "");
       "out/GaggleFile0"
         := text ["#separator:tab"] ++ "a" ++ String CR (String LF "")]},
     None).
Proof. vm_compute. reflexivity. Qed.

(** A keyword with fewer arguments than another is filled with [None]:
    the deck that gets no destination is not written to the default one,
    the write raises. *)
Example missing_destination_raises :
  let deck := {| deck_header := {["separator" := VStr "tab"]}; cards := [] |} in
  write_all_decks_to_file [deck; deck] None
    {["filename" := [VStr "a"; VStr "b"]; "destination" := [VStr "out"]]} ∅
  = ({["out/a" := text ["#separator:tab"]]},
     Some (Exn (TypeError
                  "expected str, bytes or os.PathLike object, not NoneType"))).
Proof. vm_compute. reflexivity. Qed.
